(** * CanvasAPIScripts: last participation of students in a Canvas course

    A shallow embedding of the two scripts [last_nonzero_score.py] and
    [last_participation.py]: the paginated fetcher ([get_navigation],
    [get_list]), the timestamp codec ([z_to_dt], [dt_to_z]) and the two
    aggregation walks ([last_non_zero_score], [last_submission]).

    Python exceptions are values of [result]; the [while True] loop of
    [get_list] runs on fuel; dictionaries that are only looked up are
    [gmap]s, dictionaries that are iterated are association lists in
    insertion order. A [str] is a [string], a sequence of characters
    with code points below 256; an [int] is a [Z]; a [float] is a
    primitive binary64 [float]. *)

From Stdlib Require Import ZArith Ascii String List Floats.
From stdpp Require Import base tactics option list sorting gmap strings pretty.

Local Open Scope string_scope.
Local Open Scope list_scope.
Local Open Scope Z_scope.

(** ** Exceptions *)

Inductive exn : Type :=
  | KeyError      (* d[k] with k not a key of d *)
  | IndexError    (* l[i] out of range *)
  | ValueError    (* datetime.strptime on a string it does not accept *)
  | TypeError     (* an ordering comparison with None or a str *)
  | HTTPError.    (* any exception of the HTTP collaborator *)

Inductive result (A : Type) : Type :=
  | Ok (a : A)
  | Raise (e : exn).
Arguments Ok {A} a.
Arguments Raise {A} e.

#[global] Instance result_ret : MRet result := @Ok.
#[global] Instance result_bind : MBind result := λ A B f r,
  match r with Ok a => f a | Raise e => Raise e end.

#[global] Instance exn_eq_dec : EqDecision exn.
Proof. solve_decision. Defined.

(** A [for] loop whose body may raise: the state is threaded from left to
    right and the first exception ends the loop. *)
Fixpoint for_each {A S : Type} (body : S → A → result S) (l : list A) (s : S)
  : result S :=
  match l with
  | [] => Ok s
  | x :: l' => s' ← body s x; for_each body l' s'
  end.

(** ** The string methods the scripts call *)

Module PyStr.

(** The double quote character, code point 34. *)
Definition dq : string := String (ascii_of_nat 34) EmptyString.

(** [s.split(sep)] for a one-character separator: never the empty list. *)
Fixpoint split (sep : ascii) (s : string) : list string :=
  match s with
  | EmptyString => [EmptyString]
  | String c s' =>
      if decide (c = sep) then EmptyString :: split sep s'
      else match split sep s' with
           | piece :: pieces => String c piece :: pieces
           | [] => [String c EmptyString]
           end
  end.

(** [s.split(sep)[0]] *)
Definition first_piece (sep : ascii) (s : string) : string :=
  match split sep s with
  | piece :: _ => piece
  | [] => EmptyString
  end.

Fixpoint startswith (p s : string) : bool :=
  match p, s with
  | EmptyString, _ => true
  | String a p', String b s' => bool_decide (a = b) && startswith p' s'
  | String _ _, EmptyString => false
  end.

(** [sub in s] *)
Fixpoint contains (sub s : string) : bool :=
  startswith sub s ||
  match s with
  | EmptyString => false
  | String _ s' => contains sub s'
  end.

Fixpoint lstrip (chars : list ascii) (s : string) : string :=
  match s with
  | EmptyString => EmptyString
  | String c s' => if bool_decide (c ∈ chars) then lstrip chars s' else s
  end.

Fixpoint rstrip (chars : list ascii) (s : string) : string :=
  match s with
  | EmptyString => EmptyString
  | String c s' =>
      match rstrip chars s' with
      | EmptyString =>
          if bool_decide (c ∈ chars) then EmptyString
          else String c EmptyString
      | r => String c r
      end
  end.

(** [s.strip(chars)] *)
Definition strip (chars : list ascii) (s : string) : string :=
  rstrip chars (lstrip chars s).

End PyStr.

(** ** Paginated fetcher: [get_navigation] and [get_list] *)

Module Fetcher.

Definition rel_current : string := "rel=" +:+ PyStr.dq +:+ "current" +:+ PyStr.dq.
Definition rel_next : string := "rel=" +:+ PyStr.dq +:+ "next" +:+ PyStr.dq.
Definition rel_last : string := "rel=" +:+ PyStr.dq +:+ "last" +:+ PyStr.dq.

(** [link_info.split(';')[0].strip('<>')] *)
Definition link_target (link_info : string) : string :=
  PyStr.strip ["<"; ">"]%char (PyStr.first_piece ";" link_info).

(** The three links as the loop of [get_navigation] holds them. *)
Record navigation : Type := Navigation
  { current_link : string; next_link : string; last_link : string }.

Definition navigation_step (nav : navigation) (link_info : string)
  : navigation :=
  let nav :=
    if PyStr.contains rel_current link_info
    then Navigation (link_target link_info) (next_link nav) (last_link nav)
    else nav in
  let nav :=
    if PyStr.contains rel_next link_info
    then Navigation (current_link nav) (link_target link_info) (last_link nav)
    else nav in
  if PyStr.contains rel_last link_info
  then Navigation (current_link nav) (next_link nav) (link_target link_info)
  else nav.

Definition get_navigation (link_list : list string) : navigation :=
  fold_left navigation_step link_list
    (Navigation EmptyString EmptyString EmptyString).

Section GetList.
(** The HTTP collaborator: [session.get] answers a URL from the state
    of the world and may change it; [A] is the type of the records of
    the JSON array in the body. *)
Context {World A : Type}.

Record response : Type := Response
  { headers_link : option string;    (* response.headers['link'] *)
    json : result (list A) }.        (* response.json() *)

Variable session_get : string → World → result response * World.

(** What a run of [get_list] leaves behind: the world, the URLs it
    requested in order, and how it ended ([None]: still looping when
    the fuel ran out). *)
Record run : Type := Run
  { world_after : World;
    requests : list string;
    returned : option (result (list A)) }.

Fixpoint get_list_loop (fuel : nat) (url : string) (this_list : list A)
    (w : World) (log : list string) : run :=
  match fuel with
  | O => Run w log None
  | S fuel' =>
      let '(r, w) := session_get url w in
      let log := log ++ [url] in
      match r with
      | Raise e => Run w log (Some (Raise e))
      | Ok response =>
          match headers_link response with
          | None => Run w log (Some (Raise KeyError))
          | Some link =>
              let nav := get_navigation (PyStr.split "," link) in
              match json response with
              | Raise e => Run w log (Some (Raise e))
              | Ok records =>
                  let this_list := this_list ++ records in
                  if decide (current_link nav = last_link nav)
                  then Run w log (Some (Ok this_list))
                  else get_list_loop fuel' (next_link nav) this_list w log
              end
          end
      end
  end.

Definition get_list (fuel : nat) (first_url : string) (w : World) : run :=
  get_list_loop fuel first_url [] w [].

End GetList.

Arguments response A : clear implicits.
Arguments run World A : clear implicits.

End Fetcher.

(** ** Timestamp codec: [z_to_dt] and [dt_to_z] *)

Module Codec.

(** A naive [datetime.datetime]; [strptime] with this format always
    leaves the microsecond at 0, so it is not a field. *)
Record datetime : Type := Datetime
  { year : Z; month : Z; day : Z; hour : Z; minute : Z; second : Z }.

#[global] Instance datetime_eq_dec : EqDecision datetime.
Proof. solve_decision. Defined.

(** *** Ordering: Python compares the field tuples lexicographically *)

Definition fields (d : datetime) : list Z :=
  [year d; month d; day d; hour d; minute d; second d].

Fixpoint lex_compare (l1 l2 : list Z) : comparison :=
  match l1, l2 with
  | [], [] => Eq
  | [], _ :: _ => Lt
  | _ :: _, [] => Gt
  | x :: l1', y :: l2' =>
      match x ?= y with
      | Eq => lex_compare l1' l2'
      | c => c
      end
  end.

Definition dt_compare (a b : datetime) : comparison :=
  lex_compare (fields a) (fields b).

(** [a > b] and [a <= b] on two datetimes *)
Definition dt_gt (a b : datetime) : bool :=
  match dt_compare a b with Gt => true | _ => false end.
Definition dt_le (a b : datetime) : Prop := dt_compare a b ≠ Gt.
Definition dt_lt (a b : datetime) : Prop := dt_compare a b = Lt.

#[global] Instance dt_le_dec : RelDecision dt_le.
Proof. intros a b. unfold dt_le. solve_decision. Defined.

(** *** The calendar checks of the [datetime] constructor *)

Definition is_leap (y : Z) : bool :=
  (y mod 4 =? 0) && (negb (y mod 100 =? 0) || (y mod 400 =? 0)).

Definition days_in_month (y m : Z) : Z :=
  if m =? 2 then (if is_leap y then 29 else 28)
  else if (m =? 4) || (m =? 6) || (m =? 9) || (m =? 11) then 30
  else 31.

Definition valid_fields (y m d H M S : Z) : bool :=
  (1 <=? y) && (y <=? 9999) && (1 <=? m) && (m <=? 12) &&
  (1 <=? d) && (d <=? days_in_month y m) &&
  (0 <=? H) && (H <=? 23) && (0 <=? M) && (M <=? 59) &&
  (0 <=? S) && (S <=? 59).

(** [datetime(y, m, d, H, M, S)] *)
Definition make_datetime (y m d H M S : Z) : result datetime :=
  if valid_fields y m d H M S then Ok (Datetime y m d H M S)
  else Raise ValueError.

(** *** [datetime.strptime(s, '%Y-%m-%dT%H:%M:%SZ')]

    CPython turns the format into a regular expression, compiled with
    IGNORECASE, matches it at the start of the string and refuses
    leftover characters. A matcher lists its matches in the order the
    backtracking engine tries them; the first one of the whole
    expression is the match. *)

Definition digit_of (c : ascii) : option Z :=
  let code := Z.of_N (N_of_ascii c) in
  if (48 <=? code) && (code <=? 57) then Some (code - 48) else None.

Definition matcher (A : Type) : Type := string → list (A * string).

(** one character of the class [[lo-hi]] *)
Definition digit (lo hi : Z) : matcher Z := λ s,
  match s with
  | String c s' =>
      match digit_of c with
      | Some d => if (lo <=? d) && (d <=? hi) then [(d, s')] else []
      | None => []
      end
  | EmptyString => []
  end.

(** [[lo1-hi1][lo2-hi2]], read as a number *)
Definition two (lo1 hi1 lo2 hi2 : Z) : matcher Z := λ s,
  '(a, s) ← digit lo1 hi1 s;
  '(b, s) ← digit lo2 hi2 s;
  [(10 * a + b, s)].

(** a space, then [[lo-hi]]: [int] skips the space *)
Definition spaced (lo hi : Z) : matcher Z := λ s,
  match s with
  | String c s' => if decide (c = " "%char) then digit lo hi s' else []
  | EmptyString => []
  end.

Definition alt {A} (p q : matcher A) : matcher A := λ s, p s ++ q s.

Definition lower (c : ascii) : ascii :=
  let n := nat_of_ascii c in
  if (65 <=? n)%nat && (n <=? 90)%nat then ascii_of_nat (n + 32) else c.

(** a literal character of the format, under IGNORECASE *)
Definition literal (p : ascii) : matcher unit := λ s,
  match s with
  | String c s' => if decide (lower c = lower p) then [((), s')] else []
  | EmptyString => []
  end.

(** [\d\d\d\d] *)
Definition directive_Y : matcher Z := λ s,
  '(a, s) ← two 0 9 0 9 s;
  '(b, s) ← two 0 9 0 9 s;
  [(100 * a + b, s)].
(** [1[0-2]|0[1-9]|[1-9]] *)
Definition directive_m : matcher Z :=
  alt (two 1 1 0 2) (alt (two 0 0 1 9) (digit 1 9)).
(** [3[0-1]|[1-2]\d|0[1-9]|[1-9]| [1-9]] *)
Definition directive_d : matcher Z :=
  alt (two 3 3 0 1) (alt (two 1 2 0 9) (alt (two 0 0 1 9)
    (alt (digit 1 9) (spaced 1 9)))).
(** [2[0-3]|[0-1]\d|\d] *)
Definition directive_H : matcher Z :=
  alt (two 2 2 0 3) (alt (two 0 1 0 9) (digit 0 9)).
(** [[0-5]\d|\d] *)
Definition directive_M : matcher Z :=
  alt (two 0 5 0 9) (digit 0 9).
(** [6[0-1]|[0-5]\d|\d] *)
Definition directive_S : matcher Z :=
  alt (two 6 6 0 1) (alt (two 0 5 0 9) (digit 0 9)).

Definition format_regex : matcher (Z * Z * Z * Z * Z * Z) := λ s,
  '(y, s) ← directive_Y s;
  '(_, s) ← literal "-" s;
  '(m, s) ← directive_m s;
  '(_, s) ← literal "-" s;
  '(d, s) ← directive_d s;
  '(_, s) ← literal "T" s;
  '(H, s) ← directive_H s;
  '(_, s) ← literal ":" s;
  '(M, s) ← directive_M s;
  '(_, s) ← literal ":" s;
  '(sec, s) ← directive_S s;
  '(_, s) ← literal "Z" s;
  [((y, m, d, H, M, sec), s)].

Definition strptime (data_string : string) : result datetime :=
  match format_regex data_string with
  | [] => Raise ValueError            (* does not match format *)
  | ((y, m, d, H, M, sec), rest) :: _ =>
      match rest with
      | EmptyString => make_datetime y m d H M sec
      | String _ _ => Raise ValueError  (* unconverted data remains *)
      end
  end.

(** *** [dto.strftime('%Y-%m-%dT%H:%M:%SZ')]

    CPython hands the format to the [strftime] of the C library. %m, %d,
    %H, %M and %S are zero-padded to two digits. %Y is the year as a
    decimal number, which the C library of Linux writes without padding:
    the year 999 is written 999 and the year 1 is written 1, so that a
    year below 1000 has fewer than the four digits [strptime] asks for.
    [pad4] is the year in four digits, as [strptime] reads it and as
    [str] of a [datetime] writes it. *)

Definition char_of_digit (d : Z) : ascii :=
  ascii_of_nat (48 + Z.to_nat d).

Definition pad2 (n : Z) : string :=
  String (char_of_digit (n / 10 mod 10))
    (String (char_of_digit (n mod 10)) EmptyString).

Definition pad4 (n : Z) : string :=
  pad2 (n / 100) +:+ pad2 (n mod 100).

Definition strftime (d : datetime) : string :=
  pretty (year d) +:+ "-" +:+ pad2 (month d) +:+ "-" +:+ pad2 (day d) +:+ "T"
    +:+ pad2 (hour d) +:+ ":" +:+ pad2 (minute d) +:+ ":"
    +:+ pad2 (second d) +:+ "Z".

(** *** The two functions of the scripts; [None] is Python's [None] *)

Definition z_to_dt (z : option string) : result (option datetime) :=
  match z with
  | None => Ok None
  | Some s => dt ← strptime s; Ok (Some dt)
  end.

Definition dt_to_z (dto : option datetime) : option string :=
  match dto with
  | None => None
  | Some d => Some (strftime d)
  end.

(** *** The fixed shape YYYY-MM-DDTHH:MM:SSZ, read position by position *)

Definition number (cs : list ascii) : option Z :=
  foldl (λ acc c, n ← acc; d ← digit_of c; Some (10 * n + d)) (Some 0) cs.

Definition fixed_shape (s : string) : option datetime :=
  match list_ascii_of_string s with
  | [y1; y2; y3; y4; c1; m1; m2; c2; d1; d2; c3;
     H1; H2; c4; M1; M2; c5; S1; S2; c6] =>
      if bool_decide ([c1; c2; c3; c4; c5; c6] = ["-"; "-"; "T"; ":"; ":"; "Z"]%char)
      then
        y ← number [y1; y2; y3; y4];
        m ← number [m1; m2];
        d ← number [d1; d2];
        H ← number [H1; H2];
        M ← number [M1; M2];
        sec ← number [S1; S2];
        if valid_fields y m d H M sec then Some (Datetime y m d H M sec)
        else None
      else None
  | _ => None
  end.

(** [s] is a valid YYYY-MM-DDTHH:MM:SSZ timestamp *)
Definition valid_timestamp (s : string) : Prop := is_Some (fixed_shape s).

End Codec.

(** ** Python dictionaries in insertion order *)

Module Dict.

Abbreviation dict K V := (list (K * V)).

Section Dict.
Context {K V : Type} `{EqDecision K}.

Fixpoint lookup (k : K) (d : dict K V) : option V :=
  match d with
  | [] => None
  | (k', v) :: d' => if decide (k = k') then Some v else lookup k d'
  end.

(** [d[k]] *)
Definition get (k : K) (d : dict K V) : result V :=
  match lookup k d with
  | Some v => Ok v
  | None => Raise KeyError
  end.

(** [for k in d], [d.keys()] *)
Definition keys (d : dict K V) : list K := d.*1.

(** [k in d] *)
Definition mem (k : K) (d : dict K V) : bool := bool_decide (k ∈ keys d).

(** [d[k] = v]: a key that is present keeps its place. *)
Fixpoint set (k : K) (v : V) (d : dict K V) : dict K V :=
  match d with
  | [] => [(k, v)]
  | (k', v') :: d' =>
      if decide (k = k') then (k, v) :: d' else (k', v') :: set k v d'
  end.

(** [{ key(x): x for x in l }] *)
Definition of_list (key : V → K) (l : list V) : dict K V :=
  foldl (λ d x, set (key x) x d) [] l.
End Dict.

End Dict.

(** ** The records of the Canvas API the scripts read *)

Module Canvas.

(** A JSON scalar as [response.json()] hands it over: Python tells an
    [int] from a [float]. *)
Inductive json_value : Type :=
  | JNull
  | JBool (b : bool)
  | JInt (n : Z)
  | JFloat (x : float)
  | JString (s : string).

Record assignment : Type := Assignment
  { id : Z;
    assignment_group_id : Z;
    due_at : option string }.

Record enrollment : Type := Enrollment
  { enrollment_user_id : Z;
    sortable_name : string;
    sis_user_id : string }.

Record submission : Type := Submission
  { user_id : Z;
    score : json_value;
    excused : option bool;   (* true, false or null *)
    submitted_at : option string }.

(** [str(n)] on an [int] *)
Definition str (n : Z) : string := pretty n.

(** [type(v) == float] *)
Definition is_float (v : json_value) : bool :=
  match v with JFloat _ => true | _ => false end.

(** [v > 0]: Python orders an [int], a [bool] and a [float] with the
    number 0 and refuses [None] and a [str]. *)
Definition positive (v : json_value) : result bool :=
  match v with
  | JFloat x => Ok (PrimFloat.ltb 0%float x)
  | JInt n => Ok (0 <? n)
  | JBool b => Ok b
  | JNull | JString _ => Raise TypeError
  end.

(** The three dictionaries the aggregation reads. *)
Record snapshot : Type := Snapshot
  { assignments : Dict.dict Z assignment;
    students : Dict.dict string enrollment;
    all_submissions : Dict.dict Z (list submission) }.

(** [{ assignment['id']: assignment for assignment in assignments }] *)
Definition assignments_dict (l : list assignment) : Dict.dict Z assignment :=
  Dict.of_list id l.

(** [{ str(student['user_id']): student for student in students }] *)
Definition students_dict (l : list enrollment) : Dict.dict string enrollment :=
  Dict.of_list (λ e, str (enrollment_user_id e)) l.

(** The loop that fills [all_submissions]: one [get_list] per assignment
    id, here [fetch]. *)
Definition fetch_all_submissions (fetch : Z → result (list submission))
    (assignments : Dict.dict Z assignment)
  : result (Dict.dict Z (list submission)) :=
  for_each (λ all_submissions assignment_id,
              submissions ← fetch assignment_id;
              Ok (Dict.set assignment_id submissions all_submissions))
           (Dict.keys assignments) [].

End Canvas.

(** ** Chronological aggregation *)

Module Aggregator.
Import Codec Canvas.

(** [a > b] where [b] may be [None]: Python 3 refuses to order a
    datetime and [None]. *)
Definition gt_value (a : datetime) (b : option datetime) : result bool :=
  match b with
  | Some b => Ok (dt_gt a b)
  | None => Raise TypeError
  end.

(** [m[k]] on a dictionary that is only looked up and assigned *)
Definition getitem {V} (k : string) (m : gmap string V) : result V :=
  match m !! k with
  | Some v => Ok v
  | None => Raise KeyError
  end.

Section Walks.
Variable snap : snapshot.

(** [z_to_dt(assignments[assignment_id]['due_at'])] *)
Definition due_date (assignment_id : Z) : result (option datetime) :=
  a ← Dict.get assignment_id (assignments snap);
  z_to_dt (due_at a).

(** [[ z_to_dt(assignments[a]['due_at']) for a in assignments ]] *)
Definition all_due_dates : result (list (option datetime)) :=
  for_each (λ acc a, d ← due_date a; Ok (acc ++ [d]))
           (Dict.keys (assignments snap)) [].

(** [list(set(...))] followed by [sort()]: the distinct dates in
    ascending order, whatever order the set gave them in; then the
    bucket of the undated assignments, [None], is appended. *)
Definition sorted_due_dates (due_dates : list (option datetime))
  : list (option datetime) :=
  (Some <$> merge_sort dt_le (remove_dups (omap (λ d, d) due_dates)))
    ++ [None].

(** [[ a for a in assignments if z_to_dt(...) == date ]] *)
Definition bucket (date : option datetime) : result (list Z) :=
  for_each (λ acc a,
              d ← due_date a;
              Ok (if decide (d = date) then acc ++ [a] else acc))
           (Dict.keys (assignments snap)) [].

Definition assignment_ids_by_due_date : result (list Z) :=
  due_dates ← all_due_dates;
  for_each (λ acc date, b ← bucket date; Ok (acc ++ b))
           (sorted_due_dates due_dates) [].

(** [first_due_date] and the seeded [last_non_zero_score] *)
Definition first_due_date (ordering : list Z) : result (option datetime) :=
  match ordering with
  | [] => Raise IndexError
  | first :: _ => due_date first
  end.

Definition seed {V} (v : V) : gmap string V :=
  list_to_map ((λ student_id, (student_id, v)) <$> Dict.keys (students snap)).

(** One turn of the inner loop of the nonzero-score walk.
    [guarded] is [true] for last_participation.py, which has
    [if student_id not in students: continue], and [false] for
    last_nonzero_score.py, which has not. *)
Definition nonzero_step (guarded : bool) (assignment_id : Z)
    (last_non_zero_score : gmap string (option datetime))
    (sub : submission) : result (gmap string (option datetime)) :=
  if negb (is_float (score sub)) then Ok last_non_zero_score
  else
    assignment_date ← due_date assignment_id;
    match assignment_date with
    | None => Ok last_non_zero_score
    | Some date =>
        let student_id := str (user_id sub) in
        if guarded && negb (Dict.mem student_id (students snap))
        then Ok last_non_zero_score
        else
          above ← positive (score sub);
          if above : bool then
            current ← getitem student_id last_non_zero_score;
            later ← gt_value date current;
            Ok (if later : bool
                then <[student_id := Some date]> last_non_zero_score
                else last_non_zero_score)
          else Ok last_non_zero_score
    end.

Definition nonzero_walk (guarded : bool) (ordering : list Z)
    (last_non_zero_score : gmap string (option datetime))
  : result (gmap string (option datetime)) :=
  for_each (λ acc assignment_id,
              submissions ← Dict.get assignment_id (all_submissions snap);
              for_each (nonzero_step guarded assignment_id) submissions acc)
           ordering last_non_zero_score.

(** The section "Determine last nonzero score" of either script. *)
Definition last_non_zero_score (guarded : bool)
  : result (gmap string (option datetime)) :=
  ordering ← assignment_ids_by_due_date;
  first ← first_due_date ordering;
  nonzero_walk guarded ordering (seed first).

(** One turn of the inner loop of the last-submission walk
    (last_participation.py only). *)
Definition submission_step
    (last_submission : gmap string (option datetime))
    (sub : submission) : result (gmap string (option datetime)) :=
  let student_id := str (user_id sub) in
  submitted ← z_to_dt (submitted_at sub);
  match submitted with
  | None => Ok last_submission
  | Some t =>
      if negb (Dict.mem student_id (students snap)) then Ok last_submission
      else
        current ← getitem student_id last_submission;
        match current with
        | None => Ok (<[student_id := Some t]> last_submission)
        | Some c =>
            Ok (if dt_gt t c
                then <[student_id := Some t]> last_submission
                else last_submission)
        end
  end.

Definition submission_walk (ids : list Z)
    (last_submission : gmap string (option datetime))
  : result (gmap string (option datetime)) :=
  for_each (λ acc submission_id,
              submissions ← Dict.get submission_id (all_submissions snap);
              for_each submission_step submissions acc)
           ids last_submission.

(** *** The gradebook of last_nonzero_score.py

    A cell holds 'NADA', a float score, 'EX' or the empty string. *)
Inductive cell : Type :=
  | NADA
  | Graded (x : float)
  | EX
  | Blank.

Definition gradebook_step (assignment : Z)
    (gradebook : gmap (string * Z) cell) (sub : submission)
  : gmap (string * Z) cell :=
  let student := str (user_id sub) in
  if Dict.mem student (students snap) then
    match score sub with
    | JFloat x => <[(student, assignment) := Graded x]> gradebook
    | _ =>
        if decide (excused sub = Some true)
        then <[(student, assignment) := EX]> gradebook
        else <[(student, assignment) := Blank]> gradebook
    end
  else gradebook.

(** The section "Create Gradebook". *)
Definition gradebook : result (gmap (string * Z) cell) :=
  for_each (λ gradebook assignment,
              submissions ← Dict.get assignment (all_submissions snap);
              Ok (foldl (gradebook_step assignment) gradebook submissions))
           (Dict.keys (assignments snap))
           (list_to_map
              (student ← Dict.keys (students snap);
               assignment ← Dict.keys (assignments snap);
               [((student, assignment), NADA)])).

(** The section "Determine last submission". *)
Definition last_submission : result (gmap string (option datetime)) :=
  submission_walk (Dict.keys (all_submissions snap)) (seed None).

End Walks.

(** last_participation.py from "Sorting Assignments" to the export: the
    two mappings the rows are written from. *)
Definition last_participation (snap : snapshot)
  : result (gmap string (option datetime) * gmap string (option datetime)) :=
  nonzero ← last_non_zero_score snap true;
  submitted ← last_submission snap;
  Ok (nonzero, submitted).

(** last_nonzero_score.py from "Create Gradebook" to the export; the
    gradebook is filled and not read again. *)
Definition last_nonzero_score (snap : snapshot)
  : result (gmap string (option datetime)) :=
  _ ← gradebook snap;
  last_non_zero_score snap false.

End Aggregator.


(** * Vocabulary of the properties *)

Module FetcherSpec.
Import Fetcher.

Section Chain.
Context {World A : Type}.
Variable session_get : string → World → result (response A) * World.

(** [page_chain url w pages w']: starting at [url] in world [w], the
    collaborator serves the pages [pages] (the URL of each and its
    records) and leaves the world [w']; each page but the last has a
    [current] link different from its [last] link and a [next] link
    that is the URL of the page after it; on the last page, and only
    there, [current] equals [last]. *)
Inductive page_chain : string → World → list (string * list A) → World → Prop :=
  | chain_last url w w' link records :
      session_get url w = (Ok (Response (Some link) (Ok records)), w') →
      current_link (get_navigation (PyStr.split "," link))
        = last_link (get_navigation (PyStr.split "," link)) →
      page_chain url w [(url, records)] w'
  | chain_next url w w' w'' link records pages :
      session_get url w = (Ok (Response (Some link) (Ok records)), w') →
      current_link (get_navigation (PyStr.split "," link))
        ≠ last_link (get_navigation (PyStr.split "," link)) →
      page_chain (next_link (get_navigation (PyStr.split "," link)))
        w' pages w'' →
      page_chain url w ((url, records) :: pages) w''.
End Chain.

(** A link header has no entry with rel="current" and none with
    rel="last". *)
Definition no_current_no_last (link : string) : Prop :=
  ∀ link_info, link_info ∈ PyStr.split "," link →
    PyStr.contains rel_current link_info = false ∧
    PyStr.contains rel_last link_info = false.

End FetcherSpec.

(** ** A course served in three pages, and servers with a broken link header *)

Module FetcherExamples.
Import Fetcher.

Definition page_url (n : Z) : string :=
  "https://canvas.test/api/v1/courses/7/assignments?page=" +:+ pretty n
    +:+ "&per_page=2".

Definition entry (n : Z) (rel : string) : string :=
  "<" +:+ page_url n +:+ ">; rel=" +:+ PyStr.dq +:+ rel +:+ PyStr.dq.

Definition link_of_page (n : Z) : string :=
  if decide (n < 3)
  then entry n "current" +:+ "," +:+ entry (n + 1) "next" +:+ ","
         +:+ entry 1 "first" +:+ "," +:+ entry 3 "last"
  else entry n "current" +:+ "," +:+ entry 1 "first" +:+ ","
         +:+ entry 3 "last".

(** The world counts the requests served. *)
Definition three_pages (url : string) (served : nat)
  : result (response Z) * nat :=
  (if decide (url = page_url 1)
   then Ok (Response (Some (link_of_page 1)) (Ok [101; 102]))
   else if decide (url = page_url 2)
   then Ok (Response (Some (link_of_page 2)) (Ok [103; 104]))
   else if decide (url = page_url 3)
   then Ok (Response (Some (link_of_page 3)) (Ok [105]))
   else Raise HTTPError,
   S served).

(** One page whose three links coincide. *)
Definition single_link : string :=
  entry 1 "current" +:+ "," +:+ entry 1 "next" +:+ "," +:+ entry 1 "last".

Definition single_page (url : string) (served : nat)
  : result (response Z) * nat :=
  (if decide (url = page_url 1)
   then Ok (Response (Some single_link) (Ok [101; 102]))
   else Raise HTTPError,
   S served).

(** A first page of several whose link header names only the next page. *)
Definition only_next : string := entry 2 "next".

Definition truncated (url : string) (served : nat)
  : result (response Z) * nat :=
  (Ok (Response (Some only_next) (Ok [101; 102])), S served).

(** A response without a link header. *)
Definition no_header (url : string) (served : nat)
  : result (response Z) * nat :=
  (Ok (Response None (Ok [101; 102])), S served).

End FetcherExamples.

Module CodecSpec.

Import Codec.

(** Two characters in front of a string. *)
Definition two_chars (c1 c2 : ascii) (rest : string) : string :=
  String c1 (String c2 rest).

(** The instant is one the [datetime] constructor accepts. *)
Definition valid_datetime (dt : datetime) : Prop :=
  valid_fields (year dt) (month dt) (day dt)
    (hour dt) (minute dt) (second dt) = true.

(** *** Every text that [strptime] reads as a given instant

    The year has its four digits; the other fields have two digits or,
    below ten, the one digit alone; the day below ten may also be a
    space and the digit; T and Z may be in lower case. *)

Definition unpadded (n : Z) : string :=
  String (char_of_digit n) EmptyString.

Definition texts (n : Z) : list string :=
  pad2 n :: (if n <? 10 then [unpadded n] else []).

Definition texts_of_day (n : Z) : list string :=
  texts n ++ (if n <? 10 then [String " " (unpadded n)] else []).

Definition renderings (dt : datetime) : list string :=
  m ← texts (month dt);
  d ← texts_of_day (day dt);
  t ← ["T"; "t"]%char;
  H ← texts (hour dt);
  M ← texts (minute dt);
  sec ← texts (second dt);
  z ← ["Z"; "z"]%char;
  [pad4 (year dt) +:+ String "-" (m +:+ String "-" (d +:+ String t
     (H +:+ String ":" (M +:+ String ":" (sec
        +:+ String z EmptyString)))))].

End CodecSpec.

Module AggregatorSpec.
Import Codec Canvas Aggregator.

(** The score is a [float], and strictly above zero. *)
Definition float_above_zero (v : json_value) : bool :=
  match v with
  | JFloat x => PrimFloat.ltb 0%float x
  | _ => false
  end.

Section Spec.
Variable snap : snapshot.

(** Every [due_at] of the course is null or a timestamp that
    [z_to_dt] accepts. *)
Definition due_dates_parse : Prop :=
  ∀ a, a ∈ Dict.keys (assignments snap) → ∃ d, due_date snap a = Ok d.

(** [all_submissions] has an entry for every assignment, as the loop
    that fills it leaves it. *)
Definition submissions_fetched : Prop :=
  ∀ a, a ∈ Dict.keys (assignments snap) →
    ∃ subs, Dict.get a (all_submissions snap) = Ok subs.

(** Every [submitted_at] is null or a timestamp that [z_to_dt] accepts. *)
Definition submitted_parse : Prop :=
  ∀ a subs sub,
    Dict.get a (all_submissions snap) = Ok subs → sub ∈ subs →
    ∃ t, z_to_dt (submitted_at sub) = Ok t.

(** Assignment [a] has the due date [date]. *)
Definition due_on (a : Z) (date : datetime) : Prop :=
  due_date snap a = Ok (Some date).

(** [sub] is a submission of the student [s] to assignment [a]. *)
Definition submission_of (s : string) (a : Z) (sub : submission) : Prop :=
  ∃ subs, Dict.get a (all_submissions snap) = Ok subs
          ∧ sub ∈ subs ∧ str (user_id sub) = s.

(** The student [s] has a submission with a float score strictly above
    zero on an assignment due on [date]. *)
Definition scored_on (s : string) (date : datetime) : Prop :=
  ∃ a sub, submission_of s a sub ∧ float_above_zero (score sub) = true
           ∧ due_on a date.

(** The student [s] has a submission with a score of any numeric type
    strictly above zero on an assignment due on [date]. *)
Definition numeric_scored_on (s : string) (date : datetime) : Prop :=
  ∃ a sub, submission_of s a sub ∧ positive (score sub) = Ok true
           ∧ due_on a date.

(** The student [s] has a submission, to any assignment, submitted
    at [t]. *)
Definition submitted_on (s : string) (t : datetime) : Prop :=
  ∃ a sub, submission_of s a sub
           ∧ z_to_dt (submitted_at sub) = Ok (Some t).

(** [d] is the earliest due date of the course. *)
Definition earliest_due_date (d : datetime) : Prop :=
  (∃ a, due_on a d) ∧ ∀ a d', due_on a d' → dt_le d d'.

(** The due date of an assignment, [None] also when it has none that
    can be read. *)
Definition due_or_none (a : Z) : option datetime :=
  match due_date snap a with
  | Ok d => d
  | Raise _ => None
  end.

(** The ordering [assignment_ids_by_due_date] as an expression: for
    each date of the sorted list, the assignments due on it, in the
    order of the dictionary. *)
Definition chronological : list Z :=
  sorted_due_dates (due_or_none <$> Dict.keys (assignments snap))
    ≫= λ date, filter (λ a, due_or_none a = date)
                      (Dict.keys (assignments snap)).
End Spec.

(** The course without the submissions of the students who are not
    enrolled. *)
Definition enrolled (snap : snapshot) (sub : submission) : Prop :=
  Dict.mem (str (user_id sub)) (students snap) = true.

#[global] Instance enrolled_dec snap sub : Decision (enrolled snap sub).
Proof. unfold enrolled. apply _. Defined.

Definition without_unenrolled (snap : snapshot) : snapshot :=
  Snapshot (assignments snap) (students snap)
    ((λ entry : Z * list submission,
        (entry.1, filter (enrolled snap) entry.2))
       <$> all_submissions snap).

(** [d] is the greatest instant with [P]. *)
Definition greatest (P : datetime → Prop) (d : datetime) : Prop :=
  P d ∧ ∀ d', P d' → dt_le d' d.

(** How the value of one student moves over a stretch of a walk that
    saw the instants [T]: it stays or becomes one of them, it does not
    go back, and it ends at or after every one of them. *)
Definition tracked (T : datetime → Prop) (v v' : option datetime) : Prop :=
  (v' = v ∨ ∃ t, v' = Some t ∧ T t)
  ∧ (∀ t, v = Some t → ∃ t', v' = Some t' ∧ dt_le t t')
  ∧ (∀ t, T t → ∃ t', v' = Some t' ∧ dt_le t t').

Section States.
Variable snap : snapshot.

(** Every active student has a value in the mapping, and it is [ok]. *)
Definition all_students (ok : option datetime → Prop)
    (m : gmap string (option datetime)) : Prop :=
  ∀ s, s ∈ Dict.keys (students snap) → ∃ v, m !! s = Some v ∧ ok v.

(** No condition on a value. *)
Definition any_value (v : option datetime) : Prop := True.

(** From [m] to [m'] the value of every active student [s] moved as
    [tracked (T s)] says. *)
Definition moved (T : string → datetime → Prop)
    (m m' : gmap string (option datetime)) : Prop :=
  ∀ s, s ∈ Dict.keys (students snap) →
    ∃ v v', m !! s = Some v ∧ m' !! s = Some v' ∧ tracked (T s) v v'.
End States.

(** The order of the values of [last_non_zero_score] in a walk: a value
    is kept, or replaced by a strictly later due date. *)
Definition kept_or_later (v v' : option datetime) : Prop :=
  v' = v ∨ ∃ d d', v = Some d ∧ v' = Some d' ∧ dt_lt d d'.

(** Every key of [m] is a key of [m'], with a value kept or later. *)
Definition never_earlier (m m' : gmap string (option datetime)) : Prop :=
  ∀ s v, m !! s = Some v → ∃ v', m' !! s = Some v' ∧ kept_or_later v v'.

End AggregatorSpec.

(** ** Courses to run the walks on *)

Module AggregatorExamples.
Import Codec Canvas.

Definition jan_10 : datetime := Datetime 2024 1 10 0 0 0.
Definition feb_01 : datetime := Datetime 2024 2 1 0 0 0.
Definition mar_01 : datetime := Datetime 2024 3 1 12 0 0.

(** Assignment 10 is due on 10 January, 11 on 1 February, 12 has no due
    date. Student 1 is enrolled; student 2 has left the course, and the
    submissions endpoint still lists a graded submission of theirs. *)
Definition three_assignments : Dict.dict Z assignment :=
  assignments_dict
    [Assignment 10 1 (Some "2024-01-10T00:00:00Z");
     Assignment 11 1 (Some "2024-02-01T00:00:00Z");
     Assignment 12 1 None].

Definition one_student : Dict.dict string enrollment :=
  students_dict [Enrollment 1 "Lovelace, Ada" "S0001"].

Definition course : snapshot :=
  Snapshot three_assignments one_student
    [(10, [Submission 1 JNull (Some false) None;
           Submission 2 (JFloat 3) (Some false) (Some "2024-01-09T08:00:00Z")]);
     (11, [Submission 1 (JFloat 5) (Some false) (Some "2024-01-31T23:00:00Z")]);
     (12, [Submission 1 (JFloat 10) (Some false) (Some "2024-03-01T12:00:00Z")])].

(** The same course without the student who left. *)
Definition course_of_active_only : snapshot :=
  Snapshot three_assignments one_student
    [(10, [Submission 1 JNull (Some false) None]);
     (11, [Submission 1 (JFloat 5) (Some false) (Some "2024-01-31T23:00:00Z")]);
     (12, [Submission 1 (JFloat 10) (Some false) (Some "2024-03-01T12:00:00Z")])].

(** The score of student 1 on assignment 11 arrives as the integer 5. *)
Definition integer_score : submission :=
  Submission 1 (JInt 5) (Some false) (Some "2024-01-31T23:00:00Z").

Definition course_with_integer_score : snapshot :=
  Snapshot three_assignments one_student
    [(10, [Submission 1 JNull (Some false) None]);
     (11, [integer_score]);
     (12, [])].

(** A course whose only assignment has no due date. *)
Definition undated_course : snapshot :=
  Snapshot (assignments_dict [Assignment 12 1 None]) one_student
    [(12, [Submission 1 (JFloat 10) (Some false) (Some "2024-03-01T12:00:00Z")])].

(** A course without assignments. *)
Definition empty_course : snapshot := Snapshot [] one_student [].

End AggregatorExamples.

(** * More of the scripts, and the vocabulary of their properties *)

Module FetcherRuns.
Import Fetcher.

Section Runs.
Context {World A : Type}.
Variable session_get : string → World → result (response A) * World.

(** [page_run url w pages url' w']: from [url] in world [w] the
    collaborator serves the pages [pages], on each of which [current]
    differs from [last], and the loop of [get_list] then turns to [url']
    in world [w']. *)
Inductive page_run : string → World → list (string * list A)
                     → string → World → Prop :=
  | run_done url w : page_run url w [] url w
  | run_page url w w' url' w'' link records pages :
      session_get url w = (Ok (Response (Some link) (Ok records)), w') →
      current_link (get_navigation (PyStr.split "," link))
        ≠ last_link (get_navigation (PyStr.split "," link)) →
      page_run (next_link (get_navigation (PyStr.split "," link)))
        w' pages url' w'' →
      page_run url w ((url, records) :: pages) url' w''.

(** The turn of the loop at [url] in [w] raises [e]: the request itself,
    the lookup of the link header, or the decoding of the body. *)
Definition turn_raises (url : string) (w : World) (e : exn) (w' : World)
  : Prop :=
  session_get url w = (Raise e, w')
  ∨ (∃ body, session_get url w = (Ok (Response None body), w')
             ∧ e = KeyError)
  ∨ (∃ link, session_get url w = (Ok (Response (Some link) (Raise e)), w')).
End Runs.

(** The target of the last entry of a link header that has [rel], the
    empty string when there is none. *)
Definition last_target (rel : string) (link_list : list string) : string :=
  match last (filter (λ link_info, PyStr.contains rel link_info = true)
                     link_list) with
  | Some link_info => link_target link_info
  | None => EmptyString
  end.

End FetcherRuns.

Module FetcherRunExamples.
Import Fetcher FetcherExamples.

(** A server whose every answer is a page that is not the last and names
    itself as the next. *)
Definition looping_link : string :=
  entry 1 "current" +:+ "," +:+ entry 1 "next" +:+ "," +:+ entry 3 "last".

Definition looping (url : string) (served : nat)
  : result (response Z) * nat :=
  (Ok (Response (Some looping_link) (Ok [101; 102])), S served).

(** A page that is not the last and names no next page. *)
Definition no_next_link : string :=
  entry 1 "current" +:+ "," +:+ entry 3 "last".

Definition no_next (url : string) (served : nat)
  : result (response Z) * nat :=
  (if decide (url = page_url 1)
   then Ok (Response (Some no_next_link) (Ok [101; 102]))
   else Raise HTTPError,
   S served).

(** The three pages, the third of which the server fails to deliver. *)
Definition failing_third (url : string) (served : nat)
  : result (response Z) * nat :=
  if decide (url = page_url 3) then (Raise HTTPError, S served)
  else three_pages url served.

End FetcherRunExamples.

(** ** The scripts from the first request to the three dictionaries *)

Module Loader.
Import Canvas.

Record assignment_group : Type := AssignmentGroup
  { group_id : Z;
    group_name : string }.

(** [{ assignment_group['id']: assignment_group for ... }] *)
Definition assignment_groups_dict (l : list assignment_group)
  : Dict.dict Z assignment_group :=
  Dict.of_list group_id l.

(** [{ assignment_group_id: [] for assignment_group_id in assignment_groups }] *)
Definition no_assignments (assignment_groups : Dict.dict Z assignment_group)
  : Dict.dict Z (list Z) :=
  foldl (λ d assignment_group_id, Dict.set assignment_group_id [] d) []
        (Dict.keys assignment_groups).

(** The loop over the assignments that appends each id to the list of
    its group. *)
Definition group_step (assignments : Dict.dict Z assignment)
    (assignments_by_group_id : Dict.dict Z (list Z)) (assignment_id : Z)
  : result (Dict.dict Z (list Z)) :=
  a ← Dict.get assignment_id assignments;
  members ← Dict.get (assignment_group_id a) assignments_by_group_id;
  Ok (Dict.set (assignment_group_id a) (members ++ [assignment_id])
        assignments_by_group_id).

Definition assignments_by_group_id
    (assignment_groups : Dict.dict Z assignment_group)
    (assignments : Dict.dict Z assignment) : result (Dict.dict Z (list Z)) :=
  for_each (group_step assignments) (Dict.keys assignments)
           (no_assignments assignment_groups).

(** What [get_list] gives on each of the URLs of the scripts: the
    assignment groups, the assignments, the active student enrollments,
    and the submissions of an assignment. *)
Record listings : Type := Listings
  { assignment_groups_listing : result (list assignment_group);
    assignments_listing : result (list assignment);
    enrollments_listing : result (list enrollment);
    submissions_listing : Z → result (list submission) }.

(** Either script from "Get assignment groups" to "Get submissions by
    assignment". *)
Definition load (api : listings) : result snapshot :=
  assignment_groups ← assignment_groups_listing api;
  assignments ← assignments_listing api;
  let assignments := assignments_dict assignments in
  _ ← assignments_by_group_id (assignment_groups_dict assignment_groups)
        assignments;
  students ← enrollments_listing api;
  all_submissions ← fetch_all_submissions (submissions_listing api)
                      assignments;
  Ok (Snapshot assignments (students_dict students) all_submissions).

(** The group an assignment of the dictionary names. *)
Definition group_of (assignments : Dict.dict Z assignment) (assignment_id : Z)
  : option Z :=
  assignment_group_id <$> Dict.lookup assignment_id assignments.

(** The lists of the groups after the loop has seen the ids [seen]. *)
Definition grouped (assignment_groups : Dict.dict Z assignment_group)
    (assignments : Dict.dict Z assignment) (seen : list Z)
    (assignments_by_group_id : Dict.dict Z (list Z)) : Prop :=
  ∀ g, Dict.lookup g assignments_by_group_id
       = if decide (g ∈ Dict.keys assignment_groups)
         then Some (filter (λ a, group_of assignments a = Some g) seen)
         else None.

End Loader.

Module LoaderExamples.
Import Canvas Loader AggregatorExamples.

Definition one_group : list assignment_group :=
  [AssignmentGroup 1 "Homework"].

Definition submissions_of_course (assignment_id : Z)
  : result (list submission) :=
  Dict.get assignment_id (all_submissions course).

Definition api_of_course : listings :=
  Listings (Ok one_group)
    (Ok [Assignment 10 1 (Some "2024-01-10T00:00:00Z");
         Assignment 11 1 (Some "2024-02-01T00:00:00Z");
         Assignment 12 1 None])
    (Ok [Enrollment 1 "Lovelace, Ada" "S0001"])
    submissions_of_course.

(** Assignment 13 names the group 2, which the listing of the groups
    has not. *)
Definition stray_group : Dict.dict Z assignment :=
  assignments_dict
    [Assignment 10 1 (Some "2024-01-10T00:00:00Z");
     Assignment 13 2 None].

End LoaderExamples.

(** ** The order of the assignments *)

Module OrderingSpec.
Import Codec Canvas Aggregator AggregatorSpec.

(** The order of the buckets: a date comes before the dates after it,
    and every date before [None], the bucket of the undated. *)
Definition date_le (d d' : option datetime) : Prop :=
  match d, d' with
  | Some x, Some y => dt_le x y
  | _, None => True
  | None, Some _ => False
  end.

Definition due_before (snap : snapshot) (a b : Z) : Prop :=
  date_le (due_or_none snap a) (due_or_none snap b).

End OrderingSpec.

Module OrderingExamples.
Import Codec Canvas AggregatorExamples.

(** The due date of assignment 11 has no time of day. *)
Definition course_with_unreadable_due_date : snapshot :=
  Snapshot
    (assignments_dict
       [Assignment 10 1 (Some "2024-01-10T00:00:00Z");
        Assignment 11 1 (Some "2024-02-01")])
    one_student
    [(10, []); (11, [])].

End OrderingExamples.

(** ** The walks *)

Module WalkSpec.
Import Codec Canvas Aggregator AggregatorSpec.

(** The ids of the students of the course. *)
Definition student_ids (snap : snapshot) : gset string :=
  list_to_set (Dict.keys (students snap)).

(** Somebody who is not a student of the course has a float score above
    zero on an assignment with a due date. *)
Definition stray_score (snap : snapshot) : Prop :=
  ∃ s d, (s ∉ Dict.keys (students snap)) ∧ scored_on snap s d.

(** The mapping has the students of the course as its keys, and a date
    for each. *)
Definition dated_students (snap : snapshot)
    (m : gmap string (option datetime)) : Prop :=
  dom m = student_ids snap ∧ ∀ s v, m !! s = Some v → is_Some v.

End WalkSpec.

(** ** The gradebook *)

Module GradebookSpec.
Import Canvas Aggregator.

(** The cell a submission leaves in the gradebook. *)
Definition cell_of (sub : submission) : cell :=
  match score sub with
  | JFloat x => Graded x
  | _ => if decide (excused sub = Some true) then EX else Blank
  end.

(** The submissions listed for an assignment. *)
Definition listed (snap : snapshot) (a : Z) : list submission :=
  default [] (Dict.lookup a (all_submissions snap)).

(** The cell of a student and an assignment, read off the listing: that
    of the last submission of the student to the assignment, 'NADA' when
    there is none. *)
Definition cell_for (snap : snapshot) (s : string) (a : Z) : cell :=
  match last (filter (λ sub, str (user_id sub) = s) (listed snap a)) with
  | Some sub => cell_of sub
  | None => NADA
  end.

End GradebookSpec.

(** ** The report, and the scripts from end to end *)

Module Report.
Import Codec Canvas Aggregator Loader.

(** The line feed, code point 10. *)
Definition newline : string := String (ascii_of_nat 10) EmptyString.

(** [str(d)] on a [datetime] without microseconds, which is how
    [format] prints it: the date, a space, the time. *)
Definition str_datetime (d : datetime) : string :=
  pad4 (year d) +:+ "-" +:+ pad2 (month d) +:+ "-" +:+ pad2 (day d) +:+ " "
    +:+ pad2 (hour d) +:+ ":" +:+ pad2 (minute d) +:+ ":"
    +:+ pad2 (second d).

(** How [format] prints a value of either mapping. *)
Definition format_value (v : option datetime) : string :=
  match v with
  | Some d => str_datetime d
  | None => "None"
  end.

(** ['"{}",{},{},{}\n'.format(...)] of last_participation.py; the
    [sis_user_id] of the model is the text [format] prints for it. *)
Definition participation_row (student : enrollment)
    (nonzero submitted : option datetime) : string :=
  PyStr.dq +:+ sortable_name student +:+ PyStr.dq +:+ ","
    +:+ sis_user_id student +:+ "," +:+ format_value nonzero +:+ ","
    +:+ format_value submitted +:+ newline.

Definition participation_header : string :=
  "Student,ID,Last Nonzero Assignment Due Date,Last Submission" +:+ newline.

(** ['"{}",{},{}\n'.format(...)] of last_nonzero_score.py *)
Definition nonzero_row (student : enrollment) (nonzero : option datetime)
  : string :=
  PyStr.dq +:+ sortable_name student +:+ PyStr.dq +:+ ","
    +:+ sis_user_id student +:+ "," +:+ format_value nonzero +:+ newline.

(** The section "Export File" of last_participation.py: what is written
    to the file, one [write] after the other. *)
Definition export_last_participation (snap : snapshot)
    (last_non_zero_score last_submission : gmap string (option datetime))
  : result (list string) :=
  for_each (λ written student_id,
              student ← Dict.get student_id (students snap);
              nonzero ← getitem student_id last_non_zero_score;
              submitted ← getitem student_id last_submission;
              Ok (written ++ [participation_row student nonzero submitted]))
           (Dict.keys (students snap)) [participation_header].

(** The section "Export File" of last_nonzero_score.py, which writes no
    header. *)
Definition export_last_nonzero (snap : snapshot)
    (last_non_zero_score : gmap string (option datetime))
  : result (list string) :=
  for_each (λ written student,
              record ← Dict.get student (students snap);
              nonzero ← getitem student last_non_zero_score;
              Ok (written ++ [nonzero_row record nonzero]))
           (Dict.keys (students snap)) [].

(** last_participation.py, from the listings to what it writes. *)
Definition last_participation_py (api : listings) : result (list string) :=
  snap ← load api;
  mappings ← last_participation snap;
  export_last_participation snap mappings.1 mappings.2.

(** last_nonzero_score.py, from the listings to what it writes. *)
Definition last_nonzero_score_py (api : listings) : result (list string) :=
  snap ← load api;
  last_non_zero_score ← last_nonzero_score snap;
  export_last_nonzero snap last_non_zero_score.

(** The row of last_participation.py for the student [s]. *)
Definition participation_row_of (snap : snapshot)
    (nonzero submitted : gmap string (option datetime))
    (s : string) (row : string) : Prop :=
  ∃ student v1 v2,
    Dict.lookup s (students snap) = Some student
    ∧ nonzero !! s = Some v1 ∧ submitted !! s = Some v2
    ∧ row = participation_row student v1 v2.

(** The row of last_nonzero_score.py for the student [s]. *)
Definition nonzero_row_of (snap : snapshot)
    (nonzero : gmap string (option datetime))
    (s : string) (row : string) : Prop :=
  ∃ student v,
    Dict.lookup s (students snap) = Some student
    ∧ nonzero !! s = Some v
    ∧ row = nonzero_row student v.

End Report.

Module ReportExamples.
Import Canvas Loader LoaderExamples AggregatorExamples.

(** The listings of the course without the student who left. *)
Definition submissions_of_active_only (assignment_id : Z)
  : result (list submission) :=
  Dict.get assignment_id (all_submissions course_of_active_only).

Definition api_of_active_only : listings :=
  Listings (assignment_groups_listing api_of_course)
    (assignments_listing api_of_course)
    (enrollments_listing api_of_course)
    submissions_of_active_only.

End ReportExamples.

(** * The paginated fetcher *)

Module FetcherFacts.
Import Fetcher FetcherSpec FetcherExamples.

Lemma split_nonempty sep s : PyStr.split sep s ≠ [].
Proof.
  destruct s as [|c s]; simpl; [done|].
  destruct (decide (c = sep)); [done|].
  by destruct (PyStr.split sep s).
Qed.

Section Loop.
Context {World A : Type}.
Variable session_get : string → World → result (response A) * World.

Lemma get_list_loop_chain url w pages w' :
  page_chain session_get url w pages w' →
  ∀ fuel this_list log,
    (length pages ≤ fuel)%nat →
    get_list_loop session_get fuel url this_list w log
    = Run w' (log ++ pages.*1) (Some (Ok (this_list ++ concat pages.*2))).
Proof.
  induction 1 as [url w w' link records Hget Hnav
                 |url w w' w'' link records pages Hget Hnav _ IH];
    intros [|fuel] this_list log Hfuel; simpl in Hfuel; try lia.
  - simpl. rewrite Hget. simpl.
    rewrite decide_True by done. by rewrite app_nil_r.
  - simpl. rewrite Hget. simpl.
    rewrite decide_False by done.
    rewrite IH by lia. simpl.
    by rewrite <-!(assoc_L (++)).
Qed.

Lemma get_navigation_neither link_list nav :
  current_link nav = EmptyString →
  last_link nav = EmptyString →
  (∀ link_info, link_info ∈ link_list →
     PyStr.contains rel_current link_info = false ∧
     PyStr.contains rel_last link_info = false) →
  current_link (fold_left navigation_step link_list nav) = EmptyString ∧
  last_link (fold_left navigation_step link_list nav) = EmptyString.
Proof.
  revert nav. induction link_list as [|link_info link_list IH];
    intros nav Hc Hl Hno; simpl; [done|].
  destruct (Hno link_info) as [Hcur Hlast]; [left|].
  apply IH.
  - unfold navigation_step. rewrite Hcur, Hlast.
    by destruct (PyStr.contains rel_next link_info).
  - unfold navigation_step. rewrite Hcur, Hlast.
    by destruct (PyStr.contains rel_next link_info).
  - intros li Hli. apply Hno. by right.
Qed.
End Loop.

(** C6. When the collaborator serves a finite chain of pages P1, ..., Pn
    on which only the last page has its current link equal to its last
    link, [get_list] with enough fuel for n turns returns, its result is
    the concatenation of the pages' records in page order, and it issued
    exactly n requests: the URLs of the pages, one each, in order. *)
Theorem get_list_chain {World A : Type}
    (session_get : string → World → result (response A) * World)
    (first_url : string) (w w' : World) (pages : list (string * list A))
    (fuel : nat) :
  page_chain session_get first_url w pages w' →
  (length pages ≤ fuel)%nat →
  get_list session_get fuel first_url w
    = Run w' pages.*1 (Some (Ok (concat pages.*2)))
  ∧ length (requests (get_list session_get fuel first_url w)) = length pages.
Proof.
  intros Hchain Hfuel. unfold get_list.
  rewrite (get_list_loop_chain _ _ _ _ _ Hchain) by done.
  simpl. split; [done|]. by rewrite length_fmap.
Qed.

Lemma three_pages_chain :
  page_chain three_pages (page_url 1) 0%nat
    [(page_url 1, [101; 102]); (page_url 2, [103; 104]); (page_url 3, [105])]
    3%nat.
Proof.
  eapply chain_next; [reflexivity|by vm_compute|].
  eapply chain_next; [reflexivity|by vm_compute|].
  eapply chain_last; [reflexivity|by vm_compute].
Qed.

Lemma get_list_chain_witness :
  get_list three_pages 3 (page_url 1) 0%nat
    = Run 3%nat [page_url 1; page_url 2; page_url 3]
        (Some (Ok [101; 102; 103; 104; 105]))
  ∧ length (requests (get_list three_pages 3 (page_url 1) 0%nat)) = 3%nat.
Proof.
  exact (get_list_chain three_pages (page_url 1) 0%nat 3%nat _ 3
           three_pages_chain (le_n 3)).
Defined.

(** The degenerate chain: one page whose current, next and last links
    are the same URL is requested once. *)
Lemma get_list_single_page :
  get_list single_page 1 (page_url 1) 0%nat
    = Run 1%nat [page_url 1] (Some (Ok [101; 102])).
Proof. by vm_compute. Qed.

(** C2, as the code has it. A response without a link header makes
    [get_list] raise (the KeyError of [response.headers['link']]) on
    whatever turn of the loop it arrives. A response whose link header
    is there but has neither a rel="current" nor a rel="last" entry
    raises nothing: both links stay the empty string, they compare
    equal, and [get_list] returns what it has accumulated, this page's
    records included, as if this were the last page. *)
Theorem get_list_link_header {World A : Type}
    (session_get : string → World → result (response A) * World)
    (fuel : nat) (url : string) (this_list : list A) (w w' : World)
    (log : list string) (resp : response A) :
  session_get url w = (Ok resp, w') →
  (headers_link resp = None →
     get_list_loop session_get (S fuel) url this_list w log
     = Run w' (log ++ [url]) (Some (Raise KeyError)))
  ∧ (∀ link records,
       headers_link resp = Some link →
       json resp = Ok records →
       no_current_no_last link →
       get_list_loop session_get (S fuel) url this_list w log
       = Run w' (log ++ [url]) (Some (Ok (this_list ++ records)))).
Proof.
  intros Hget. split.
  - intros Hnone. simpl. by rewrite Hget, Hnone.
  - intros link records Hlink Hjson Hno. simpl.
    rewrite Hget, Hlink, Hjson.
    destruct (get_navigation_neither (PyStr.split "," link)
                (Navigation EmptyString EmptyString EmptyString))
      as [Hc Hl]; [done..|].
    unfold get_navigation. rewrite Hc, Hl. by rewrite decide_True.
Qed.

Lemma only_next_no_current_no_last : no_current_no_last only_next.
Proof.
  intros link_info Hin. vm_compute in Hin.
  apply list_elem_of_singleton in Hin as ->. by vm_compute.
Qed.

Lemma get_list_link_header_witness :
  get_list_loop no_header 1 (page_url 1) [] 0%nat []
    = Run 1%nat [page_url 1] (Some (Raise KeyError))
  ∧ get_list_loop truncated 1 (page_url 1) [] 0%nat []
    = Run 1%nat [page_url 1] (Some (Ok [101; 102])).
Proof.
  split.
  - exact (proj1 (get_list_link_header no_header 0 (page_url 1) [] 0%nat
                    1%nat [] _ eq_refl) eq_refl).
  - exact (proj2 (get_list_link_header truncated 0 (page_url 1) [] 0%nat
                    1%nat [] _ eq_refl) only_next [101; 102] eq_refl eq_refl
                 only_next_no_current_no_last).
Defined.

(** C2 fails as stated: the first page of a longer listing arrives with
    a link header that names only the next page; [get_list] raises
    nothing and returns the partial list. *)
Lemma get_list_partial_result :
  no_current_no_last only_next
  ∧ get_list truncated 5 (page_url 1) 0%nat
    = Run 1%nat [page_url 1] (Some (Ok [101; 102]))
  ∧ ¬ ∃ e, returned (get_list truncated 5 (page_url 1) 0%nat)
           = Some (Raise e).
Proof.
  split; [exact only_next_no_current_no_last|].
  split; [by vm_compute|].
  intros [e He]. vm_compute in He. discriminate He.
Qed.

End FetcherFacts.

(** * The timestamp codec *)

Module CodecFacts.
Import Codec CodecSpec.

#[local] Arguments number : simpl never.
#[local] Arguments valid_fields : simpl never.

(** ** Digits *)

Lemma digit_of_inv c d :
  digit_of c = Some d → 0 ≤ d ≤ 9 ∧ char_of_digit d = c.
Proof.
  destruct c as [[] [] [] [] [] [] [] []]; cbn; intros [= <-];
    by vm_compute.
Qed.

Lemma number2_inv c1 c2 v :
  number [c1; c2] = Some v →
  ∃ a b, digit_of c1 = Some a ∧ digit_of c2 = Some b ∧ v = 10 * a + b.
Proof.
  unfold number. cbn.
  destruct (digit_of c1) as [a|]; cbn; [|done].
  destruct (digit_of c2) as [b|]; cbn; [|done].
  intros [= <-]. by exists a, b.
Qed.

Lemma number4_inv c1 c2 c3 c4 v :
  number [c1; c2; c3; c4] = Some v →
  ∃ a b c d, digit_of c1 = Some a ∧ digit_of c2 = Some b ∧
             digit_of c3 = Some c ∧ digit_of c4 = Some d ∧
             v = 100 * (10 * a + b) + (10 * c + d).
Proof.
  unfold number. cbn.
  destruct (digit_of c1) as [a|]; cbn; [|done].
  destruct (digit_of c2) as [b|]; cbn; [|done].
  destruct (digit_of c3) as [c|]; cbn; [|done].
  destruct (digit_of c4) as [d|]; cbn; [|done].
  intros [= <-]. exists a, b, c, d. repeat split; lia.
Qed.

(** ** The first match of each directive on a two-digit field *)

Lemma head_bind {X Y} (l : list X) (k : X → list Y) x y :
  head l = Some x → head (k x) = Some y → head (l ≫= k) = Some y.
Proof.
  destruct l as [|x' l]; [done|]. intros [= ->]. cbn.
  by destruct (k x).
Qed.

Lemma digit_of_cases c d :
  digit_of c = Some d →
  (c, d) ∈ [("0", 0); ("1", 1); ("2", 2); ("3", 3); ("4", 4);
            ("5", 5); ("6", 6); ("7", 7); ("8", 8); ("9", 9)]%char.
Proof.
  destruct c as [[] [] [] [] [] [] [] []]; cbn; intros [= <-];
    set_solver.
Qed.

Ltac two_digit_cases H1 H2 :=
  apply digit_of_cases in H1; apply digit_of_cases in H2;
  repeat (apply elem_of_cons in H1 as [[= -> ->]|H1]);
    [..|by apply elem_of_nil in H1];
  (repeat (apply elem_of_cons in H2 as [[= -> ->]|H2]);
    [..|by apply elem_of_nil in H2]);
  first [lia | by vm_compute].

Lemma directive_Y_fixed c1 c2 c3 c4 a b c d rest :
  digit_of c1 = Some a → digit_of c2 = Some b →
  digit_of c3 = Some c → digit_of c4 = Some d →
  head (directive_Y (String c1 (String c2 (String c3 (String c4 rest)))))
  = Some (100 * (10 * a + b) + (10 * c + d), rest).
Proof.
  intros Ha Hb Hc Hd. unfold directive_Y, two, digit. cbn.
  destruct (digit_of_inv _ _ Ha), (digit_of_inv _ _ Hb),
           (digit_of_inv _ _ Hc), (digit_of_inv _ _ Hd).
  rewrite Ha. rewrite !(proj2 (Z.leb_le _ _)) by lia. cbn.
  rewrite Hb. rewrite !(proj2 (Z.leb_le _ _)) by lia. cbn.
  rewrite Hc. rewrite !(proj2 (Z.leb_le _ _)) by lia. cbn.
  rewrite Hd. rewrite !(proj2 (Z.leb_le _ _)) by lia. cbn.
  done.
Qed.

Lemma directive_m_fixed c1 c2 a b rest :
  digit_of c1 = Some a → digit_of c2 = Some b → 1 ≤ 10 * a + b ≤ 12 →
  head (directive_m (String c1 (String c2 rest))) = Some (10 * a + b, rest).
Proof. intros H1 H2 ?. two_digit_cases H1 H2. Qed.

Lemma directive_d_fixed c1 c2 a b rest :
  digit_of c1 = Some a → digit_of c2 = Some b → 1 ≤ 10 * a + b ≤ 31 →
  head (directive_d (String c1 (String c2 rest))) = Some (10 * a + b, rest).
Proof. intros H1 H2 ?. two_digit_cases H1 H2. Qed.

Lemma directive_H_fixed c1 c2 a b rest :
  digit_of c1 = Some a → digit_of c2 = Some b → 0 ≤ 10 * a + b ≤ 23 →
  head (directive_H (String c1 (String c2 rest))) = Some (10 * a + b, rest).
Proof. intros H1 H2 ?. two_digit_cases H1 H2. Qed.

Lemma directive_M_fixed c1 c2 a b rest :
  digit_of c1 = Some a → digit_of c2 = Some b → 0 ≤ 10 * a + b ≤ 59 →
  head (directive_M (String c1 (String c2 rest))) = Some (10 * a + b, rest).
Proof. intros H1 H2 ?. two_digit_cases H1 H2. Qed.

Lemma directive_S_fixed c1 c2 a b rest :
  digit_of c1 = Some a → digit_of c2 = Some b → 0 ≤ 10 * a + b ≤ 59 →
  head (directive_S (String c1 (String c2 rest))) = Some (10 * a + b, rest).
Proof. intros H1 H2 ?. two_digit_cases H1 H2. Qed.

(** ** A string of the fixed shape, taken apart *)

Lemma days_in_month_le y m : days_in_month y m ≤ 31.
Proof. unfold days_in_month. repeat case_match; lia. Qed.

Lemma valid_fields_spec y m d H M sec :
  valid_fields y m d H M sec = true ↔
  1 ≤ y ≤ 9999 ∧ 1 ≤ m ≤ 12 ∧ 1 ≤ d ≤ days_in_month y m ∧
  0 ≤ H ≤ 23 ∧ 0 ≤ M ≤ 59 ∧ 0 ≤ sec ≤ 59.
Proof.
  unfold valid_fields. rewrite !andb_true_iff, !Z.leb_le. tauto.
Qed.

Lemma fixed_shape_inv s dt :
  fixed_shape s = Some dt →
  ∃ y1 y2 y3 y4 m1 m2 d1 d2 H1 H2 M1 M2 S1 S2,
    s = two_chars y1 y2 (two_chars y3 y4 (String "-"
          (two_chars m1 m2 (String "-" (two_chars d1 d2 (String "T"
            (two_chars H1 H2 (String ":" (two_chars M1 M2 (String ":"
              (two_chars S1 S2 (String "Z" EmptyString))))))))))))
    ∧ number [y1; y2; y3; y4] = Some (year dt)
    ∧ number [m1; m2] = Some (month dt)
    ∧ number [d1; d2] = Some (day dt)
    ∧ number [H1; H2] = Some (hour dt)
    ∧ number [M1; M2] = Some (minute dt)
    ∧ number [S1; S2] = Some (second dt)
    ∧ valid_fields (year dt) (month dt) (day dt)
        (hour dt) (minute dt) (second dt) = true.
Proof.
  unfold fixed_shape. intros H.
  do 20 (destruct s as [|? s]; [by cbn in H|]).
  destruct s; [|by cbn in H]. cbn in H.
  case_bool_decide as Hlit; [|done]. injection Hlit as -> -> -> -> -> ->.
  destruct (number [_; _; _; _]) as [y|] eqn:Hy; [|done]. cbn in H.
  destruct (number [a4; a5]) as [m|] eqn:Hm; [|done]. cbn in H.
  destruct (number [a7; a8]) as [d|] eqn:Hd; [|done]. cbn in H.
  destruct (number [a10; a11]) as [hh|] eqn:Hh; [|done]. cbn in H.
  destruct (number [a13; a14]) as [mi|] eqn:Hmi; [|done]. cbn in H.
  destruct (number [a16; a17]) as [ss|] eqn:Hss; [|done]. cbn in H.
  destruct (valid_fields y m d hh mi ss) eqn:Hvalid; [|done].
  injection H as <-. cbn.
  by eexists _, _, _, _, _, _, _, _, _, _, _, _, _, _.
Qed.

(** ** Parsing the fixed shape *)

Lemma strptime_head s y m d H M sec :
  head (format_regex s) = Some ((y, m, d, H, M, sec), EmptyString) →
  strptime s = make_datetime y m d H M sec.
Proof.
  unfold strptime. destruct (format_regex s) as [|[f rest] l]; [done|].
  by intros [= -> ->].
Qed.

Lemma strptime_fixed_shape s dt : fixed_shape s = Some dt → strptime s = Ok dt.
Proof.
  intros H. apply fixed_shape_inv in H
    as (y1 & y2 & y3 & y4 & m1 & m2 & d1 & d2 & H1 & H2 & M1 & M2 & S1 & S2
        & -> & Hy & Hm & Hd & HH & HM & HS & Hvalid).
  apply number4_inv in Hy as (ya & yb & yc & yd & ? & ? & ? & ? & Hy).
  apply number2_inv in Hm as (ma & mb & ? & ? & Hm).
  apply number2_inv in Hd as (da & db & ? & ? & Hd).
  apply number2_inv in HH as (Ha & Hb & ? & ? & HH).
  apply number2_inv in HM as (Ma & Mb & ? & ? & HM).
  apply number2_inv in HS as (Sa & Sb & ? & ? & HS).
  pose proof Hvalid as Hv. apply valid_fields_spec in Hv.
  pose proof (days_in_month_le (year dt) (month dt)).
  erewrite strptime_head.
  - unfold make_datetime. rewrite Hvalid. by destruct dt.
  - unfold format_regex, two_chars.
    eapply head_bind; [by apply directive_Y_fixed|]. cbv beta iota.
    eapply head_bind; [reflexivity|]. cbv beta iota.
    eapply head_bind; [apply directive_m_fixed; [done..|lia]|]. cbv beta iota.
    eapply head_bind; [reflexivity|]. cbv beta iota.
    eapply head_bind; [apply directive_d_fixed; [done..|lia]|]. cbv beta iota.
    eapply head_bind; [reflexivity|]. cbv beta iota.
    eapply head_bind; [apply directive_H_fixed; [done..|lia]|]. cbv beta iota.
    eapply head_bind; [reflexivity|]. cbv beta iota.
    eapply head_bind; [apply directive_M_fixed; [done..|lia]|]. cbv beta iota.
    eapply head_bind; [reflexivity|]. cbv beta iota.
    eapply head_bind; [apply directive_S_fixed; [done..|lia]|]. cbv beta iota.
    eapply head_bind; [reflexivity|]. cbv beta iota.
    cbn. by rewrite Hy, Hm, Hd, HH, HM, HS.
Qed.

(** ** Formatting gives the fixed shape back *)

Lemma pad2_digits c1 c2 a b rest :
  digit_of c1 = Some a → digit_of c2 = Some b →
  pad2 (10 * a + b) +:+ rest = two_chars c1 c2 rest.
Proof.
  intros [? <-]%digit_of_inv [? <-]%digit_of_inv. unfold pad2, two_chars.
  replace ((10 * a + b) / 10) with a
    by (apply (Z.div_unique _ 10 a b); lia).
  replace (a mod 10) with a by (apply (Z.mod_unique _ 10 0 a); lia).
  replace ((10 * a + b) mod 10) with b
    by (apply (Z.mod_unique _ 10 a b); lia).
  done.
Qed.

Lemma pad4_digits c1 c2 c3 c4 a b c d rest :
  digit_of c1 = Some a → digit_of c2 = Some b →
  digit_of c3 = Some c → digit_of c4 = Some d →
  pad4 (100 * (10 * a + b) + (10 * c + d)) +:+ rest
  = two_chars c1 c2 (two_chars c3 c4 rest).
Proof.
  intros Ha Hb Hc Hd. unfold pad4.
  destruct (digit_of_inv _ _ Ha), (digit_of_inv _ _ Hb),
           (digit_of_inv _ _ Hc), (digit_of_inv _ _ Hd).
  replace ((100 * (10 * a + b) + (10 * c + d)) / 100) with (10 * a + b)
    by (apply (Z.div_unique _ 100 _ (10 * c + d)); lia).
  replace ((100 * (10 * a + b) + (10 * c + d)) mod 100) with (10 * c + d)
    by (apply (Z.mod_unique _ 100 (10 * a + b) _); lia).
  rewrite <-(pad2_digits c3 c4 c d rest), <-(pad2_digits c1 c2 a b) by done.
  unfold pad2. done.
Qed.

(** ** The year as the C library writes it *)

Lemma forallb_seqZ (P : Z → bool) lo len y :
  forallb P (seqZ lo len) = true → lo ≤ y < lo + len → P y = true.
Proof.
  intros Hall Hy. rewrite forallb_forall in Hall. apply Hall.
  apply list_elem_of_In, elem_of_seqZ. lia.
Qed.

(** From the year 1000 on the year has its four digits. *)
Lemma pretty_four_digits y : 1000 ≤ y ≤ 9999 → pretty y = pad4 y.
Proof.
  intros Hy.
  pose proof (forallb_seqZ (λ n, bool_decide (pretty n = pad4 n))
                1000 9000 y) as Hcheck.
  cbv beta in Hcheck.
  assert (bool_decide (pretty y = pad4 y) = true) as Hb
    by (apply Hcheck; [by vm_compute|lia]).
  by apply bool_decide_eq_true_1 in Hb.
Qed.

(** Before the year 1000 it has at most three, and no zero in front. *)
Lemma pretty_short_year y :
  1 ≤ y ≤ 999 →
  ∃ c r, pretty y = String c r ∧ c ≠ "0"%char ∧ (String.length r < 3)%nat.
Proof.
  intros Hy.
  pose proof (forallb_seqZ
    (λ n, match pretty n with
          | String c r =>
              bool_decide (c ≠ "0"%char ∧ (String.length r < 3)%nat)
          | EmptyString => false
          end) 1 999 y) as Hcheck.
  cbv beta in Hcheck.
  destruct (pretty y) as [|c r]; [by discriminate Hcheck; [vm_compute|lia]|].
  exists c, r. split; [done|].
  assert (bool_decide (c ≠ "0"%char ∧ (String.length r < 3)%nat) = true)
    as Hb by (apply Hcheck; [by vm_compute|lia]).
  by apply bool_decide_eq_true_1 in Hb.
Qed.

Lemma strftime_fixed_shape s dt :
  fixed_shape s = Some dt → 1000 ≤ year dt → strftime dt = s.
Proof.
  intros H Hyear. pose proof H as Hvalid. apply fixed_shape_inv in H
    as (y1 & y2 & y3 & y4 & m1 & m2 & d1 & d2 & H1 & H2 & M1 & M2 & S1 & S2
        & -> & Hy & Hm & Hd & HH & HM & HS & _).
  apply number4_inv in Hy as (ya & yb & yc & yd & ? & ? & ? & ? & Hy).
  apply number2_inv in Hm as (ma & mb & ? & ? & Hm).
  apply number2_inv in Hd as (da & db & ? & ? & Hd).
  apply number2_inv in HH as (Ha & Hb & ? & ? & HH).
  apply number2_inv in HM as (Ma & Mb & ? & ? & HM).
  apply number2_inv in HS as (Sa & Sb & ? & ? & HS).
  unfold strftime. rewrite pretty_four_digits.
  2:{ split; [done|]. rewrite Hy.
      repeat match goal with
             | Hd : digit_of _ = Some _ |- _ => apply digit_of_inv in Hd as [? _]
             end. lia. }
  rewrite Hy, Hm, Hd, HH, HM, HS.
  rewrite (pad4_digits y1 y2 y3 y4) by done. cbn [String.append].
  rewrite (pad2_digits m1 m2) by done. cbn [String.append].
  rewrite (pad2_digits d1 d2) by done. cbn [String.append].
  rewrite (pad2_digits H1 H2) by done. cbn [String.append].
  rewrite (pad2_digits M1 M2) by done. cbn [String.append].
  rewrite (pad2_digits S1 S2) by done. done.
Qed.

(** A valid timestamp of a year below 1000 starts with a zero, and what
    [strftime] writes for its instant does not. *)
Lemma strftime_short_year s dt :
  fixed_shape s = Some dt → year dt < 1000 → strftime dt ≠ s.
Proof.
  intros H Hyear Heq. apply fixed_shape_inv in H
    as (y1 & y2 & y3 & y4 & m1 & m2 & d1 & d2 & H1 & H2 & M1 & M2 & S1 & S2
        & -> & Hy & _ & _ & _ & _ & _ & Hvalid).
  apply valid_fields_spec in Hvalid as (Hpos & _).
  apply number4_inv in Hy as (ya & yb & yc & yd & Hya & Hyb & Hyc & Hyd & Hy).
  destruct (pretty_short_year (year dt)) as (c & r & Hp & Hc & _); [lia|].
  unfold strftime, two_chars in Heq. rewrite Hp in Heq.
  cbv [String.append] in Heq. injection Heq as Hc1 _.
  apply Hc. rewrite Hc1.
  destruct (digit_of_inv _ _ Hya) as [? <-].
  destruct (digit_of_inv _ _ Hyb), (digit_of_inv _ _ Hyc),
           (digit_of_inv _ _ Hyd).
  by replace ya with 0 by lia.
Qed.

(** C8, as the code has it. On every valid YYYY-MM-DDTHH:MM:SSZ
    timestamp [s], [z_to_dt] returns an instant, and [dt_to_z] of that
    instant is [s] again exactly when the year is 1000 or later: the year
    of an earlier instant is written without its zeros in front. And
    [z_to_dt] of [None] is [None]. *)
Theorem z_to_dt_dt_to_z_round_trip (s : string) :
  valid_timestamp s →
  (∃ dt, z_to_dt (Some s) = Ok (Some dt)
         ∧ (dt_to_z (Some dt) = Some s ↔ 1000 ≤ year dt))
  ∧ z_to_dt None = Ok None.
Proof.
  intros [dt Hshape]. split; [|done].
  exists dt. cbn. rewrite (strptime_fixed_shape _ _ Hshape). cbn.
  split; [done|]. split.
  - intros [= Heq]. destruct (decide (1000 ≤ year dt)) as [|Hshort]; [done|].
    destruct (strftime_short_year _ _ Hshape); [lia|done].
  - intros Hyear. by rewrite (strftime_fixed_shape _ _ Hshape Hyear).
Qed.

Lemma z_to_dt_dt_to_z_round_trip_witness :
  (∃ dt, z_to_dt (Some "2024-02-29T23:59:59Z") = Ok (Some dt)
         ∧ (dt_to_z (Some dt) = Some "2024-02-29T23:59:59Z"
            ↔ 1000 ≤ year dt))
  ∧ z_to_dt None = Ok None.
Proof.
  apply z_to_dt_dt_to_z_round_trip.
  exists (Datetime 2024 2 29 23 59 59). reflexivity.
Defined.

(** C8 fails as stated: 0999-01-01T00:00:00Z is a valid timestamp,
    [z_to_dt] reads it as the first of January of the year 999, and
    [dt_to_z] writes that instant with a year of three digits, which is
    another string. *)
Lemma short_year_not_restored :
  valid_timestamp "0999-01-01T00:00:00Z"
  ∧ z_to_dt (Some "0999-01-01T00:00:00Z")
    = Ok (Some (Datetime 999 1 1 0 0 0))
  ∧ dt_to_z (Some (Datetime 999 1 1 0 0 0)) = Some "999-01-01T00:00:00Z"
  ∧ dt_to_z (Some (Datetime 999 1 1 0 0 0)) ≠ Some "0999-01-01T00:00:00Z".
Proof.
  split; [by eexists; vm_compute|]. split; [by vm_compute|].
  split; [by vm_compute|]. by vm_compute.
Qed.

End CodecFacts.

(** * The strings [strptime] accepts *)

Module ShapeFacts.
Import Codec CodecSpec CodecFacts.

(** ** From a match to the text that was matched *)

Lemma digit_inv lo hi s d r :
  (d, r) ∈ digit lo hi s →
  ∃ c, s = String c r ∧ digit_of c = Some d ∧ lo ≤ d ≤ hi.
Proof.
  unfold digit. destruct s as [|c s]; [by intros ?%elem_of_nil|].
  destruct (digit_of c) as [d'|] eqn:Hc; [|by intros ?%elem_of_nil].
  destruct (lo <=? d') eqn:Hlo, (d' <=? hi) eqn:Hhi; cbn;
    try by intros ?%elem_of_nil.
  intros [= -> ->]%list_elem_of_singleton.
  exists c. apply Z.leb_le in Hlo, Hhi. by repeat split.
Qed.

Lemma two_inv lo1 hi1 lo2 hi2 s v r :
  (v, r) ∈ two lo1 hi1 lo2 hi2 s →
  ∃ c1 c2 a b, s = String c1 (String c2 r)
               ∧ digit_of c1 = Some a ∧ digit_of c2 = Some b
               ∧ lo1 ≤ a ≤ hi1 ∧ lo2 ≤ b ≤ hi2 ∧ v = 10 * a + b.
Proof.
  unfold two.
  intros ([a s1] & ([b s2] & Hv & Hb)%list_elem_of_bind & Ha)%list_elem_of_bind.
  apply list_elem_of_singleton in Hv as [= -> ->].
  apply digit_inv in Ha as (c1 & -> & ? & ?).
  apply digit_inv in Hb as (c2 & -> & ? & ?).
  by exists c1, c2, a, b.
Qed.

Lemma pad2_of_digits c1 c2 a b :
  digit_of c1 = Some a → digit_of c2 = Some b →
  pad2 (10 * a + b) = String c1 (String c2 EmptyString).
Proof.
  intros Ha Hb. pose proof (pad2_digits c1 c2 a b EmptyString Ha Hb) as H.
  unfold pad2 in *. by cbn in H.
Qed.

Lemma two_text lo1 hi1 lo2 hi2 s v r :
  (v, r) ∈ two lo1 hi1 lo2 hi2 s →
  s = pad2 v +:+ r ∧ 10 * lo1 + lo2 ≤ v ≤ 10 * hi1 + hi2.
Proof.
  intros (c1 & c2 & a & b & -> & Ha & Hb & ? & ? & ->)%two_inv.
  rewrite (pad2_of_digits c1 c2 a b) by done. split; [done|lia].
Qed.

Lemma digit_text lo hi s v r :
  (v, r) ∈ digit lo hi s →
  s = unpadded v +:+ r ∧ lo ≤ v ≤ hi ∧ 0 ≤ v ≤ 9.
Proof.
  intros (c & -> & Hc & ?)%digit_inv.
  destruct (digit_of_inv _ _ Hc) as [? <-].
  split; [reflexivity|]. split; [done|lia].
Qed.

Lemma elem_of_texts_pad2 v : pad2 v ∈ texts v.
Proof. left. Qed.

Lemma elem_of_texts_unpadded v : 0 ≤ v ≤ 9 → unpadded v ∈ texts v.
Proof.
  intros ?. unfold texts. rewrite (proj2 (Z.ltb_lt v 10)) by lia.
  right. left.
Qed.

Lemma elem_of_alt {A} (p q : matcher A) s x :
  x ∈ alt p q s ↔ x ∈ p s ∨ x ∈ q s.
Proof. unfold alt. apply elem_of_app. Qed.

Ltac field_text :=
  repeat match goal with
  | H : _ ∈ alt _ _ _ |- _ => apply elem_of_alt in H as [H|H]
  end;
  match goal with
  | H : _ ∈ two _ _ _ _ _ |- _ =>
      apply two_text in H as [-> ?]; eexists;
      split; [done|split; [apply elem_of_texts_pad2|lia]]
  | H : _ ∈ digit _ _ _ |- _ =>
      apply digit_text in H as (-> & ? & ?); eexists;
      split; [done|split; [by apply elem_of_texts_unpadded|lia]]
  end.

Lemma directive_m_text s v r :
  (v, r) ∈ directive_m s →
  ∃ text, s = text +:+ r ∧ text ∈ texts v ∧ 1 ≤ v ≤ 12.
Proof. unfold directive_m. intros H. field_text. Qed.

Lemma directive_H_text s v r :
  (v, r) ∈ directive_H s →
  ∃ text, s = text +:+ r ∧ text ∈ texts v ∧ 0 ≤ v ≤ 23.
Proof. unfold directive_H. intros H. field_text. Qed.

Lemma directive_M_text s v r :
  (v, r) ∈ directive_M s →
  ∃ text, s = text +:+ r ∧ text ∈ texts v ∧ 0 ≤ v ≤ 59.
Proof. unfold directive_M. intros H. field_text. Qed.

Lemma directive_S_text s v r :
  (v, r) ∈ directive_S s →
  ∃ text, s = text +:+ r ∧ text ∈ texts v ∧ 0 ≤ v ≤ 61.
Proof. unfold directive_S. intros H. field_text. Qed.

Lemma directive_d_text s v r :
  (v, r) ∈ directive_d s →
  ∃ text, s = text +:+ r ∧ text ∈ texts_of_day v ∧ 1 ≤ v ≤ 31.
Proof.
  unfold directive_d, texts_of_day. intros H.
  repeat match goal with
  | H : _ ∈ alt _ _ _ |- _ => apply elem_of_alt in H as [H|H]
  end.
  1-3: apply two_text in H as [-> ?]; eexists;
    (split; [done|split; [apply elem_of_app; left; left|lia]]).
  - apply digit_text in H as (-> & ? & ?). eexists.
    split; [done|]. split; [|lia].
    apply elem_of_app. left. by apply elem_of_texts_unpadded.
  - unfold spaced in H. destruct s as [|c s]; [by apply elem_of_nil in H|].
    destruct (decide (c = " "%char)) as [->|]; [|by apply elem_of_nil in H].
    apply digit_text in H as (-> & ? & ?).
    exists (String " " (unpadded v)). split; [done|]. split; [|lia].
    apply elem_of_app. right.
    rewrite (proj2 (Z.ltb_lt v 10)) by lia. left.
Qed.

Lemma directive_Y_text s v r :
  (v, r) ∈ directive_Y s → s = pad4 v +:+ r ∧ 0 ≤ v ≤ 9999.
Proof.
  unfold directive_Y.
  intros ([a s1] & ([b s2] & Hv & Hb)%list_elem_of_bind & Ha)%list_elem_of_bind.
  apply list_elem_of_singleton in Hv as [= -> ->].
  apply two_inv in Ha as (c1 & c2 & a1 & a2 & -> & ? & ? & ? & ? & ->).
  apply two_inv in Hb as (c3 & c4 & b1 & b2 & -> & ? & ? & ? & ? & ->).
  rewrite (pad4_digits c1 c2 c3 c4 a1 a2 b1 b2) by done.
  split; [done|lia].
Qed.

Lemma literal_inv p s r :
  ((), r) ∈ literal p s → ∃ c, s = String c r ∧ lower c = lower p.
Proof.
  unfold literal. destruct s as [|c s]; [by intros ?%elem_of_nil|].
  destruct (decide (lower c = lower p)); [|by intros ?%elem_of_nil].
  intros [= ->]%list_elem_of_singleton. by exists c.
Qed.

Lemma lower_cases c :
  (lower c = lower "-" → c = "-"%char)
  ∧ (lower c = lower ":" → c = ":"%char)
  ∧ (lower c = lower "T" → c ∈ ["T"; "t"]%char)
  ∧ (lower c = lower "Z" → c ∈ ["Z"; "z"]%char).
Proof.
  destruct c as [[] [] [] [] [] [] [] []]; vm_compute;
    repeat split; first [done | intros _; set_solver].
Qed.

(** ** What [strptime] accepts is a rendering of what it returns *)

Lemma strptime_inv s dt :
  strptime s = Ok dt →
  valid_datetime dt
  ∧ ((year dt, month dt, day dt, hour dt, minute dt, second dt),
     EmptyString) ∈ format_regex s.
Proof.
  unfold strptime.
  destruct (format_regex s) as [|[[[[[[y m] d] H] M] sec] rest] l] eqn:Hre;
    [done|].
  destruct rest; [|done]. unfold make_datetime.
  destruct (valid_fields y m d H M sec) eqn:Hvalid; [|done].
  intros [= <-]. split; [done|]. cbn. left.
Qed.

Lemma strptime_rendering s dt :
  strptime s = Ok dt → valid_datetime dt ∧ s ∈ renderings dt.
Proof.
  intros [Hvalid Hin]%strptime_inv. split; [done|].
  destruct dt as [y m d H M sec]. cbn in Hin. unfold format_regex in Hin.
  apply list_elem_of_bind in Hin as ([y' s1] & Hin & HY). cbv beta iota in Hin.
  apply list_elem_of_bind in Hin as ([[] s2] & Hin & Hl1). cbv beta iota in Hin.
  apply list_elem_of_bind in Hin as ([m' s3] & Hin & Hm). cbv beta iota in Hin.
  apply list_elem_of_bind in Hin as ([[] s4] & Hin & Hl2). cbv beta iota in Hin.
  apply list_elem_of_bind in Hin as ([d' s5] & Hin & Hd). cbv beta iota in Hin.
  apply list_elem_of_bind in Hin as ([[] s6] & Hin & Hl3). cbv beta iota in Hin.
  apply list_elem_of_bind in Hin as ([H' s7] & Hin & HH). cbv beta iota in Hin.
  apply list_elem_of_bind in Hin as ([[] s8] & Hin & Hl4). cbv beta iota in Hin.
  apply list_elem_of_bind in Hin as ([M' s9] & Hin & HM). cbv beta iota in Hin.
  apply list_elem_of_bind in Hin as ([[] s10] & Hin & Hl5). cbv beta iota in Hin.
  apply list_elem_of_bind in Hin as ([S' s11] & Hin & HS). cbv beta iota in Hin.
  apply list_elem_of_bind in Hin as ([[] s12] & Hin & Hl6). cbv beta iota in Hin.
  apply list_elem_of_singleton in Hin as [= <- <- <- <- <- <- <-].
  apply directive_Y_text in HY as [-> _].
  apply literal_inv in Hl1 as (c1 & -> & ->%lower_cases).
  apply directive_m_text in Hm as (tm & -> & Htm & _).
  apply literal_inv in Hl2 as (c2 & -> & ->%lower_cases).
  apply directive_d_text in Hd as (td & -> & Htd & _).
  apply literal_inv in Hl3 as (c3 & -> & Hc3%lower_cases).
  apply directive_H_text in HH as (tH & -> & HtH & _).
  apply literal_inv in Hl4 as (c4 & -> & ->%lower_cases).
  apply directive_M_text in HM as (tM & -> & HtM & _).
  apply literal_inv in Hl5 as (c5 & -> & ->%lower_cases).
  apply directive_S_text in HS as (tS & -> & HtS & _).
  apply literal_inv in Hl6 as (c6 & -> & Hc6%lower_cases).
  unfold renderings. cbn [year month day hour minute second].
  apply list_elem_of_bind. exists tm. split; [|done].
  apply list_elem_of_bind. exists td. split; [|done].
  apply list_elem_of_bind. exists c3. split; [|done].
  apply list_elem_of_bind. exists tH. split; [|done].
  apply list_elem_of_bind. exists tM. split; [|done].
  apply list_elem_of_bind. exists tS. split; [|done].
  apply list_elem_of_bind. exists c6. split; [|done].
  left.
Qed.

(** ** Every rendering of a valid instant is accepted *)

Lemma digit_of_char_of_digit d :
  0 ≤ d ≤ 9 → digit_of (char_of_digit d) = Some d.
Proof.
  intros ?.
  assert (d = 0 ∨ d = 1 ∨ d = 2 ∨ d = 3 ∨ d = 4 ∨ d = 5 ∨ d = 6 ∨ d = 7
          ∨ d = 8 ∨ d = 9) as Hd by lia.
  by repeat destruct Hd as [->|Hd]; [..|subst d].
Qed.

Lemma directive_Y_pad4 y rest :
  0 ≤ y ≤ 9999 → head (directive_Y (pad4 y +:+ rest)) = Some (y, rest).
Proof.
  intros Hy. unfold pad4, pad2. cbv [String.append].
  erewrite directive_Y_fixed.
  2-5: apply digit_of_char_of_digit;
    match goal with
    | |- _ ≤ ?a `mod` 10 ≤ _ => pose proof (Z.mod_pos_bound a 10); lia
    end.
  f_equal. f_equal.
  pose proof (Z.div_mod y 100). pose proof (Z.mod_pos_bound y 100).
  pose proof (Z.div_mod (y / 100) 10).
  pose proof (Z.mod_pos_bound (y / 100) 10).
  pose proof (Z.div_mod (y mod 100) 10).
  pose proof (Z.mod_pos_bound (y mod 100) 10).
  assert (0 ≤ y / 100 < 100)
    by (split; [apply Z.div_pos|apply Z.div_lt_upper_bound]; lia).
  assert (0 ≤ (y / 100) / 10 < 10)
    by (split; [apply Z.div_pos|apply Z.div_lt_upper_bound]; lia).
  assert (0 ≤ (y mod 100) / 10 < 10)
    by (split; [apply Z.div_pos|apply Z.div_lt_upper_bound]; lia).
  rewrite (Z.mod_small ((y / 100) / 10)) by lia.
  rewrite (Z.mod_small ((y mod 100) / 10)) by lia.
  lia.
Qed.

(** The values of a field, one by one. *)
Ltac enumerate n lo len :=
  let Hn := fresh "Hn" in
  assert (n ∈ seqZ lo len) as Hn by (apply elem_of_seqZ; lia);
  vm_compute in Hn;
  repeat (apply elem_of_cons in Hn as [->|Hn]);
  [..|by apply elem_of_nil in Hn].

Ltac each_text Ht :=
  vm_compute in Ht;
  repeat (apply elem_of_cons in Ht as [->|Ht]);
  [..|by apply elem_of_nil in Ht].

Lemma directive_m_of_text n text rest :
  1 ≤ n ≤ 12 → text ∈ texts n →
  head (directive_m (text +:+ String "-" rest)) = Some (n, String "-" rest).
Proof. intros ? Ht. enumerate n 1 12; each_text Ht; by vm_compute. Qed.

Lemma directive_d_of_text n text c rest :
  1 ≤ n ≤ 31 → text ∈ texts_of_day n → c ∈ ["T"; "t"]%char →
  head (directive_d (text +:+ String c rest)) = Some (n, String c rest).
Proof.
  intros ? Ht Hc.
  repeat (apply elem_of_cons in Hc as [->|Hc]); [..|by apply elem_of_nil in Hc];
    enumerate n 1 31; each_text Ht; by vm_compute.
Qed.

Lemma directive_H_of_text n text rest :
  0 ≤ n ≤ 23 → text ∈ texts n →
  head (directive_H (text +:+ String ":" rest)) = Some (n, String ":" rest).
Proof. intros ? Ht. enumerate n 0 24; each_text Ht; by vm_compute. Qed.

Lemma directive_M_of_text n text rest :
  0 ≤ n ≤ 59 → text ∈ texts n →
  head (directive_M (text +:+ String ":" rest)) = Some (n, String ":" rest).
Proof. intros ? Ht. enumerate n 0 60; each_text Ht; by vm_compute. Qed.

Lemma directive_S_of_text n text c rest :
  0 ≤ n ≤ 59 → text ∈ texts n → c ∈ ["Z"; "z"]%char →
  head (directive_S (text +:+ String c rest)) = Some (n, String c rest).
Proof.
  intros ? Ht Hc.
  repeat (apply elem_of_cons in Hc as [->|Hc]); [..|by apply elem_of_nil in Hc];
    enumerate n 0 60; each_text Ht; by vm_compute.
Qed.

Lemma literal_head p c rest :
  lower c = lower p → head (literal p (String c rest)) = Some ((), rest).
Proof. intros Hc. unfold literal. by rewrite decide_True. Qed.

Lemma rendering_strptime s dt :
  valid_datetime dt → s ∈ renderings dt → strptime s = Ok dt.
Proof.
  intros Hvalid Hin. pose proof Hvalid as Hv.
  apply valid_fields_spec in Hv as (? & ? & ? & ? & ? & ?).
  pose proof (days_in_month_le (year dt) (month dt)).
  unfold renderings in Hin.
  apply list_elem_of_bind in Hin as (tm & Hin & Htm).
  apply list_elem_of_bind in Hin as (td & Hin & Htd).
  apply list_elem_of_bind in Hin as (c3 & Hin & Hc3).
  apply list_elem_of_bind in Hin as (tH & Hin & HtH).
  apply list_elem_of_bind in Hin as (tM & Hin & HtM).
  apply list_elem_of_bind in Hin as (tS & Hin & HtS).
  apply list_elem_of_bind in Hin as (c6 & Hin & Hc6).
  apply list_elem_of_singleton in Hin as ->.
  erewrite strptime_head.
  - unfold make_datetime. rewrite Hvalid. by destruct dt.
  - unfold format_regex.
    eapply head_bind; [apply directive_Y_pad4; lia|]. cbv beta iota.
    eapply head_bind; [by apply literal_head|]. cbv beta iota.
    eapply head_bind; [by apply (directive_m_of_text (month dt))|].
    cbv beta iota.
    eapply head_bind; [by apply literal_head|]. cbv beta iota.
    eapply head_bind;
      [apply (directive_d_of_text (day dt)); [lia|done..]|].
    cbv beta iota.
    eapply head_bind.
    { apply literal_head.
      repeat (apply elem_of_cons in Hc3 as [->|Hc3]);
        [done..|by apply elem_of_nil in Hc3]. }
    cbv beta iota.
    eapply head_bind; [by apply (directive_H_of_text (hour dt))|].
    cbv beta iota.
    eapply head_bind; [by apply literal_head|]. cbv beta iota.
    eapply head_bind; [by apply (directive_M_of_text (minute dt))|].
    cbv beta iota.
    eapply head_bind; [by apply literal_head|]. cbv beta iota.
    eapply head_bind; [by apply (directive_S_of_text (second dt))|].
    cbv beta iota.
    eapply head_bind.
    { apply literal_head.
      repeat (apply elem_of_cons in Hc6 as [->|Hc6]);
        [done..|by apply elem_of_nil in Hc6]. }
    done.
Qed.

(** C7, as the code has it. [z_to_dt] maps [None] to [None], and
    nothing else: the empty string raises ValueError as every string
    does that [strptime] refuses. A string of the fixed shape
    YYYY-MM-DDTHH:MM:SSZ that names a real date and time is parsed to
    the instant read off its positions. The strings [z_to_dt] accepts
    are exactly the [renderings] of the valid instants, which besides
    the fixed shape are the strings with a field below ten written
    without its zero, or a day with a space for it, and with t or z in
    lower case; on every other string it raises ValueError. *)
Theorem z_to_dt_cases (s : string) (dt : datetime) :
  z_to_dt None = Ok None
  ∧ z_to_dt (Some EmptyString) = Raise ValueError
  ∧ (fixed_shape s = Some dt → z_to_dt (Some s) = Ok (Some dt))
  ∧ (z_to_dt (Some s) = Ok (Some dt) ↔ valid_datetime dt ∧ s ∈ renderings dt)
  ∧ ((∃ dt', z_to_dt (Some s) = Ok (Some dt'))
     ∨ z_to_dt (Some s) = Raise ValueError).
Proof.
  split; [done|]. split; [done|]. split; [|split].
  - intros Hshape. cbn. by rewrite (strptime_fixed_shape _ _ Hshape).
  - cbn. split.
    + destruct (strptime s) as [dt'|] eqn:Hs; cbn; [|done].
      intros [= ->]. by apply strptime_rendering.
    + intros [Hvalid Hin]. by rewrite (rendering_strptime _ _ Hvalid Hin).
  - cbn. destruct (strptime s) as [dt'|e] eqn:Hs; cbn; [by eauto|].
    right. f_equal. unfold strptime, make_datetime in Hs.
    destruct (format_regex s) as [|[[[[[[y m] d] H] M] sec] [|c rest]] l];
      try by injection Hs as <-.
    destruct (valid_fields y m d H M sec); [done|by injection Hs as <-].
Qed.

Lemma z_to_dt_cases_witness :
  z_to_dt (Some "2024-02-29T23:59:59Z")
    = Ok (Some (Datetime 2024 2 29 23 59 59))
  ∧ valid_datetime (Datetime 2024 2 29 23 59 59)
  ∧ "2024-02-29T23:59:59Z" ∈ renderings (Datetime 2024 2 29 23 59 59).
Proof.
  pose proof (z_to_dt_cases "2024-02-29T23:59:59Z"
                (Datetime 2024 2 29 23 59 59)) as (_ & _ & Hfixed & Hiff & _).
  split; [exact (Hfixed eq_refl)|].
  exact (proj1 Hiff (Hfixed eq_refl)).
Defined.

(** C7 fails as stated: the empty string is not mapped to [None] but
    raises; and a string of another shape than the fixed one, with
    fields of one digit and letters in lower case, is parsed. *)
Lemma z_to_dt_empty_string_raises :
  z_to_dt (Some EmptyString) = Raise ValueError
  ∧ z_to_dt (Some EmptyString) ≠ Ok None
  ∧ fixed_shape "2024-2-9t3:5:9z" = None
  ∧ z_to_dt (Some "2024-2-9t3:5:9z") = Ok (Some (Datetime 2024 2 9 3 5 9)).
Proof. by vm_compute. Qed.

End ShapeFacts.

(** * The order on datetimes *)

Module OrderFacts.
Import Codec.

Lemma lex_compare_refl l : lex_compare l l = Eq.
Proof. induction l as [|x l IH]; cbn; [done|]. by rewrite Z.compare_refl. Qed.

Lemma lex_compare_eq l1 l2 : lex_compare l1 l2 = Eq → l1 = l2.
Proof.
  revert l2. induction l1 as [|x l1 IH]; intros [|y l2]; cbn; try done.
  destruct (Z.compare_spec x y) as [->| |]; [|done..].
  by intros ->%IH.
Qed.

Lemma lex_compare_antisym l1 l2 :
  lex_compare l2 l1 = CompOpp (lex_compare l1 l2).
Proof.
  revert l2. induction l1 as [|x l1 IH]; intros [|y l2]; cbn; try done.
  rewrite (Z.compare_antisym x y).
  destruct (x ?= y); cbn; [apply IH|done..].
Qed.

Lemma lex_compare_lt_trans l1 l2 l3 :
  lex_compare l1 l2 = Lt → lex_compare l2 l3 = Lt → lex_compare l1 l3 = Lt.
Proof.
  revert l2 l3.
  induction l1 as [|x l1 IH]; intros [|y l2] [|z l3]; cbn; try done.
  destruct (Z.compare_spec x y) as [->|Hxy|Hxy]; [| |done].
  - destruct (Z.compare_spec y z); [|done..]. apply IH.
  - destruct (Z.compare_spec y z) as [->|Hyz|Hyz]; [| |done]; intros _ _.
    + by apply Z.compare_lt_iff in Hxy as ->.
    + assert (x < z) as ->%Z.compare_lt_iff by lia. done.
Qed.

Lemma dt_compare_eq a b : dt_compare a b = Eq ↔ a = b.
Proof.
  split; [|intros ->; apply lex_compare_refl].
  intros H%lex_compare_eq. destruct a, b. unfold fields in H. by simplify_eq/=.
Qed.

Lemma dt_compare_antisym a b : dt_compare b a = CompOpp (dt_compare a b).
Proof. apply lex_compare_antisym. Qed.

Lemma dt_lt_trans a b c : dt_lt a b → dt_lt b c → dt_lt a c.
Proof. apply lex_compare_lt_trans. Qed.

Lemma dt_le_lt_or_eq a b : dt_le a b ↔ dt_lt a b ∨ a = b.
Proof.
  unfold dt_le, dt_lt. rewrite <-dt_compare_eq.
  destruct (dt_compare a b); intuition congruence.
Qed.

Lemma dt_lt_le a b : dt_lt a b → dt_le a b.
Proof. intros. apply dt_le_lt_or_eq. by left. Qed.

Lemma dt_lt_irrefl a : ¬ dt_lt a a.
Proof. unfold dt_lt. by rewrite (proj2 (dt_compare_eq a a)). Qed.

#[global] Instance dt_le_refl : Reflexive dt_le.
Proof. intros a. apply dt_le_lt_or_eq. by right. Qed.

#[global] Instance dt_le_trans : Transitive dt_le.
Proof.
  intros a b c [Hab| ->]%dt_le_lt_or_eq [Hbc| ->]%dt_le_lt_or_eq;
    apply dt_le_lt_or_eq; eauto using dt_lt_trans.
Qed.

#[global] Instance dt_le_antisym : AntiSymm (=) dt_le.
Proof.
  intros a b [Hab| ->]%dt_le_lt_or_eq [Hba|Heq]%dt_le_lt_or_eq; try done.
  destruct (dt_lt_irrefl a). by eapply dt_lt_trans.
Qed.

#[global] Instance dt_le_total : Total dt_le.
Proof.
  intros a b. unfold dt_le. rewrite (dt_compare_antisym a b).
  destruct (dt_compare a b); cbn; auto.
Qed.

(** [a > b] is [b < a]; when it is false, [a <= b]. *)
Lemma dt_gt_true a b : dt_gt a b = true ↔ dt_lt b a.
Proof.
  unfold dt_gt, dt_lt. rewrite (dt_compare_antisym a b).
  destruct (dt_compare a b); cbn; intuition congruence.
Qed.

Lemma dt_gt_false a b : dt_gt a b = false ↔ dt_le a b.
Proof.
  unfold dt_gt, dt_le. destruct (dt_compare a b); intuition congruence.
Qed.

End OrderFacts.

(** * The aggregation walks *)

Module LoopFacts.

Lemma for_each_app {A S} (body : S → A → result S) l1 l2 s :
  for_each body (l1 ++ l2) s = for_each body l1 s ≫= for_each body l2.
Proof.
  revert s. induction l1 as [|x l1 IH]; intros s; cbn; [done|].
  destruct (body s x); cbn; [apply IH|done].
Qed.

(** A body that cannot raise on the elements of the list is a fold. *)
Lemma for_each_pure {A S} (body : S → A → result S) (f : S → A → S) l s :
  (∀ s x, x ∈ l → body s x = Ok (f s x)) →
  for_each body l s = Ok (foldl f s l).
Proof.
  revert s. induction l as [|x l IH]; intros s Hbody; cbn; [done|].
  rewrite Hbody by left. cbn. apply IH. intros s' y Hy. apply Hbody. by right.
Qed.

(** A loop whose body keeps an invariant and returns under it returns. *)
Lemma for_each_invariant {A S} (body : S → A → result S) (I : S → Prop) l s :
  (∀ s x, x ∈ l → I s → ∃ s', body s x = Ok s' ∧ I s') →
  I s → ∃ s', for_each body l s = Ok s' ∧ I s'.
Proof.
  revert s. induction l as [|x l IH]; intros s Hbody Hs; cbn; [by eauto|].
  destruct (Hbody s x) as (s' & -> & Hs'); [left|done|]. cbn.
  apply IH; [|done]. intros s'' y Hy. apply Hbody. by right.
Qed.

Lemma foldl_snoc_map {A B} (g : A → B) l acc :
  foldl (λ acc a, acc ++ [g a]) acc l = acc ++ (g <$> l).
Proof.
  revert acc. induction l as [|x l IH]; intros acc; cbn.
  - by rewrite app_nil_r.
  - rewrite IH. by rewrite <-(assoc_L (++)).
Qed.

Lemma foldl_snoc_filter {A} (P : A → Prop) `{∀ x, Decision (P x)} l acc :
  foldl (λ acc a, if decide (P a) then acc ++ [a] else acc) acc l
  = acc ++ filter P l.
Proof.
  revert acc. induction l as [|x l IH]; intros acc.
  - cbn. by rewrite app_nil_r.
  - rewrite filter_cons. cbn [foldl]. rewrite IH.
    destruct (decide (P x)); [|done]. by rewrite <-(assoc_L (++)).
Qed.

Lemma foldl_app_bind {A B} (g : A → list B) l acc :
  foldl (λ acc a, acc ++ g a) acc l = acc ++ (l ≫= g).
Proof.
  revert acc. induction l as [|x l IH]; intros acc; cbn.
  - by rewrite app_nil_r.
  - rewrite IH. by rewrite <-(assoc_L (++)).
Qed.

End LoopFacts.

Module DictFacts.

Lemma lookup_keys {K V} `{EqDecision K} (k : K) (d : Dict.dict K V) :
  is_Some (Dict.lookup k d) ↔ k ∈ Dict.keys d.
Proof.
  induction d as [|[k' v] d IH]; cbn.
  - split; [by intros [? ?]|by intros ?%elem_of_nil].
  - destruct (decide (k = k')) as [->|Hne].
    + split; [left|by eauto].
    + rewrite IH. split; [by right|].
      by intros [?|?]%elem_of_cons.
Qed.

Lemma get_keys {K V} `{EqDecision K} (k : K) (d : Dict.dict K V) v :
  Dict.get k d = Ok v → k ∈ Dict.keys d.
Proof.
  unfold Dict.get. intros H. apply lookup_keys.
  destruct (Dict.lookup k d); [by eauto|done].
Qed.

Lemma mem_true {K V} `{EqDecision K} (k : K) (d : Dict.dict K V) :
  Dict.mem k d = true ↔ k ∈ Dict.keys d.
Proof. unfold Dict.mem. apply bool_decide_eq_true. Qed.

Lemma lookup_set_eq {K V} `{EqDecision K} (k : K) (v : V) (d : Dict.dict K V) :
  Dict.lookup k (Dict.set k v d) = Some v.
Proof.
  induction d as [|[k' v'] d IH]; cbn.
  - by rewrite decide_True.
  - destruct (decide (k = k')) as [->|Hne]; cbn.
    + by rewrite decide_True.
    + by rewrite decide_False.
Qed.

Lemma lookup_set_ne {K V} `{EqDecision K} (k k' : K) (v : V)
    (d : Dict.dict K V) :
  k ≠ k' → Dict.lookup k' (Dict.set k v d) = Dict.lookup k' d.
Proof.
  intros Hne. induction d as [|[k0 v0] d IH]; cbn.
  - by rewrite decide_False.
  - destruct (decide (k = k0)) as [->|Hne0]; cbn.
    + by rewrite !decide_False.
    + destruct (decide (k' = k0)); [done|apply IH].
Qed.

(** The loop that fills [all_submissions] leaves, for every assignment of
    the course, what was fetched for it. *)
Lemma fetch_all_submissions_get {V} (fetch : Z → result V) (ids : list Z)
    (acc all : Dict.dict Z V) :
  for_each (λ all_submissions assignment_id,
              submissions ← fetch assignment_id;
              Ok (Dict.set assignment_id submissions all_submissions))
           ids acc = Ok all →
  ∀ a : Z, (a ∈ ids → Dict.get a all = fetch a)
           ∧ (a ∉ ids → Dict.get a all = Dict.get a acc).
Proof.
  revert acc. induction ids as [|x ids IH]; intros acc; cbn.
  - intros [= <-] a. split; [by intros ?%elem_of_nil|done].
  - destruct (fetch x) as [subs|] eqn:Hx; cbn; [|done].
    intros Hrest a. destruct (IH _ Hrest a) as [Hin Hout].
    destruct (decide (a ∈ ids)) as [Ha|Ha].
    + split; [|by intros []; right].
      intros [->|_]%elem_of_cons; by apply Hin.
    + rewrite (Hout Ha). unfold Dict.get. split.
      * intros [->|?]%elem_of_cons; [|done].
        by rewrite lookup_set_eq.
      * intros Hnot. rewrite lookup_set_ne; [done|].
        intros ->. apply Hnot. left.
Qed.

Lemma fetch_all_submissions_fetched {V} (fetch : Z → result V)
    (ids : list Z) (acc all : Dict.dict Z V) :
  for_each (λ all_submissions assignment_id,
              submissions ← fetch assignment_id;
              Ok (Dict.set assignment_id submissions all_submissions))
           ids acc = Ok all →
  ∀ a, a ∈ ids → ∃ subs, fetch a = Ok subs.
Proof.
  revert acc. induction ids as [|x ids IH]; intros acc; cbn.
  - by intros _ a ?%elem_of_nil.
  - destruct (fetch x) as [subs|] eqn:Hx; cbn; [|done].
    intros Hrest a [->|Ha]%elem_of_cons; [by eauto|]. by eapply IH.
Qed.

End DictFacts.

Module OrderingFacts.
Import Codec Canvas Aggregator AggregatorSpec OrderFacts LoopFacts DictFacts.

Section Ordering.
Variable snap : snapshot.
Hypothesis Hparse : due_dates_parse snap.

Lemma due_date_or_none a :
  a ∈ Dict.keys (assignments snap) →
  due_date snap a = Ok (due_or_none snap a).
Proof.
  intros [d Hd]%Hparse. unfold due_or_none. by rewrite Hd.
Qed.

Lemma due_on_keys a d : due_on snap a d → a ∈ Dict.keys (assignments snap).
Proof.
  unfold due_on, due_date. intros H.
  destruct (Dict.get a (assignments snap)) as [asg|] eqn:Hget; [|done].
  by eapply get_keys.
Qed.

Lemma due_on_or_none a d :
  due_on snap a d ↔
  a ∈ Dict.keys (assignments snap) ∧ due_or_none snap a = Some d.
Proof.
  split.
  - intros H. split; [by eapply due_on_keys|].
    unfold due_or_none. by rewrite H.
  - intros [Ha Hd]. unfold due_on. by rewrite due_date_or_none, Hd.
Qed.

Lemma all_due_dates_ok :
  all_due_dates snap
  = Ok (due_or_none snap <$> Dict.keys (assignments snap)).
Proof.
  unfold all_due_dates.
  rewrite (for_each_pure _ (λ acc a, acc ++ [due_or_none snap a])).
  - by rewrite foldl_snoc_map.
  - intros acc a Ha. by rewrite due_date_or_none.
Qed.

Lemma bucket_ok date :
  bucket snap date
  = Ok (filter (λ a, due_or_none snap a = date)
               (Dict.keys (assignments snap))).
Proof.
  unfold bucket.
  rewrite (for_each_pure _
    (λ acc a, if decide (due_or_none snap a = date)
              then acc ++ [a] else acc)).
  - by rewrite (foldl_snoc_filter (λ a, due_or_none snap a = date)).
  - intros acc a Ha. by rewrite due_date_or_none.
Qed.

Lemma assignment_ids_by_due_date_ok :
  assignment_ids_by_due_date snap = Ok (chronological snap).
Proof.
  unfold assignment_ids_by_due_date. rewrite all_due_dates_ok. cbn.
  rewrite (for_each_pure _
    (λ acc date, acc ++ filter (λ a, due_or_none snap a = date)
                               (Dict.keys (assignments snap)))).
  - by rewrite foldl_app_bind.
  - intros acc date _. by rewrite bucket_ok.
Qed.

(** The dates of the sorted list are the due dates of the course. *)
Lemma elem_of_sorted d :
  d ∈ merge_sort dt_le (remove_dups
        (omap (λ d, d) (due_or_none snap <$> Dict.keys (assignments snap))))
  ↔ ∃ a, due_on snap a d.
Proof.
  rewrite merge_sort_Permutation, elem_of_remove_dups, list_elem_of_omap.
  split.
  - intros (o & (a & -> & Ha)%list_elem_of_fmap & Hd).
    exists a. by apply due_on_or_none.
  - intros (a & (Ha & Hd)%due_on_or_none).
    exists (Some d). split; [|done].
    apply list_elem_of_fmap. by exists a.
Qed.

(** The ordering visits every assignment of the course, and nothing
    else. *)
Lemma elem_of_chronological a :
  a ∈ chronological snap ↔ a ∈ Dict.keys (assignments snap).
Proof.
  unfold chronological. rewrite list_elem_of_bind. split.
  - by intros (date & [_ Ha]%list_elem_of_filter & _).
  - intros Ha. exists (due_or_none snap a).
    split; [by apply list_elem_of_filter|].
    unfold sorted_due_dates. apply elem_of_app.
    destruct (due_or_none snap a) as [d|] eqn:Hd.
    + left. apply list_elem_of_fmap. exists d. split; [done|].
      apply elem_of_sorted. exists a. by apply due_on_or_none.
    + right. by left.
Qed.

(** With a dated assignment in the course, the ordering starts with an
    assignment whose due date is the earliest of the course. *)
Lemma chronological_head :
  (∃ a d, due_on snap a d) →
  ∃ first rest d0, chronological snap = first :: rest
                   ∧ due_on snap first d0 ∧ earliest_due_date snap d0.
Proof.
  intros (a & d & Had).
  pose proof (StronglySorted_merge_sort dt_le (remove_dups
    (omap (λ d, d) (due_or_none snap <$> Dict.keys (assignments snap)))))
    as Hsorted.
  pose proof elem_of_sorted as Helem.
  unfold chronological, sorted_due_dates.
  destruct (merge_sort _ _) as [|d0 dates].
  { exfalso. apply (proj1 (elem_of_nil d)), Helem. by exists a. }
  destruct (proj1 (Helem d0)) as (a0 & Ha0); [left|].
  apply due_on_or_none in Ha0 as [Ha0 Hd0].
  cbn.
  destruct (filter _ _) as [|first firsts] eqn:Hfilter.
  { exfalso. apply (proj1 (elem_of_nil a0)).
    rewrite <-Hfilter. by apply list_elem_of_filter. }
  assert (first ∈ first :: firsts) as Hfirst by left.
  rewrite <-Hfilter in Hfirst. apply list_elem_of_filter in Hfirst as [? ?].
  eexists first, _, d0. split; [done|]. split.
  - by apply due_on_or_none.
  - split; [exists a0; by apply due_on_or_none|].
    intros a' d' Hd'.
    assert (d' ∈ d0 :: dates) as [->|Hin]%elem_of_cons
      by (apply Helem; by exists a').
    + done.
    + apply StronglySorted_inv in Hsorted as [_ Hall].
      rewrite Forall_forall in Hall. by apply Hall.
Qed.
End Ordering.

End OrderingFacts.

Module TrackedFacts.
Import Codec Canvas Aggregator AggregatorSpec OrderFacts LoopFacts DictFacts.

Lemma tracked_skip (T : datetime → Prop) v :
  (∀ t, ¬ T t) → tracked T v v.
Proof.
  intros Hno. split; [by left|]. split.
  - intros t ->. by exists t.
  - intros t Ht. by destruct (Hno t).
Qed.

Lemma tracked_iff (T T' : datetime → Prop) v v' :
  (∀ t, T t ↔ T' t) → tracked T v v' → tracked T' v v'.
Proof.
  intros Hiff (Hnew & Hold & Hall). split; [|split].
  - destruct Hnew as [->|(t & -> & Ht)]; [by left|].
    right. exists t. by rewrite <-Hiff.
  - done.
  - intros t Ht. apply Hall. by rewrite Hiff.
Qed.

Lemma tracked_trans (T1 T2 : datetime → Prop) v v' v'' :
  tracked T1 v v' → tracked T2 v' v'' →
  tracked (λ t, T1 t ∨ T2 t) v v''.
Proof.
  intros (Hnew1 & Hold1 & Hall1) (Hnew2 & Hold2 & Hall2).
  split; [|split].
  - destruct Hnew2 as [->|(t & -> & Ht)]; [|by eauto].
    destruct Hnew1 as [->|(t & -> & Ht)]; eauto.
  - intros t (t' & Hv' & Hle)%Hold1.
    destruct (Hold2 _ Hv') as (t'' & Hv'' & Hle').
    exists t''. split; [done|]. by trans t'.
  - intros t [(t' & Hv' & Hle)%Hall1|Ht]; [|by apply Hall2].
    destruct (Hold2 _ Hv') as (t'' & Hv'' & Hle').
    exists t''. split; [done|]. by trans t'.
Qed.

Section Loop.
Variable snap : snapshot.
Variable ok : option datetime → Prop.
Hypothesis ok_tracked : ∀ T v v', ok v → tracked T v v' → ok v'.

Lemma moved_all_students T m m' :
  all_students snap ok m → moved snap T m m' → all_students snap ok m'.
Proof.
  intros Hm Hmoved s Hs.
  destruct (Hm s Hs) as (v & Hv & Hok).
  destruct (Hmoved s Hs) as (v0 & v' & Hv0 & Hv' & Htracked).
  exists v'. split; [done|]. eapply ok_tracked; [|done]. congruence.
Qed.

Lemma moved_skip (T : string → datetime → Prop) m :
  all_students snap ok m →
  (∀ s t, s ∈ Dict.keys (students snap) → ¬ T s t) →
  moved snap T m m.
Proof.
  intros Hm Hno s Hs. destruct (Hm s Hs) as (v & Hv & _).
  exists v, v. split; [done|]. split; [done|].
  apply tracked_skip. intros t. by apply Hno.
Qed.

(** A loop whose every turn moves the values as [T x] says moves them
    as the union of the [T x] says. *)
Lemma for_each_moved {A}
    (body : gmap string (option datetime) → A
            → result (gmap string (option datetime)))
    (T : A → string → datetime → Prop) l m :
  all_students snap ok m →
  (∀ x m, x ∈ l → all_students snap ok m →
     ∃ m', body m x = Ok m' ∧ moved snap (T x) m m') →
  ∃ m', for_each body l m = Ok m'
        ∧ moved snap (λ s t, ∃ x, x ∈ l ∧ T x s t) m m'.
Proof.
  revert m. induction l as [|x l IH]; intros m Hm Hbody; cbn.
  - exists m. split; [done|]. apply moved_skip; [done|].
    by intros s t _ (x & ?%elem_of_nil & _).
  - destruct (Hbody x m) as (m1 & -> & Hmoved1); [left|done|]. cbn.
    destruct (IH m1) as (m' & -> & Hmoved');
      [by eapply moved_all_students|..].
    { intros y m2 Hy. apply Hbody. by right. }
    exists m'. split; [done|]. intros s Hs.
    destruct (Hmoved1 s Hs) as (v & v1 & Hv & Hv1 & Ht1).
    destruct (Hmoved' s Hs) as (v1' & v' & Hv1' & Hv' & Ht').
    assert (v1' = v1) as -> by congruence.
    exists v, v'. split; [done|]. split; [done|].
    eapply tracked_iff; [|by eapply tracked_trans]. cbn.
    intros t. split.
    + intros [Ht|(y & Hy & Ht)]; [exists x|exists y];
        (split; [|done]); [left|by right].
    + intros (y & [->|Hy]%elem_of_cons & Ht); [by left|].
      right. by exists y.
Qed.
End Loop.

End TrackedFacts.

(** * The nonzero-score walk of last_participation.py *)

Module NonzeroFacts.
Import Codec Canvas Aggregator AggregatorSpec.
Import OrderFacts LoopFacts DictFacts OrderingFacts TrackedFacts.

Lemma float_above_zero_is_float v :
  float_above_zero v = true → is_float v = true.
Proof. by destruct v. Qed.

Lemma positive_float v :
  is_float v = true → positive v = Ok (float_above_zero v).
Proof. by destruct v. Qed.

Lemma float_above_zero_positive v :
  float_above_zero v = true → positive v = Ok true.
Proof. destruct v; try done. cbn. by intros ->. Qed.

Lemma is_Some_tracked (T : datetime → Prop) v v' :
  is_Some v → tracked T v v' → is_Some v'.
Proof.
  intros [t ->] (_ & Hold & _). destruct (Hold t) as (t' & -> & _); eauto.
Qed.

Lemma moved_iff snap (T T' : string → datetime → Prop) m m' :
  (∀ s t, T s t ↔ T' s t) → moved snap T m m' → moved snap T' m m'.
Proof.
  intros Hiff Hmoved s Hs.
  destruct (Hmoved s Hs) as (v & v' & Hv & Hv' & Ht).
  exists v, v'. split; [done|]. split; [done|].
  eapply tracked_iff; [|done]. intros t. apply Hiff.
Qed.

Lemma seed_lookup snap {V} (v : V) s :
  s ∈ Dict.keys (students snap) → seed snap v !! s = Some v.
Proof.
  intros Hs. unfold seed. apply elem_of_list_to_map_1'.
  - by intros y (s' & [= _ ->] & _)%list_elem_of_fmap.
  - apply list_elem_of_fmap. by exists s.
Qed.

Section Walk.
Variable snap : snapshot.
Hypothesis Hparse : due_dates_parse snap.
Hypothesis Hfetched : submissions_fetched snap.

Lemma due_on_inj a d d' : due_on snap a d → due_on snap a d' → d = d'.
Proof. unfold due_on. congruence. Qed.

Lemma nonzero_step_moved a m sub :
  a ∈ Dict.keys (assignments snap) →
  all_students snap is_Some m →
  ∃ m', nonzero_step snap true a m sub = Ok m'
        ∧ moved snap (λ s t, due_on snap a t ∧ str (user_id sub) = s
                             ∧ float_above_zero (score sub) = true) m m'.
Proof.
  intros Ha Hm. unfold nonzero_step.
  destruct (is_float (score sub)) eqn:Hfloat; cbn.
  2:{ exists m. split; [done|]. apply (moved_skip _ is_Some); [done|].
      intros s t _ (_ & _ & Hpos%float_above_zero_is_float). congruence. }
  rewrite (due_date_or_none snap Hparse a Ha). cbn.
  destruct (due_or_none snap a) as [date|] eqn:Hdue.
  2:{ exists m. split; [done|]. apply (moved_skip _ is_Some); [done|].
      intros s t _ ([_ Hd]%(due_on_or_none snap Hparse) & _).
      congruence. }
  assert (due_on snap a date) as Hdate
    by by apply (due_on_or_none snap Hparse).
  destruct (Dict.mem (str (user_id sub)) (students snap)) eqn:Hmem; cbn.
  2:{ exists m. split; [done|]. apply (moved_skip _ is_Some); [done|].
      intros s t Hs (_ & <- & _). apply mem_true in Hs. congruence. }
  apply mem_true in Hmem.
  rewrite (positive_float _ Hfloat). cbn.
  destruct (float_above_zero (score sub)) eqn:Hpos.
  2:{ exists m. split; [done|]. apply (moved_skip _ is_Some); [done|].
      by intros s t _ (_ & _ & ?). }
  destruct (Hm _ Hmem) as (v & Hv & [cur ->]).
  unfold getitem. rewrite Hv. cbn.
  destruct (dt_gt date cur) eqn:Hgt.
  - eexists. split; [done|]. intros s Hs.
    destruct (decide (s = str (user_id sub))) as [->|Hne].
    + exists (Some cur), (Some date). rewrite lookup_insert_eq.
      split; [done|]. split; [done|]. split; [|split].
      * right. by exists date.
      * intros t [= <-]. exists date. split; [done|].
        by apply dt_lt_le, dt_gt_true.
      * intros t (Ht & _). exists date. split; [done|].
        by rewrite (due_on_inj _ _ _ Ht Hdate).
    + destruct (Hm s Hs) as (v & Hv' & _). exists v, v.
      rewrite lookup_insert_ne by done.
      split; [done|]. split; [done|]. apply tracked_skip.
      intros t (_ & Heq & _). congruence.
  - exists m. split; [done|]. intros s Hs.
    destruct (decide (s = str (user_id sub))) as [->|Hne].
    + exists (Some cur), (Some cur).
      split; [done|]. split; [done|]. split; [|split].
      * by left.
      * intros t [= <-]. by exists cur.
      * intros t (Ht & _). exists cur. split; [done|].
        rewrite (due_on_inj _ _ _ Ht Hdate). by apply dt_gt_false.
    + destruct (Hm s Hs) as (v & Hv' & _). exists v, v.
      split; [done|]. split; [done|]. apply tracked_skip.
      intros t (_ & Heq & _). congruence.
Qed.

Lemma nonzero_walk_moved ids m :
  (∀ a, a ∈ ids → a ∈ Dict.keys (assignments snap)) →
  all_students snap is_Some m →
  ∃ m', nonzero_walk snap true ids m = Ok m'
        ∧ moved snap (λ s t, ∃ a, a ∈ ids ∧
            ∃ sub, submission_of snap s a sub
                   ∧ float_above_zero (score sub) = true ∧ due_on snap a t) m m'.
Proof.
  intros Hids Hm. unfold nonzero_walk.
  apply (for_each_moved snap is_Some is_Some_tracked _
    (λ a s t, ∃ sub, submission_of snap s a sub
                     ∧ float_above_zero (score sub) = true ∧ due_on snap a t));
    [done|].
  intros a m0 Ha Hm0.
  destruct (Hfetched a (Hids a Ha)) as [subs Hsubs]. rewrite Hsubs. cbn.
  destruct (for_each_moved snap is_Some is_Some_tracked
    (nonzero_step snap true a)
    (λ sub s t, due_on snap a t ∧ str (user_id sub) = s
                ∧ float_above_zero (score sub) = true) subs m0 Hm0)
    as (m' & Hrun & Hmoved).
  { intros sub m1 _ Hm1. by apply nonzero_step_moved; [apply Hids|]. }
  exists m'. split; [done|]. eapply moved_iff; [|done]. cbn.
  intros s t. split.
  - intros (sub & Hsub & Hd & Hs & Hpos). exists sub.
    split; [by exists subs|done].
  - intros (sub & (subs' & Hsubs' & Hsub & Hs) & Hpos & Hd).
    exists sub. assert (subs' = subs) as -> by congruence. done.
Qed.
End Walk.

(** C3, as the code has it. In a course whose timestamps parse, whose
    submissions were fetched for every assignment and which has an
    assignment with a due date, the nonzero-score walk of
    last_participation.py returns, and the value [v] it leaves for an
    active student [s] is never before the earliest due date of the
    course; it is the greatest due date among the submissions of [s] with
    a float score strictly above zero if there is one, and the earliest
    due date of the course exactly if there is none. *)
Theorem last_non_zero_score_latest (snap : snapshot) (s : string) :
  due_dates_parse snap →
  submissions_fetched snap →
  (∃ a d, due_on snap a d) →
  s ∈ Dict.keys (students snap) →
  ∃ m v floor,
    last_non_zero_score snap true = Ok m
    ∧ m !! s = Some (Some v)
    ∧ earliest_due_date snap floor
    ∧ dt_le floor v
    ∧ ((∃ d, scored_on snap s d) → greatest (scored_on snap s) v)
    ∧ (¬ (∃ d, scored_on snap s d) → v = floor).
Proof.
  intros Hparse Hfetched Hdated Hs.
  destruct (chronological_head snap Hparse Hdated)
    as (first & rest & floor & Hchron & Hfirst & Hearliest).
  unfold last_non_zero_score.
  rewrite (assignment_ids_by_due_date_ok snap Hparse), Hchron. cbn.
  rewrite Hfirst. cbn.
  destruct (nonzero_walk_moved snap Hparse Hfetched (first :: rest)
              (seed snap (Some floor))) as (m & Hrun & Hmoved).
  { intros a Ha. apply (elem_of_chronological snap Hparse).
    by rewrite Hchron. }
  { intros s' Hs'. exists (Some floor).
    split; [by apply seed_lookup|by eexists]. }
  destruct (Hmoved s Hs) as (v0 & v' & Hv0 & Hv' & Hnew & Hold & Hall).
  rewrite seed_lookup in Hv0 by done. injection Hv0 as <-.
  destruct (Hold floor eq_refl) as (v & -> & Hfloor).
  assert (∀ t, (∃ a, a ∈ first :: rest ∧
                 ∃ sub, submission_of snap s a sub
                        ∧ float_above_zero (score sub) = true ∧ due_on snap a t)
               ↔ scored_on snap s t) as Hscored.
  { intros t. unfold scored_on. split.
    - intros (a & _ & sub & ?). by exists a, sub.
    - intros (a & sub & Hsub & Hpos & Hd). exists a. split; [|by exists sub].
      rewrite <-Hchron. apply (elem_of_chronological snap Hparse).
      by eapply due_on_keys. }
  exists m, v, floor. repeat (split; [done|]). split.
  - intros (d & Hd). split.
    + destruct Hnew as [[= ->]|(t & [= ->] & Ht)]; [|by apply Hscored].
      destruct (Hall d) as (t' & [= <-] & Hle); [by apply Hscored|].
      destruct Hearliest as [_ Hmin]. destruct Hd as (a & sub & ? & ? & Ha).
      assert (d = floor) as <-
        by (apply (anti_symm dt_le); [done|by eapply Hmin]).
      by exists a, sub.
    + intros d' Hd'. apply Hscored in Hd'.
      by destruct (Hall d' Hd') as (t' & [= <-] & Hle).
  - intros Hnone. destruct Hnew as [[= ->]|(t & _ & Ht)]; [done|].
    destruct Hnone. exists t. by apply Hscored.
Qed.

End NonzeroFacts.

(** * The last-submission walk of last_participation.py *)

Module SubmissionFacts.
Import Codec Canvas Aggregator AggregatorSpec.
Import OrderFacts LoopFacts DictFacts TrackedFacts NonzeroFacts.

Lemma any_value_tracked (T : datetime → Prop) v v' :
  any_value v → tracked T v v' → any_value v'.
Proof. done. Qed.

Section Walk.
Variable snap : snapshot.
Hypothesis Hparse : submitted_parse snap.

Lemma submission_step_moved m sub :
  (∃ t, z_to_dt (submitted_at sub) = Ok t) →
  all_students snap any_value m →
  ∃ m', submission_step snap m sub = Ok m'
        ∧ moved snap (λ s t, str (user_id sub) = s
             ∧ z_to_dt (submitted_at sub) = Ok (Some t)) m m'.
Proof.
  intros [submitted Hsub] Hm.
  set (T := λ (s : string) (t : datetime),
              str (user_id sub) = s
              ∧ z_to_dt (submitted_at sub) = Ok (Some t)).
  unfold submission_step. rewrite Hsub. cbn.
  destruct submitted as [t|].
  2:{ exists m. split; [done|]. apply (moved_skip _ any_value); [done|].
      intros s t _ (_ & ?). congruence. }
  destruct (Dict.mem (str (user_id sub)) (students snap)) eqn:Hmem; cbn.
  2:{ exists m. split; [done|]. apply (moved_skip _ any_value); [done|].
      intros s t' Hs (<- & _). apply mem_true in Hs. congruence. }
  apply mem_true in Hmem.
  destruct (Hm _ Hmem) as (v & Hv & _).
  unfold getitem. rewrite Hv. cbn.
  assert (∀ m' : gmap string (option datetime),
            (∀ s, s ≠ str (user_id sub) → m' !! s = m !! s) →
            (∃ v', m' !! str (user_id sub) = Some v'
                   ∧ tracked (λ t', Some t = Some t') v v') →
            moved snap T m m')
    as Hmoved.
  { intros m' Hother (v' & Hv' & Htracked) s Hs.
    destruct (decide (s = str (user_id sub))) as [->|Hne].
    - exists v, v'. split; [done|]. split; [done|].
      eapply tracked_iff; [|done]. intros t'. unfold T. rewrite Hsub.
      split; [by intros [= ->]|by intros [_ [= ->]]].
    - destruct (Hm s Hs) as (w & Hw & _). exists w, w.
      rewrite Hother by done. split; [done|]. split; [done|].
      apply tracked_skip. intros t' (Heq & _). congruence. }
  destruct v as [cur|].
  - destruct (dt_gt t cur) eqn:Hgt.
    + eexists. split; [done|]. apply Hmoved.
      * intros s Hne. by rewrite lookup_insert_ne.
      * exists (Some t). rewrite lookup_insert_eq. split; [done|].
        split; [|split].
        -- right. by exists t.
        -- intros t' [= <-]. exists t. split; [done|].
           by apply dt_lt_le, dt_gt_true.
        -- intros t' [= <-]. by exists t.
    + exists m. split; [done|]. apply Hmoved; [done|].
      exists (Some cur). split; [done|]. split; [|split].
      * by left.
      * intros t' [= <-]. by exists cur.
      * intros t' [= <-]. exists cur. split; [done|].
        by apply dt_gt_false.
  - eexists. split; [done|]. apply Hmoved.
    + intros s Hne. by rewrite lookup_insert_ne.
    + exists (Some t). rewrite lookup_insert_eq. split; [done|].
      split; [|split].
      * right. by exists t.
      * done.
      * intros t' [= <-]. by exists t.
Qed.

Lemma submission_walk_moved ids m :
  (∀ a, a ∈ ids → a ∈ Dict.keys (all_submissions snap)) →
  all_students snap any_value m →
  ∃ m', submission_walk snap ids m = Ok m'
        ∧ moved snap (λ s t, ∃ a, a ∈ ids ∧
            ∃ sub, submission_of snap s a sub
                   ∧ z_to_dt (submitted_at sub) = Ok (Some t)) m m'.
Proof.
  intros Hids Hm. unfold submission_walk.
  apply (for_each_moved snap any_value any_value_tracked _
    (λ a s t, ∃ sub, submission_of snap s a sub
                     ∧ z_to_dt (submitted_at sub) = Ok (Some t)));
    [done|].
  intros a m0 Ha Hm0.
  destruct (proj2 (lookup_keys a (all_submissions snap)) (Hids a Ha))
    as [subs Hlookup].
  assert (Dict.get a (all_submissions snap) = Ok subs) as Hsubs
    by (unfold Dict.get; by rewrite Hlookup).
  rewrite Hsubs. cbn.
  destruct (for_each_moved snap any_value any_value_tracked
    (submission_step snap)
    (λ sub s t, str (user_id sub) = s
                ∧ z_to_dt (submitted_at sub) = Ok (Some t)) subs m0 Hm0)
    as (m' & Hrun & Hmoved).
  { intros sub m1 Hsub Hm1. apply submission_step_moved; [|done].
    by eapply Hparse. }
  exists m'. split; [done|]. eapply moved_iff; [|done]. cbn.
  intros s t. split.
  - intros (sub & Hsub & Hs & Ht). exists sub.
    split; [by exists subs|done].
  - intros (sub & (subs' & Hsubs' & Hsub & Hs) & Ht).
    exists sub. assert (subs' = subs) as -> by congruence. done.
Qed.
End Walk.

(** C4. When every [submitted_at] is null or a timestamp [z_to_dt]
    accepts, the last-submission walk returns, and the value it leaves
    for an active student [s] is the greatest [submitted_at] instant
    over the submissions of [s] to all assignments, dated or not, or
    [None] when no submission of [s] carries one. *)
Theorem last_submission_latest (snap : snapshot) (s : string) :
  submitted_parse snap →
  s ∈ Dict.keys (students snap) →
  ∃ m v,
    last_submission snap = Ok m
    ∧ m !! s = Some v
    ∧ match v with
      | Some t => greatest (submitted_on snap s) t
      | None => ∀ t, ¬ submitted_on snap s t
      end.
Proof.
  intros Hparse Hs. unfold last_submission.
  destruct (submission_walk_moved snap Hparse
              (Dict.keys (all_submissions snap)) (seed snap None))
    as (m & Hrun & Hmoved); [done|..].
  { intros s' Hs'. exists None. split; [by apply seed_lookup|done]. }
  destruct (Hmoved s Hs) as (v0 & v & Hv0 & Hv & Hnew & _ & Hall).
  rewrite seed_lookup in Hv0 by done. injection Hv0 as <-.
  assert (∀ t, (∃ a, a ∈ Dict.keys (all_submissions snap) ∧
                 ∃ sub, submission_of snap s a sub
                        ∧ z_to_dt (submitted_at sub) = Ok (Some t))
               ↔ submitted_on snap s t) as Hsubmitted.
  { intros t. unfold submitted_on. split.
    - intros (a & _ & sub & ?). by exists a, sub.
    - intros (a & sub & Hsub & Ht). exists a. split; [|by exists sub].
      destruct Hsub as (subs & Hget & _). by eapply get_keys. }
  exists m, v. split; [done|]. split; [done|].
  destruct v as [t|].
  - split.
    + destruct Hnew as [[=]|(t' & [= <-] & Ht)]. by apply Hsubmitted.
    + intros t' Ht'. apply Hsubmitted in Ht'.
      by destruct (Hall t' Ht') as (t'' & [= <-] & Hle).
  - intros t Ht. apply Hsubmitted in Ht.
    by destruct (Hall t Ht) as (t' & [=] & _).
Qed.

End SubmissionFacts.

(** * What the nonzero-score walk does to one value, and the seed *)

Module WalkFacts.
Import Codec Canvas Aggregator AggregatorSpec AggregatorExamples.
Import OrderFacts LoopFacts DictFacts OrderingFacts NonzeroFacts.

Lemma kept_or_later_refl v : kept_or_later v v.
Proof. by left. Qed.

Lemma kept_or_later_trans v1 v2 v3 :
  kept_or_later v1 v2 → kept_or_later v2 v3 → kept_or_later v1 v3.
Proof.
  intros [->|(d1 & d2 & -> & -> & H12)] [->|(d2' & d3 & Hd2 & -> & H23)].
  - by left.
  - right. by exists d2', d3.
  - right. by exists d1, d2.
  - right. injection Hd2 as <-. exists d1, d3.
    repeat split; try done. by eapply dt_lt_trans.
Qed.

Lemma never_earlier_refl m : never_earlier m m.
Proof. intros s v Hv. exists v. split; [done|apply kept_or_later_refl]. Qed.

Lemma never_earlier_trans m1 m2 m3 :
  never_earlier m1 m2 → never_earlier m2 m3 → never_earlier m1 m3.
Proof.
  intros H12 H23 s v1 Hv1.
  destruct (H12 s v1 Hv1) as (v2 & Hv2 & Hk12).
  destruct (H23 s v2 Hv2) as (v3 & Hv3 & Hk23).
  exists v3. split; [done|]. by eapply kept_or_later_trans.
Qed.

Lemma for_each_never_earlier {A}
    (body : gmap string (option datetime) → A
            → result (gmap string (option datetime))) l m m' :
  (∀ m x m', body m x = Ok m' → never_earlier m m') →
  for_each body l m = Ok m' → never_earlier m m'.
Proof.
  intros Hbody. revert m. induction l as [|x l IH]; intros m; cbn.
  - intros [= ->]. apply never_earlier_refl.
  - destruct (body m x) as [m1|] eqn:Hx; cbn; [|done].
    intros Hrest. eapply never_earlier_trans; eauto.
Qed.

Lemma nonzero_step_never_earlier snap guarded a m sub m' :
  nonzero_step snap guarded a m sub = Ok m' → never_earlier m m'.
Proof.
  unfold nonzero_step.
  destruct (negb (is_float (score sub)));
    [intros [= ->]; apply never_earlier_refl|].
  destruct (due_date snap a) as [[date|]|]; cbn; [| |done];
    [|intros [= ->]; apply never_earlier_refl].
  destruct (guarded && negb (Dict.mem (str (user_id sub)) (students snap)));
    [intros [= ->]; apply never_earlier_refl|].
  destruct (positive (score sub)) as [[]|]; cbn; [| |done];
    [|intros [= ->]; apply never_earlier_refl].
  unfold getitem.
  destruct (m !! str (user_id sub)) as [[cur|]|] eqn:Hcur; cbn; [| done..].
  destruct (dt_gt date cur) eqn:Hgt;
    [|intros [= ->]; apply never_earlier_refl].
  intros [= <-] s v Hv.
  destruct (decide (s = str (user_id sub))) as [->|Hne].
  - rewrite lookup_insert_eq. exists (Some date). split; [done|].
    right. exists cur, date. repeat split; [congruence|by apply dt_gt_true].
  - rewrite lookup_insert_ne by done. exists v. split; [done|by left].
Qed.

Lemma nonzero_walk_never_earlier snap guarded ids m m' :
  nonzero_walk snap guarded ids m = Ok m' → never_earlier m m'.
Proof.
  apply for_each_never_earlier. clear. intros m a m'.
  destruct (Dict.get a (all_submissions snap)) as [subs|]; cbn; [|done].
  apply for_each_never_earlier. intros ? ? ?.
  apply nonzero_step_never_earlier.
Qed.

(** C10. Along the nonzero-score walk of either script the value of
    every student only moves forward: one turn of the inner loop leaves
    it as it was or replaces it by a strictly later due date, and so does
    every stretch of the walk, from whatever state it starts in. *)
Theorem last_non_zero_score_monotone (snap : snapshot) (guarded : bool)
    (m : gmap string (option datetime)) (s : string)
    (v : option datetime) :
  m !! s = Some v →
  (∀ a sub m', nonzero_step snap guarded a m sub = Ok m' →
     ∃ v', m' !! s = Some v' ∧ kept_or_later v v')
  ∧ (∀ ids m', nonzero_walk snap guarded ids m = Ok m' →
       ∃ v', m' !! s = Some v' ∧ kept_or_later v v').
Proof.
  intros Hv. split.
  - intros a sub m' Hstep.
    by apply (nonzero_step_never_earlier _ _ _ _ _ _ Hstep).
  - intros ids m' Hwalk.
    by apply (nonzero_walk_never_earlier _ _ _ _ _ Hwalk).
Qed.

Lemma last_non_zero_score_monotone_witness :
  (∀ a sub m',
     nonzero_step course true a (seed course (Some jan_10)) sub = Ok m' →
     ∃ v', m' !! "1" = Some v' ∧ kept_or_later (Some jan_10) v')
  ∧ (∀ ids m',
       nonzero_walk course true ids (seed course (Some jan_10)) = Ok m' →
       ∃ v', m' !! "1" = Some v' ∧ kept_or_later (Some jan_10) v').
Proof.
  apply last_non_zero_score_monotone. reflexivity.
Defined.

End WalkFacts.

(** * Scores that are not floats, courses without due dates, students who left *)

Module CaseFacts.
Import Codec Canvas Aggregator AggregatorSpec AggregatorExamples.
Import OrderFacts LoopFacts DictFacts OrderingFacts NonzeroFacts.
Import SubmissionFacts.

#[local] Arguments nonzero_walk : simpl never.

(** ** The example course satisfies the assumptions of the walks *)

Lemma course_due_dates_parse : due_dates_parse course.
Proof.
  intros a Ha. vm_compute in Ha.
  repeat (apply elem_of_cons in Ha as [->|Ha]);
    [by eexists; vm_compute..|by apply elem_of_nil in Ha].
Qed.

Lemma course_submissions_fetched : submissions_fetched course.
Proof.
  intros a Ha. vm_compute in Ha.
  repeat (apply elem_of_cons in Ha as [->|Ha]);
    [by eexists; vm_compute..|by apply elem_of_nil in Ha].
Qed.

Lemma course_submitted_parse : submitted_parse course.
Proof.
  intros a subs sub Hget Hsub.
  assert (a ∈ Dict.keys (all_submissions course)) as Ha by by eapply get_keys.
  vm_compute in Ha.
  repeat (apply elem_of_cons in Ha as [->|Ha]);
    [..|by apply elem_of_nil in Ha];
    injection Hget as <-;
    repeat (apply elem_of_cons in Hsub as [->|Hsub]);
    first [by eexists; vm_compute | by apply elem_of_nil in Hsub].
Qed.

Lemma course_dated : ∃ a d, due_on course a d.
Proof. exists 10, jan_10. by vm_compute. Qed.

Lemma course_student : "1" ∈ Dict.keys (students course).
Proof. vm_compute. left. Qed.

Lemma last_non_zero_score_latest_witness :
  ∃ m v floor,
    last_non_zero_score course true = Ok m
    ∧ m !! "1" = Some (Some v)
    ∧ earliest_due_date course floor
    ∧ dt_le floor v
    ∧ ((∃ d, scored_on course "1" d) → greatest (scored_on course "1") v)
    ∧ (¬ (∃ d, scored_on course "1" d) → v = floor).
Proof.
  exact (last_non_zero_score_latest course "1" course_due_dates_parse
           course_submissions_fetched course_dated course_student).
Defined.

Lemma last_submission_latest_witness :
  ∃ m v,
    last_submission course = Ok m
    ∧ m !! "1" = Some v
    ∧ match v with
      | Some t => greatest (submitted_on course "1") t
      | None => ∀ t, ¬ submitted_on course "1" t
      end.
Proof.
  exact (last_submission_latest course "1" course_submitted_parse
           course_student).
Defined.

(** The course of the specification's example: the last nonzero due
    date of the student is 1 February although the undated assignment
    has the higher score, and the last submission is the one to the
    undated assignment. *)
Lemma last_participation_course :
  last_participation course
  = Ok ({[ "1" := Some feb_01 ]}, {[ "1" := Some mar_01 ]}).
Proof. by vm_compute. Qed.

(** A snapshot whose [all_submissions] was filled by the loop of the
    scripts has the submissions of every assignment. *)
Lemma fetched_snapshot fetch assignments students all :
  fetch_all_submissions fetch assignments = Ok all →
  submissions_fetched (Snapshot assignments students all).
Proof.
  intros Hall a Ha. cbn in *.
  destruct (fetch_all_submissions_get _ _ _ _ Hall a) as [Hin _].
  rewrite (Hin Ha).
  destruct (fetch_all_submissions_fetched fetch _ _ _ Hall a Ha) as [subs ->].
  by exists subs.
Qed.

(** ** C5: only a float is a score *)

(** C5, as the code has it. The nonzero-score walk skips a submission,
    whatever else holds of it, when the type of its score is not
    [float]: a null, a string and also an integer. A submission with a
    float score strictly above zero, on an assignment due on [date], of
    an active student whose value [cur] is strictly before [date], moves
    that value to [date]. *)
Theorem nonzero_step_float_only (snap : snapshot) (guarded : bool) (a : Z)
    (m : gmap string (option datetime)) (sub : submission) :
  (is_float (score sub) = false → nonzero_step snap guarded a m sub = Ok m)
  ∧ (∀ date cur,
       is_float (score sub) = true →
       positive (score sub) = Ok true →
       due_on snap a date →
       str (user_id sub) ∈ Dict.keys (students snap) →
       m !! str (user_id sub) = Some (Some cur) →
       dt_lt cur date →
       nonzero_step snap guarded a m sub
       = Ok (<[str (user_id sub) := Some date]> m)).
Proof.
  split.
  - intros Hfloat. unfold nonzero_step. by rewrite Hfloat.
  - intros date cur Hfloat Hpos Hdate Hs Hcur Hlt. unfold nonzero_step.
    rewrite Hfloat. cbn. rewrite Hdate. cbn.
    rewrite (proj2 (mem_true _ _) Hs), andb_false_r, Hpos.
    cbn. unfold getitem. rewrite Hcur. cbn.
    by rewrite (proj2 (dt_gt_true date cur) Hlt).
Qed.

Lemma nonzero_step_float_only_witness :
  nonzero_step course_with_integer_score true 11
    (seed course_with_integer_score (Some jan_10)) integer_score
  = Ok (seed course_with_integer_score (Some jan_10))
  ∧ nonzero_step course true 11 (seed course (Some jan_10))
      (Submission 1 (JFloat 5) (Some false) (Some "2024-01-31T23:00:00Z"))
    = Ok (<["1" := Some feb_01]> (seed course (Some jan_10))).
Proof.
  split.
  - exact (proj1 (nonzero_step_float_only course_with_integer_score true 11
                    (seed course_with_integer_score (Some jan_10))
                    integer_score) eq_refl).
  - exact (proj2 (nonzero_step_float_only course true 11
                    (seed course (Some jan_10))
                    (Submission 1 (JFloat 5) (Some false)
                       (Some "2024-01-31T23:00:00Z")))
                 feb_01 jan_10 eq_refl eq_refl eq_refl course_student
                 eq_refl eq_refl).
Defined.

(** C5 fails as stated: the active student 1 has the integer score 5,
    strictly above zero, on assignment 11, due on 1 February, strictly
    after the student's 10 January; the turn of the walk on that
    submission does not advance the value. *)
Lemma integer_score_not_counted :
  score integer_score = JInt 5
  ∧ positive (score integer_score) = Ok true
  ∧ due_on course_with_integer_score 11 feb_01
  ∧ "1" ∈ Dict.keys (students course_with_integer_score)
  ∧ seed course_with_integer_score (Some jan_10) !! "1" = Some (Some jan_10)
  ∧ dt_lt jan_10 feb_01
  ∧ nonzero_step course_with_integer_score true 11
      (seed course_with_integer_score (Some jan_10)) integer_score
    = Ok (seed course_with_integer_score (Some jan_10)).
Proof.
  repeat split; try by vm_compute. vm_compute. left.
Qed.

(** C3 fails as stated: in the same course the student has a submission
    with a score strictly above zero, the integer 5, on the assignment
    due on 1 February, and the walk leaves the student at 10 January, the
    floor, which is not the greatest due date of the student's
    submissions with a score above zero. *)
Lemma integer_score_keeps_floor :
  "1" ∈ Dict.keys (students course_with_integer_score)
  ∧ numeric_scored_on course_with_integer_score "1" feb_01
  ∧ last_non_zero_score course_with_integer_score true
    = Ok {[ "1" := Some jan_10 ]}
  ∧ dt_lt jan_10 feb_01
  ∧ ¬ greatest (numeric_scored_on course_with_integer_score "1") jan_10.
Proof.
  assert (numeric_scored_on course_with_integer_score "1" feb_01) as Hfeb.
  { exists 11, integer_score. split; [|by vm_compute].
    exists [integer_score]. split; [by vm_compute|].
    split; [left|by vm_compute]. }
  split; [vm_compute; left|]. split; [done|]. split; [by vm_compute|].
  split; [by vm_compute|].
  intros [_ Hmax]. by apply (Hmax feb_01 Hfeb).
Qed.

(** ** C9: the seed of a course without due dates *)

Lemma foldl_keep {A S} (l : list A) (s : S) : foldl (λ s _, s) s l = s.
Proof. by induction l. Qed.

Section Undated.
Variable snap : snapshot.
Hypothesis Hparse : due_dates_parse snap.
Hypothesis Hfetched : submissions_fetched snap.
Hypothesis Hundated : ∀ a d, ¬ due_on snap a d.

Lemma undated_due_date a :
  a ∈ Dict.keys (assignments snap) → due_date snap a = Ok None.
Proof.
  intros Ha. rewrite (due_date_or_none snap Hparse a Ha).
  destruct (due_or_none snap a) as [d|] eqn:Hd; [|done].
  destruct (Hundated a d). by apply (due_on_or_none snap Hparse).
Qed.

Lemma undated_walk guarded ids m :
  (∀ a, a ∈ ids → a ∈ Dict.keys (assignments snap)) →
  nonzero_walk snap guarded ids m = Ok m.
Proof.
  intros Hids. unfold nonzero_walk.
  rewrite (for_each_pure _ (λ m _, m)); [by rewrite foldl_keep|].
  intros m0 a Ha.
  destruct (Hfetched a (Hids a Ha)) as [subs ->]. cbn.
  rewrite (for_each_pure _ (λ m _, m)); [by rewrite foldl_keep|].
  intros m1 sub _. unfold nonzero_step.
  destruct (negb (is_float (score sub))); [done|].
  by rewrite (undated_due_date a (Hids a Ha)).
Qed.
End Undated.

(** C9, as the code has it. In a course none of whose assignments has a
    due date, the seed step raises (the IndexError of
    [assignment_ids_by_due_date[0]]) only when the course has no
    assignment at all. When it has assignments, the ordering holds them
    all, in the bucket of the undated, the seed is [None], the walk
    skips every submission, and every student is left with [None]. *)
Theorem seed_without_due_dates (snap : snapshot) (guarded : bool) :
  due_dates_parse snap →
  submissions_fetched snap →
  (∀ a d, ¬ due_on snap a d) →
  last_non_zero_score snap guarded
  = match assignments snap with
    | [] => Raise IndexError
    | _ :: _ => Ok (seed snap None)
    end.
Proof.
  intros Hparse Hfetched Hundated. unfold last_non_zero_score.
  rewrite (assignment_ids_by_due_date_ok snap Hparse). cbn.
  destruct (assignments snap) as [|[k asg] others] eqn:Hassignments.
  - assert (chronological snap = []) as ->; [|done].
    apply elem_of_nil_inv. intros a Ha%(elem_of_chronological snap Hparse).
    rewrite Hassignments in Ha. by apply elem_of_nil in Ha.
  - pose proof (elem_of_chronological snap Hparse) as Hchron.
    destruct (chronological snap) as [|first rest] eqn:Hordering.
    { destruct (proj1 (elem_of_nil k)). apply Hchron.
      rewrite Hassignments. cbn. left. }
    assert (first ∈ Dict.keys (assignments snap)) as Hfirst
      by (apply Hchron; left).
    cbn. rewrite (undated_due_date snap Hparse Hundated first Hfirst). cbn.
    apply undated_walk; try done. intros a Ha. by apply Hchron.
Qed.

Lemma undated_course_due_dates_parse : due_dates_parse undated_course.
Proof.
  intros a Ha. vm_compute in Ha. apply list_elem_of_singleton in Ha as ->.
  by eexists; vm_compute.
Qed.

Lemma undated_course_submissions_fetched : submissions_fetched undated_course.
Proof.
  intros a Ha. vm_compute in Ha. apply list_elem_of_singleton in Ha as ->.
  by eexists; vm_compute.
Qed.

Lemma undated_course_undated a d : ¬ due_on undated_course a d.
Proof.
  intros Hd.
  assert (a ∈ Dict.keys (assignments undated_course)) as Ha
    by (eapply due_on_keys; done).
  vm_compute in Ha. apply list_elem_of_singleton in Ha as ->.
  by vm_compute in Hd.
Qed.

Lemma seed_without_due_dates_witness :
  last_non_zero_score undated_course true = Ok (seed undated_course None)
  ∧ last_non_zero_score empty_course true = Raise IndexError.
Proof.
  split.
  - exact (seed_without_due_dates undated_course true
             undated_course_due_dates_parse
             undated_course_submissions_fetched undated_course_undated).
  - apply (seed_without_due_dates empty_course true).
    + by intros a Ha%elem_of_nil.
    + by intros a Ha%elem_of_nil.
    + intros a d Hd. by vm_compute in Hd.
Defined.

(** C9 fails as stated: a course with one assignment, which has no due
    date, is a course in which no assignment carries a due date; its
    ordering is not empty, nothing raises, and the seed is [None]. *)
Lemma undated_course_seed_defined :
  (∀ a d, ¬ due_on undated_course a d)
  ∧ assignment_ids_by_due_date undated_course = Ok [12]
  ∧ first_due_date undated_course [12] = Ok None
  ∧ last_non_zero_score undated_course true = Ok {[ "1" := None ]}
  ∧ last_non_zero_score undated_course false = Ok {[ "1" := None ]}.
Proof.
  split; [exact undated_course_undated|]. by vm_compute.
Qed.

(** ** C1: the submissions of students who are not enrolled *)

(** last_participation.py: a turn of either walk on a submission of a
    student who is not among [students] leaves the mapping as it is. *)
Lemma nonzero_step_inactive snap a m sub m' :
  str (user_id sub) ∉ Dict.keys (students snap) →
  nonzero_step snap true a m sub = Ok m' → m' = m.
Proof.
  intros Hs. unfold nonzero_step.
  destruct (negb (is_float (score sub))); [by intros [= ->]|].
  destruct (due_date snap a) as [[date|]|]; cbn; [| |done];
    [|by intros [= ->]].
  destruct (Dict.mem (str (user_id sub)) (students snap)) eqn:Hmem; cbn;
    [|by intros [= ->]].
  by apply mem_true in Hmem.
Qed.

Lemma submission_step_inactive snap m sub m' :
  str (user_id sub) ∉ Dict.keys (students snap) →
  submission_step snap m sub = Ok m' → m' = m.
Proof.
  intros Hs. unfold submission_step.
  destruct (z_to_dt (submitted_at sub)) as [[t|]|]; cbn; [| |done];
    [|by intros [= ->]].
  destruct (Dict.mem (str (user_id sub)) (students snap)) eqn:Hmem; cbn;
    [|by intros [= ->]].
  by apply mem_true in Hmem.
Qed.

(** last_nonzero_score.py: the same turn, on a submission with a float
    score strictly above zero on a dated assignment, looks the student
    up in [last_non_zero_score], which has the enrolled students only. *)
Lemma nonzero_step_unguarded_inactive snap a m sub date :
  is_float (score sub) = true →
  positive (score sub) = Ok true →
  due_on snap a date →
  m !! str (user_id sub) = None →
  nonzero_step snap false a m sub = Raise KeyError.
Proof.
  intros Hfloat Hpos Hdate Hm. unfold nonzero_step.
  rewrite Hfloat. cbn. rewrite Hdate. cbn. rewrite Hpos. cbn.
  unfold getitem. by rewrite Hm.
Qed.

Lemma lookup_without_unenrolled snap a :
  Dict.lookup a (all_submissions (without_unenrolled snap))
  = filter (enrolled snap) <$> Dict.lookup a (all_submissions snap).
Proof.
  unfold without_unenrolled. cbn.
  induction (all_submissions snap) as [|[k subs] d IH]; cbn; [done|].
  by destruct (decide (a = k)).
Qed.

Lemma keys_without_unenrolled snap :
  Dict.keys (all_submissions (without_unenrolled snap))
  = Dict.keys (all_submissions snap).
Proof.
  unfold without_unenrolled. cbn. unfold Dict.keys.
  rewrite <-list_fmap_compose.
  apply list_fmap_ext. by intros ? [k subs] ?.
Qed.

#[local] Arguments without_unenrolled : simpl never.

Lemma for_each_collect_inv {A B} (f : A → result B) l acc r :
  for_each (λ acc a, d ← f a; Ok (acc ++ [d])) l acc = Ok r →
  ∀ a, a ∈ l → ∃ d, f a = Ok d.
Proof.
  revert acc. induction l as [|x l IH]; intros acc; cbn.
  - by intros _ a ?%elem_of_nil.
  - destruct (f x) as [d|] eqn:Hx; cbn; [|done].
    intros Hrest a [->|Ha]%elem_of_cons; [by eauto|]. by eapply IH.
Qed.

Lemma all_due_dates_inv snap l :
  all_due_dates snap = Ok l → due_dates_parse snap.
Proof.
  unfold all_due_dates. intros Hdates a Ha.
  by eapply (for_each_collect_inv (due_date snap)).
Qed.

Lemma nonzero_inner_without_unenrolled snap a subs m :
  (∃ d, due_date snap a = Ok d) →
  for_each (nonzero_step snap true a) (filter (enrolled snap) subs) m
  = for_each (nonzero_step snap true a) subs m.
Proof.
  intros [d Hd]. revert m. induction subs as [|sub subs IH]; intros m; [done|].
  rewrite filter_cons. destruct (decide (enrolled snap sub)) as [Hin|Hout].
  - cbn. destruct (nonzero_step snap true a m sub); cbn; [apply IH|done].
  - rewrite IH. cbn.
    assert (nonzero_step snap true a m sub = Ok m) as ->; [|done].
    unfold nonzero_step. destruct (negb (is_float (score sub))); [done|].
    rewrite Hd. cbn. destruct d as [date|]; [|done].
    unfold enrolled in Hout. by destruct (Dict.mem _ _).
Qed.

Lemma submission_inner_without_unenrolled snap subs m :
  (∀ sub, sub ∈ subs → ∃ t, z_to_dt (submitted_at sub) = Ok t) →
  for_each (submission_step snap) (filter (enrolled snap) subs) m
  = for_each (submission_step snap) subs m.
Proof.
  revert m. induction subs as [|sub subs IH]; intros m Hparse; [done|].
  rewrite filter_cons. destruct (decide (enrolled snap sub)) as [Hin|Hout].
  - cbn. destruct (submission_step snap m sub); cbn; [|done].
    apply IH. intros sub' Hsub'. apply Hparse. by right.
  - rewrite IH by (intros sub' Hsub'; apply Hparse; by right). cbn.
    assert (submission_step snap m sub = Ok m) as ->; [|done].
    unfold submission_step. destruct (Hparse sub) as [t ->]; [left|]. cbn.
    destruct t as [t|]; [|done].
    unfold enrolled in Hout. by destruct (Dict.mem _ _).
Qed.

Lemma get_without_unenrolled snap a :
  Dict.get a (all_submissions (without_unenrolled snap))
  = subs ← Dict.get a (all_submissions snap); Ok (filter (enrolled snap) subs).
Proof.
  unfold Dict.get. rewrite lookup_without_unenrolled.
  by destruct (Dict.lookup a (all_submissions snap)).
Qed.

Lemma nonzero_walk_without_unenrolled snap ids m :
  (∀ a, a ∈ ids → ∃ d, due_date snap a = Ok d) →
  nonzero_walk (without_unenrolled snap) true ids m
  = nonzero_walk snap true ids m.
Proof.
  unfold nonzero_walk. revert m.
  induction ids as [|a ids IH]; intros m Hids; [done|].
  cbn. rewrite get_without_unenrolled.
  destruct (Dict.get a (all_submissions snap)) as [subs|]; cbn; [|done].
  change (nonzero_step (without_unenrolled snap)) with (nonzero_step snap).
  rewrite nonzero_inner_without_unenrolled by (apply Hids; left).
  destruct (for_each (nonzero_step snap true a) subs m); cbn; [|done].
  apply IH. intros a' Ha'. apply Hids. by right.
Qed.

Lemma submission_walk_without_unenrolled snap ids m :
  submitted_parse snap →
  submission_walk (without_unenrolled snap) ids m
  = submission_walk snap ids m.
Proof.
  intros Hparse. unfold submission_walk. revert m.
  induction ids as [|a ids IH]; intros m; [done|].
  cbn. rewrite get_without_unenrolled.
  destruct (Dict.get a (all_submissions snap)) as [subs|] eqn:Hsubs; cbn;
    [|done].
  change (submission_step (without_unenrolled snap)) with (submission_step snap).
  rewrite submission_inner_without_unenrolled
    by (intros sub Hsub; by eapply Hparse).
  destruct (for_each (submission_step snap) subs m); cbn; [apply IH|done].
Qed.

(** last_participation.py gives for a course what it gives for the course
    without the submissions of the students who are not enrolled: the
    nonzero-score walk always, the last-submission walk when every
    [submitted_at] can be read, for it reads the timestamp of a
    submission before it looks at the student. *)
Lemma last_non_zero_score_without_unenrolled snap :
  last_non_zero_score (without_unenrolled snap) true
  = last_non_zero_score snap true.
Proof.
  unfold last_non_zero_score.
  change (assignment_ids_by_due_date (without_unenrolled snap))
    with (assignment_ids_by_due_date snap).
  destruct (assignment_ids_by_due_date snap) as [ordering|] eqn:Hordering;
    cbn; [|done].
  change (first_due_date (without_unenrolled snap) ordering)
    with (first_due_date snap ordering).
  destruct (first_due_date snap ordering) as [first|]; cbn; [|done].
  assert (due_dates_parse snap) as Hparse.
  { unfold assignment_ids_by_due_date in Hordering.
    destruct (all_due_dates snap) eqn:Hdates; [|done].
    by eapply all_due_dates_inv. }
  rewrite (assignment_ids_by_due_date_ok snap Hparse) in Hordering.
  injection Hordering as <-.
  rewrite nonzero_walk_without_unenrolled; [done|].
  intros a Ha. apply Hparse. by apply (elem_of_chronological snap Hparse).
Qed.

Lemma last_submission_without_unenrolled snap :
  submitted_parse snap →
  last_submission (without_unenrolled snap) = last_submission snap.
Proof.
  intros Hparse. unfold last_submission.
  rewrite keys_without_unenrolled.
  by rewrite submission_walk_without_unenrolled.
Qed.

Lemma last_participation_without_unenrolled snap :
  submitted_parse snap →
  last_participation (without_unenrolled snap) = last_participation snap.
Proof.
  intros Hparse. unfold last_participation.
  by rewrite last_non_zero_score_without_unenrolled,
    last_submission_without_unenrolled.
Qed.

(** C1 at the course in which student 2, who left, still has a graded
    submission on assignment 10: last_participation.py gives the result
    of the course without that submission, for student 1 only;
    last_nonzero_score.py raises KeyError in its walk and writes no
    report. *)
Theorem left_student_submission :
  ("2" ∉ Dict.keys (students course))
  ∧ Dict.get 10 (all_submissions course)
    = Ok [Submission 1 JNull (Some false) None;
          Submission 2 (JFloat 3) (Some false) (Some "2024-01-09T08:00:00Z")]
  ∧ last_participation course = last_participation course_of_active_only
  ∧ last_participation course
    = Ok ({[ "1" := Some feb_01 ]}, {[ "1" := Some mar_01 ]})
  ∧ last_nonzero_score course_of_active_only = Ok {[ "1" := Some feb_01 ]}
  ∧ gradebook course
    = Ok {[ ("1", 10) := Blank; ("1", 11) := Graded 5; ("1", 12) := Graded 10 ]}
  ∧ last_non_zero_score course false = Raise KeyError
  ∧ last_nonzero_score course = Raise KeyError.
Proof.
  split.
  { intros Hin. vm_compute in Hin.
    by apply list_elem_of_singleton in Hin. }
  by vm_compute.
Qed.

End CaseFacts.

(** * More on the paginated fetcher *)

Module FetcherRunFacts.
Import Fetcher FetcherSpec FetcherExamples FetcherRuns FetcherRunExamples.

(** ** [get_navigation] *)

Lemma navigation_step_current nav link_info :
  current_link (navigation_step nav link_info)
  = if PyStr.contains rel_current link_info then link_target link_info
    else current_link nav.
Proof.
  unfold navigation_step.
  by destruct (PyStr.contains rel_current link_info),
              (PyStr.contains rel_next link_info),
              (PyStr.contains rel_last link_info).
Qed.

Lemma navigation_step_next nav link_info :
  next_link (navigation_step nav link_info)
  = if PyStr.contains rel_next link_info then link_target link_info
    else next_link nav.
Proof.
  unfold navigation_step.
  by destruct (PyStr.contains rel_current link_info),
              (PyStr.contains rel_next link_info),
              (PyStr.contains rel_last link_info).
Qed.

Lemma navigation_step_last nav link_info :
  last_link (navigation_step nav link_info)
  = if PyStr.contains rel_last link_info then link_target link_info
    else last_link nav.
Proof.
  unfold navigation_step.
  by destruct (PyStr.contains rel_current link_info),
              (PyStr.contains rel_next link_info),
              (PyStr.contains rel_last link_info).
Qed.

Lemma last_target_snoc rel link_list link_info :
  last_target rel (link_list ++ [link_info])
  = if PyStr.contains rel link_info then link_target link_info
    else last_target rel link_list.
Proof.
  unfold last_target. rewrite filter_app, filter_cons, filter_nil.
  destruct (PyStr.contains rel link_info) eqn:Hrel.
  - rewrite decide_True by done. by rewrite last_snoc.
  - rewrite decide_False by done. by rewrite app_nil_r.
Qed.

(** X1. Each of the three links that [get_navigation] returns is the
    target of the last entry of the list that has its rel, and the empty
    string when no entry has it; entries with another rel, such as
    first or prev, change nothing. *)
Theorem get_navigation_last_entry (link_list : list string) :
  current_link (get_navigation link_list) = last_target rel_current link_list
  ∧ next_link (get_navigation link_list) = last_target rel_next link_list
  ∧ last_link (get_navigation link_list) = last_target rel_last link_list.
Proof.
  unfold get_navigation.
  induction link_list as [|link_info link_list IH] using rev_ind; [done|].
  destruct IH as (Hc & Hn & Hl).
  rewrite fold_left_app. cbn [fold_left].
  rewrite navigation_step_current, navigation_step_next,
    navigation_step_last, !last_target_snoc, Hc, Hn, Hl.
  done.
Qed.

(** ** The target of an entry *)

Lemma list_ascii_of_string_app s1 s2 :
  list_ascii_of_string (s1 +:+ s2)
  = list_ascii_of_string s1 ++ list_ascii_of_string s2.
Proof. induction s1 as [|c s1 IH]; [done|]. simpl. by f_equal. Qed.

Lemma app_String a s t : String a s +:+ t = String a (s +:+ t).
Proof. reflexivity. Qed.

Lemma app_EmptyString t : EmptyString +:+ t = t.
Proof. reflexivity. Qed.

Lemma string_app_cons s1 c s2 :
  s1 +:+ String c s2 = (s1 +:+ String c EmptyString) +:+ s2.
Proof.
  induction s1 as [|a s1 IH]; [done|]. by rewrite !app_String, <-IH.
Qed.

Lemma split_app_sep sep s1 s2 :
  sep ∉ list_ascii_of_string s1 →
  PyStr.split sep (s1 +:+ String sep s2) = s1 :: PyStr.split sep s2.
Proof.
  induction s1 as [|c s1 IH]; intros Hsep.
  - rewrite app_EmptyString. cbn. by rewrite decide_True.
  - cbn in Hsep. apply not_elem_of_cons in Hsep as [Hc Hsep].
    rewrite app_String. cbn [PyStr.split].
    rewrite decide_False by done. by rewrite IH.
Qed.

Lemma rstrip_snoc chars s c :
  c ∈ chars → PyStr.rstrip chars (s +:+ String c EmptyString)
              = PyStr.rstrip chars s.
Proof.
  intros Hc. induction s as [|a s IH].
  - rewrite app_EmptyString. cbn. by rewrite bool_decide_eq_true_2.
  - rewrite app_String. cbn [PyStr.rstrip]. by rewrite IH.
Qed.

Lemma rstrip_id chars s :
  (∀ c, last (list_ascii_of_string s) = Some c → c ∉ chars) →
  PyStr.rstrip chars s = s.
Proof.
  induction s as [|a s IH]; cbn; [done|]. intros Hlast.
  destruct s as [|b s].
  - cbn. rewrite bool_decide_eq_false_2; [done|]. by apply Hlast.
  - rewrite IH; [done|]. intros c Hc. apply Hlast. by rewrite last_cons, Hc.
Qed.

(** X2. The target of an entry <url>; rel=... is the URL between the
    angle brackets, when the URL has no semicolon and no angle bracket at
    either end. *)
Theorem link_target_between_brackets (url rest : string) :
  ";"%char ∉ list_ascii_of_string url →
  (∀ c, head (list_ascii_of_string url) = Some c → c ∉ ["<"; ">"]%char) →
  (∀ c, last (list_ascii_of_string url) = Some c → c ∉ ["<"; ">"]%char) →
  link_target ("<" +:+ url +:+ ">;" +:+ rest) = url.
Proof.
  intros Hsemi Hhead Hlast. unfold link_target, PyStr.first_piece.
  change ("<" +:+ url +:+ ">;" +:+ rest)
    with (String "<" (url +:+ String ">" (String ";" rest))).
  rewrite (string_app_cons url ">").
  change (String "<" ((url +:+ String ">" EmptyString) +:+ String ";" rest))
    with ((String "<" (url +:+ String ">" EmptyString)) +:+ String ";" rest).
  rewrite split_app_sep.
  2:{ cbn [list_ascii_of_string]. rewrite list_ascii_of_string_app. cbn.
      intros [?|[?|[?|?%elem_of_nil]%elem_of_cons]%elem_of_app]%elem_of_cons;
        done. }
  unfold PyStr.strip. cbn [PyStr.lstrip].
  rewrite bool_decide_eq_true_2 by left.
  destruct url as [|c url].
  - by cbn.
  - rewrite app_String. cbn [PyStr.lstrip].
    rewrite bool_decide_eq_false_2 by (by apply Hhead).
    rewrite <-app_String.
    rewrite rstrip_snoc by (right; left). by apply rstrip_id.
Qed.

Lemma link_target_between_brackets_witness :
  link_target ("<" +:+ page_url 2 +:+ ">;" +:+ " rel=next") = page_url 2.
Proof.
  apply link_target_between_brackets.
  - vm_compute. intros Hin.
    repeat (apply elem_of_cons in Hin as [Hin|Hin]; [discriminate Hin|]).
    by apply elem_of_nil in Hin.
  - intros c [= <-]. vm_compute.
    intros [?|[?|?%elem_of_nil]%elem_of_cons]%elem_of_cons; done.
  - intros c [= <-]. vm_compute.
    intros [?|[?|?%elem_of_nil]%elem_of_cons]%elem_of_cons; done.
Defined.

(** ** Runs of [get_list] *)

Section Runs.
Context {World A : Type}.
Variable session_get : string → World → result (response A) * World.

(** The loop after a run of pages that are not the last. *)
Lemma get_list_loop_run url w pages url' w' :
  page_run session_get url w pages url' w' →
  ∀ fuel this_list log,
    get_list_loop session_get (length pages + fuel) url this_list w log
    = get_list_loop session_get fuel url'
        (this_list ++ concat pages.*2) w' (log ++ pages.*1).
Proof.
  induction 1 as [url w|url w w' url' w'' link records pages Hget Hnav _ IH];
    intros fuel this_list log.
  - cbn. by rewrite !app_nil_r.
  - cbn. rewrite Hget. cbn. rewrite decide_False by done.
    rewrite IH. cbn. by rewrite <-!(assoc_L (++)).
Qed.

Lemma get_list_loop_raises url w e w' fuel this_list log :
  turn_raises session_get url w e w' →
  get_list_loop session_get (S fuel) url this_list w log
  = Run w' (log ++ [url]) (Some (Raise e)).
Proof.
  intros [Hget|[(body & Hget & ->)|(link & Hget)]]; cbn; by rewrite Hget.
Qed.

(** What the loop has requested so far stays at the front of the log. *)
Lemma get_list_loop_log fuel url this_list w log :
  log `prefix_of`
    requests (get_list_loop session_get fuel url this_list w log).
Proof.
  revert url this_list w log.
  induction fuel as [|fuel IH]; intros url this_list w log; cbn; [done|].
  destruct (session_get url w) as [[resp|e] w']; cbn;
    [|by apply prefix_app_r].
  destruct (headers_link resp) as [link|]; cbn; [|by apply prefix_app_r].
  destruct (json resp) as [records|e]; cbn; [|by apply prefix_app_r].
  destruct (decide _); cbn; [by apply prefix_app_r|].
  etrans; [|apply IH]. by apply prefix_app_r.
Qed.

Lemma get_list_loop_first_request fuel url this_list w log :
  log ++ [url] `prefix_of`
    requests (get_list_loop session_get (S fuel) url this_list w log).
Proof.
  cbn [get_list_loop].
  destruct (session_get url w) as [[resp|e] w']; cbn; [|done].
  destruct (headers_link resp) as [link|]; cbn; [|done].
  destruct (json resp) as [records|e]; cbn; [|done].
  destruct (decide _); cbn; [done|]. apply get_list_loop_log.
Qed.

(** A run that returns a list has read a chain of pages. *)
Lemma get_list_loop_returns fuel :
  ∀ url this_list w log l,
    returned (get_list_loop session_get fuel url this_list w log)
      = Some (Ok l) →
    ∃ pages w',
      page_chain session_get url w pages w'
      ∧ (length pages ≤ fuel)%nat
      ∧ get_list_loop session_get fuel url this_list w log
        = Run w' (log ++ pages.*1) (Some (Ok (this_list ++ concat pages.*2))).
Proof.
  induction fuel as [|fuel IH]; intros url this_list w log l; [done|].
  cbn [get_list_loop].
  destruct (session_get url w) as [[[[link|] [records|e]]|e] w'] eqn:Hget;
    cbn; try done.
  destruct (decide _) as [Hlast|Hlast]; cbn.
  - intros _. exists [(url, records)], w'. split; [by eapply chain_last|].
    split; [cbn; lia|]. cbn. by rewrite app_nil_r.
  - intros (pages & w'' & Hchain & Hlen & ->)%IH.
    exists ((url, records) :: pages), w''.
    split; [by eapply chain_next|]. split; [cbn; lia|].
    cbn. by rewrite <-!(assoc_L (++)).
Qed.

(** A run that raises has read pages that are not the last, and then met
    a turn that raises. *)
Lemma get_list_loop_raised fuel :
  ∀ url this_list w log e,
    returned (get_list_loop session_get fuel url this_list w log)
      = Some (Raise e) →
    ∃ pages url' w',
      page_run session_get url w pages url' w'
      ∧ (length pages < fuel)%nat
      ∧ turn_raises session_get url' w' e
          (world_after (get_list_loop session_get fuel url this_list w log))
      ∧ requests (get_list_loop session_get fuel url this_list w log)
        = log ++ pages.*1 ++ [url'].
Proof.
  induction fuel as [|fuel IH]; intros url this_list w log e; [done|].
  cbn [get_list_loop].
  destruct (session_get url w) as [[[[link|] [records|e']]|e'] w'] eqn:Hget;
    cbn.
  - destruct (decide _) as [Hlast|Hlast]; cbn; [done|].
    intros (pages & url' & w'' & Hrun & Hlen & Hraises & ->)%IH.
    exists ((url, records) :: pages), url', w''.
    split; [by eapply run_page|]. split; [cbn; lia|]. split; [done|].
    cbn. by rewrite <-!(assoc_L (++)).
  - intros [= ->]. exists [], url, w. split; [apply run_done|].
    split; [cbn; lia|]. split; [|done]. right. right. by exists link.
  - intros [= <-]. exists [], url, w. split; [apply run_done|].
    split; [cbn; lia|]. split; [|done]. right. left. by eexists.
  - intros [= <-]. exists [], url, w. split; [apply run_done|].
    split; [cbn; lia|]. split; [|done]. right. left. by eexists.
  - intros [= ->]. exists [], url, w. split; [apply run_done|].
    split; [cbn; lia|]. split; [|done]. by left.
Qed.
End Runs.

Lemma next_link_without_next (link_list : list string) :
  (∀ link_info, link_info ∈ link_list →
     PyStr.contains rel_next link_info = false) →
  next_link (get_navigation link_list) = EmptyString.
Proof.
  unfold get_navigation.
  induction link_list as [|link_info link_list IH] using rev_ind;
    intros Hnext; [done|].
  rewrite fold_left_app. cbn [fold_left]. rewrite navigation_step_next.
  rewrite Hnext by (apply elem_of_app; right; apply list_elem_of_singleton;
                    done).
  apply IH. intros ? ?. apply Hnext, elem_of_app. by left.
Qed.

(** X3. When a request fails after [get_list] has read some pages, by an
    exception of the HTTP collaborator, by a response without a link
    header or by a body that cannot be decoded, [get_list] raises that
    exception: the records of the pages read so far are not returned, and
    the requests made are those of the pages and the failed one. *)
Theorem get_list_raises_after_pages {World A : Type}
    (session_get : string → World → result (response A) * World)
    (first_url url : string) (w w' w'' : World)
    (pages : list (string * list A)) (e : exn) (fuel : nat) :
  page_run session_get first_url w pages url w' →
  turn_raises session_get url w' e w'' →
  (length pages < fuel)%nat →
  get_list session_get fuel first_url w
  = Run w'' (pages.*1 ++ [url]) (Some (Raise e)).
Proof.
  intros Hrun Hraises Hfuel. unfold get_list.
  replace fuel with (length pages + S (fuel - S (length pages)))%nat by lia.
  rewrite (get_list_loop_run _ _ _ _ _ _ Hrun).
  by rewrite (get_list_loop_raises _ _ _ _ _ _ _ _ Hraises).
Qed.

Lemma failing_third_run :
  page_run failing_third (page_url 1) 0%nat
    [(page_url 1, [101; 102]); (page_url 2, [103; 104])] (page_url 3) 2%nat.
Proof.
  eapply run_page; [reflexivity|by vm_compute|].
  eapply run_page; [reflexivity|by vm_compute|].
  apply run_done.
Qed.

Lemma get_list_raises_after_pages_witness :
  get_list failing_third 5 (page_url 1) 0%nat
  = Run 3%nat [page_url 1; page_url 2; page_url 3] (Some (Raise HTTPError)).
Proof.
  apply (get_list_raises_after_pages failing_third (page_url 1) (page_url 3)
           0%nat 2%nat 3%nat _ HTTPError 5 failing_third_run).
  - left. reflexivity.
  - cbn. lia.
Defined.

(** X4. A page that is not the last and has no entry with rel="next"
    sends [get_list] on to the empty URL: the request after it is made
    with the empty string, with the records of the page kept. *)
Theorem get_list_without_next {World A : Type}
    (session_get : string → World → result (response A) * World)
    (url link : string) (records : list A) (w w' : World) (fuel : nat) :
  session_get url w = (Ok (Response (Some link) (Ok records)), w') →
  current_link (get_navigation (PyStr.split "," link))
    ≠ last_link (get_navigation (PyStr.split "," link)) →
  (∀ link_info, link_info ∈ PyStr.split "," link →
     PyStr.contains rel_next link_info = false) →
  get_list session_get (S (S fuel)) url w
    = get_list_loop session_get (S fuel) EmptyString records w' [url]
  ∧ [url; EmptyString] `prefix_of`
      requests (get_list session_get (S (S fuel)) url w).
Proof.
  intros Hget Hnav Hnext.
  assert (get_list session_get (S (S fuel)) url w
          = get_list_loop session_get (S fuel) EmptyString records w' [url])
    as Hstep.
  { unfold get_list. cbn [get_list_loop]. rewrite Hget. cbn.
    rewrite decide_False by done.
    by rewrite (next_link_without_next _ Hnext). }
  split; [done|]. rewrite Hstep.
  apply (get_list_loop_first_request session_get fuel EmptyString records
           w' [url]).
Qed.

Lemma get_list_without_next_witness :
  get_list no_next 5 (page_url 1) 0%nat
    = get_list_loop no_next 4 EmptyString [101; 102] 1%nat [page_url 1]
  ∧ [page_url 1; EmptyString] `prefix_of`
      requests (get_list no_next 5 (page_url 1) 0%nat).
Proof.
  apply (get_list_without_next no_next (page_url 1) no_next_link
           [101; 102] 0%nat 1%nat 3).
  - reflexivity.
  - by vm_compute.
  - intros link_info Hin. vm_compute in Hin.
    repeat (apply elem_of_cons in Hin as [->|Hin]; [by vm_compute|]).
    by apply elem_of_nil in Hin.
Defined.

(** X5. Conversely to the run over a chain of pages: whenever [get_list]
    returns a list, the collaborator has served a chain of pages from the
    first URL, only the last of which has its current link equal to its
    last link; the list is the records of these pages in order and the
    requests are their URLs. *)
Theorem get_list_returns_chain {World A : Type}
    (session_get : string → World → result (response A) * World)
    (first_url : string) (w : World) (fuel : nat) (l : list A) :
  returned (get_list session_get fuel first_url w) = Some (Ok l) →
  ∃ pages,
    page_chain session_get first_url w pages
      (world_after (get_list session_get fuel first_url w))
    ∧ (0 < length pages ≤ fuel)%nat
    ∧ requests (get_list session_get fuel first_url w) = pages.*1
    ∧ l = concat pages.*2.
Proof.
  unfold get_list. intros Hret.
  destruct (get_list_loop_returns session_get fuel _ _ _ _ _ Hret)
    as (pages & w' & Hchain & Hlen & Heq).
  rewrite Heq in Hret |- *. cbn in *. exists pages.
  split; [done|]. split; [|split; [done|congruence]].
  split; [|done]. destruct Hchain; cbn; lia.
Qed.

Lemma get_list_returns_chain_witness :
  ∃ pages,
    page_chain three_pages (page_url 1) 0%nat pages
      (world_after (get_list three_pages 5 (page_url 1) 0%nat))
    ∧ (0 < length pages ≤ 5)%nat
    ∧ requests (get_list three_pages 5 (page_url 1) 0%nat) = pages.*1
    ∧ [101; 102; 103; 104; 105] = concat pages.*2.
Proof.
  apply (get_list_returns_chain three_pages (page_url 1) 0%nat 5).
  reflexivity.
Defined.

(** X6. Whenever [get_list] raises, it has read pages that are not the
    last and then met a request that failed, a response without a link
    header (a KeyError) or a body that could not be decoded; the failed
    request is the last one it made. *)
Theorem get_list_raises_turn {World A : Type}
    (session_get : string → World → result (response A) * World)
    (first_url : string) (w : World) (fuel : nat) (e : exn) :
  returned (get_list session_get fuel first_url w) = Some (Raise e) →
  ∃ pages url w',
    page_run session_get first_url w pages url w'
    ∧ turn_raises session_get url w' e
        (world_after (get_list session_get fuel first_url w))
    ∧ requests (get_list session_get fuel first_url w) = pages.*1 ++ [url].
Proof.
  unfold get_list. intros Hret.
  destruct (get_list_loop_raised session_get fuel _ _ _ _ _ Hret)
    as (pages & url & w' & Hrun & _ & Hraises & Hreq).
  by exists pages, url, w'.
Qed.

Lemma get_list_raises_turn_witness :
  ∃ pages url w',
    page_run failing_third (page_url 1) 0%nat pages url w'
    ∧ turn_raises failing_third url w' HTTPError
        (world_after (get_list failing_third 5 (page_url 1) 0%nat))
    ∧ requests (get_list failing_third 5 (page_url 1) 0%nat)
      = pages.*1 ++ [url].
Proof.
  apply (get_list_raises_turn failing_third (page_url 1) 0%nat 5 HTTPError).
  reflexivity.
Defined.

(** X7. [get_list] has no bound on the number of pages: when every page
    the collaborator serves along the way is not the last, the loop never
    ends, whatever the number of turns it is given, and makes a request
    on each turn. *)
Theorem get_list_never_returns {World A : Type}
    (session_get : string → World → result (response A) * World)
    (on_the_way : string → World → Prop) (first_url : string) (w : World) :
  (∀ url w, on_the_way url w →
     ∃ link records w',
       session_get url w = (Ok (Response (Some link) (Ok records)), w')
       ∧ current_link (get_navigation (PyStr.split "," link))
           ≠ last_link (get_navigation (PyStr.split "," link))
       ∧ on_the_way (next_link (get_navigation (PyStr.split "," link))) w') →
  on_the_way first_url w →
  ∀ fuel,
    returned (get_list session_get fuel first_url w) = None
    ∧ length (requests (get_list session_get fuel first_url w)) = fuel.
Proof.
  intros Hstep Hfirst fuel. unfold get_list.
  enough (∀ url this_list w log, on_the_way url w →
    returned (get_list_loop session_get fuel url this_list w log) = None
    ∧ length (requests (get_list_loop session_get fuel url this_list w log))
      = (length log + fuel)%nat) as Hloop by (by apply Hloop).
  clear Hfirst first_url w.
  induction fuel as [|fuel IH]; intros url this_list w log Hon.
  - cbn. split; [done|lia].
  - destruct (Hstep _ _ Hon) as (link & records & w' & Hget & Hnav & Hon').
    cbn [get_list_loop]. rewrite Hget. cbn. rewrite decide_False by done.
    destruct (IH _ (this_list ++ records) _ (log ++ [url]) Hon')
      as [-> ->].
    split; [done|]. rewrite length_app. cbn. lia.
Qed.

Lemma get_list_never_returns_witness :
  returned (get_list looping 1000 (page_url 1) 0%nat) = None
  ∧ length (requests (get_list looping 1000 (page_url 1) 0%nat)) = 1000%nat.
Proof.
  apply (get_list_never_returns looping (λ url _, url = page_url 1)).
  - intros url served ->. exists looping_link, [101; 102], (S served).
    split; [reflexivity|]. split; by vm_compute.
  - reflexivity.
Defined.

End FetcherRunFacts.

(** * More on the timestamp codec *)

Module CodecRoundTrip.
Import Codec CodecSpec CodecFacts ShapeFacts.










End CodecRoundTrip.

(** * The dictionary comprehensions *)

Module ComprehensionFacts.
Import Canvas DictFacts.

Section OfList.
Context {K V : Type} `{EqDecision K}.

Lemma keys_set (k : K) (v : V) (d : Dict.dict K V) :
  Dict.keys (Dict.set k v d)
  = if decide (k ∈ Dict.keys d) then Dict.keys d else Dict.keys d ++ [k].
Proof.
  induction d as [|[k' v'] d IH]; cbn; [done|].
  destruct (decide (k = k')) as [->|Hne]; cbn.
  - rewrite decide_True by left. done.
  - fold (Dict.keys (Dict.set k v d)). fold (Dict.keys d). rewrite IH.
    destruct (decide (k ∈ Dict.keys d)) as [Hin|Hin].
    + rewrite decide_True by (by right). done.
    + rewrite decide_False; [done|]. by intros [?|?]%elem_of_cons.
Qed.

Lemma NoDup_keys_set (k : K) (v : V) (d : Dict.dict K V) :
  NoDup (Dict.keys d) → NoDup (Dict.keys (Dict.set k v d)).
Proof.
  intros Hd. rewrite keys_set. destruct (decide _) as [Hin|Hin]; [done|].
  apply NoDup_app. split; [done|]. split; [|apply NoDup_singleton].
  intros x Hx ->%list_elem_of_singleton. done.
Qed.

Lemma of_list_snoc (key : V → K) (l : list V) (x : V) :
  Dict.of_list key (l ++ [x]) = Dict.set (key x) x (Dict.of_list key l).
Proof. unfold Dict.of_list. by rewrite foldl_app. Qed.

Lemma NoDup_keys_of_list (key : V → K) (l : list V) :
  NoDup (Dict.keys (Dict.of_list key l)).
Proof.
  induction l as [|x l IH] using rev_ind; [apply NoDup_nil_2|].
  rewrite of_list_snoc. by apply NoDup_keys_set.
Qed.

Lemma lookup_of_list (key : V → K) (l : list V) (k : K) :
  Dict.lookup k (Dict.of_list key l) = last (filter (λ x, key x = k) l).
Proof.
  induction l as [|x l IH] using rev_ind; [done|].
  rewrite of_list_snoc, filter_app, filter_cons, filter_nil.
  destruct (decide (key x = k)) as [<-|Hne].
  - by rewrite lookup_set_eq, last_snoc.
  - by rewrite lookup_set_ne, app_nil_r.
Qed.

Lemma keys_of_list (key : V → K) (l : list V) (k : K) :
  k ∈ Dict.keys (Dict.of_list key l) ↔ k ∈ key <$> l.
Proof.
  rewrite <-lookup_keys, lookup_of_list, list_elem_of_fmap. split.
  - intros [x Hx]. apply last_Some_elem_of in Hx.
    apply list_elem_of_filter in Hx as [<- Hx]. by exists x.
  - intros (x & -> & Hx).
    assert (x ∈ filter (λ y, key y = key x) l) as Hin
      by (by apply list_elem_of_filter).
    destruct (filter (λ y, key y = key x) l) as [|y f] using rev_ind;
      [by apply elem_of_nil in Hin|].
    rewrite last_snoc. by eexists.
Qed.

(** When no key comes twice the dictionary is the list, in its order. *)
Lemma of_list_NoDup (key : V → K) (l : list V) :
  NoDup (key <$> l) → Dict.of_list key l = (λ x, (key x, x)) <$> l.
Proof.
  induction l as [|x l IH] using rev_ind; intros Hl; [done|].
  rewrite fmap_app in Hl. apply NoDup_app in Hl as (Hl & Hx & _).
  rewrite of_list_snoc, fmap_app, IH by done. cbn.
  assert (key x ∉ Dict.keys ((λ y, (key y, y)) <$> l)) as Hnew.
  { unfold Dict.keys. rewrite <-list_fmap_compose. intros Hin.
    apply (Hx _ Hin). cbn. left. }
  clear IH Hl Hx. induction ((λ y, (key y, y)) <$> l) as [|[k v] d IH];
    cbn; [done|].
  cbn in Hnew. apply not_elem_of_cons in Hnew as [Hne Hnew].
  rewrite decide_False by done. by rewrite IH.
Qed.
End OfList.

(** X9. A dictionary comprehension [{ key(x): x for x in l }] has every
    key once; a key is in it exactly when some record of the list has
    it; and the record it holds for a key is the last one of the list
    with that key. *)
Theorem of_list_last_record {K V : Type} `{EqDecision K}
    (key : V → K) (l : list V) (k : K) :
  NoDup (Dict.keys (Dict.of_list key l))
  ∧ (k ∈ Dict.keys (Dict.of_list key l) ↔ k ∈ key <$> l)
  ∧ Dict.lookup k (Dict.of_list key l) = last (filter (λ x, key x = k) l).
Proof.
  split; [apply NoDup_keys_of_list|].
  split; [apply keys_of_list|apply lookup_of_list].
Qed.

#[global] Instance str_inj : Inj (=) (=) str.
Proof. unfold str. apply _. Qed.

(** X10. Students are keyed by the text of their user id, and two
    different ids never share a key: when the enrollments are of
    different users, the dictionary of students has one entry for each
    enrollment, in the order of the listing. When a user has several
    enrollments, the one listed last is the student's record. *)
Theorem students_dict_by_user (l : list enrollment) (e : enrollment) :
  (NoDup (enrollment_user_id <$> l) →
     students_dict l = (λ e, (str (enrollment_user_id e), e)) <$> l)
  ∧ (Dict.lookup (str (enrollment_user_id e)) (students_dict l)
     = last (filter (λ e', enrollment_user_id e' = enrollment_user_id e) l)).
Proof.
  split.
  - intros Hl. apply of_list_NoDup.
    rewrite (list_fmap_compose enrollment_user_id str).
    by apply (NoDup_fmap_2 str).
  - unfold students_dict. rewrite lookup_of_list. f_equal.
    apply list_filter_iff. intros e'. split; [apply (inj str)|congruence].
Qed.

Lemma students_dict_by_user_witness :
  students_dict [Enrollment 1 "Lovelace, Ada" "S0001";
                 Enrollment 2 "Hopper, Grace" "S0002"]
  = [("1", Enrollment 1 "Lovelace, Ada" "S0001");
     ("2", Enrollment 2 "Hopper, Grace" "S0002")].
Proof.
  apply (students_dict_by_user
           [Enrollment 1 "Lovelace, Ada" "S0001";
            Enrollment 2 "Hopper, Grace" "S0002"]
           (Enrollment 1 "Lovelace, Ada" "S0001")).
  cbn. apply NoDup_cons. split; [by intros ?%list_elem_of_singleton|].
  apply NoDup_singleton.
Defined.

End ComprehensionFacts.

(** * The dictionaries the scripts build *)

Module LoaderFacts.
Import Canvas Loader LoaderExamples AggregatorSpec AggregatorExamples.
Import LoopFacts DictFacts ComprehensionFacts.

Lemma get_Ok {K V} `{EqDecision K} (k : K) (d : Dict.dict K V) v :
  Dict.get k d = Ok v ↔ Dict.lookup k d = Some v.
Proof.
  unfold Dict.get. destruct (Dict.lookup k d); split; congruence.
Qed.

Lemma get_Raise {K V} `{EqDecision K} (k : K) (d : Dict.dict K V) :
  k ∉ Dict.keys d → Dict.get k d = Raise KeyError.
Proof.
  intros Hk. unfold Dict.get.
  destruct (Dict.lookup k d) as [v|] eqn:Hv; [|done].
  destruct Hk. apply lookup_keys. by eexists.
Qed.

Lemma elem_of_keys_set {K V} `{EqDecision K} (k k' : K) (v : V)
    (d : Dict.dict K V) :
  k' ∈ Dict.keys (Dict.set k v d) ↔ k' = k ∨ k' ∈ Dict.keys d.
Proof.
  rewrite keys_set. destruct (decide (k ∈ Dict.keys d)) as [Hin|Hin].
  - split; [by right|]. by intros [->|?].
  - rewrite elem_of_app, list_elem_of_singleton. tauto.
Qed.

(** ** [assignments_by_group_id] *)

Lemma no_assignments_lookup groups g :
  Dict.lookup g (no_assignments groups)
  = if decide (g ∈ Dict.keys groups) then Some [] else None.
Proof.
  unfold no_assignments.
  induction (Dict.keys groups) as [|g' gs IH] using rev_ind; [done|].
  rewrite foldl_app. cbn [foldl].
  destruct (decide (g' = g)) as [->|Hne].
  - rewrite lookup_set_eq. rewrite decide_True; [done|].
    apply elem_of_app. right. left.
  - rewrite lookup_set_ne by done. rewrite IH.
    destruct (decide (g ∈ gs)) as [Hin|Hin].
    + rewrite decide_True; [done|]. apply elem_of_app. by left.
    + rewrite decide_False; [done|].
      intros [?|?%list_elem_of_singleton]%elem_of_app; done.
Qed.

Section Groups.
Variable groups : Dict.dict Z assignment_group.
Variable assignments : Dict.dict Z assignment.

#[local] Abbreviation grouped := (grouped groups assignments).

Lemma grouped_no_assignments : grouped [] (no_assignments groups).
Proof. intros g. by rewrite no_assignments_lookup. Qed.

Lemma group_step_known seen by_group a g :
  grouped seen by_group →
  group_of assignments a = Some g → g ∈ Dict.keys groups →
  ∃ by_group', group_step assignments by_group a = Ok by_group'
               ∧ grouped (seen ++ [a]) by_group'.
Proof.
  intros Hseen Hg Hin. unfold group_step, group_of in *.
  destruct (Dict.lookup a assignments) as [asg|] eqn:Ha; [|done].
  injection Hg as Hg. rewrite (proj2 (get_Ok _ _ _) Ha). cbn. rewrite Hg.
  unfold Dict.get. rewrite (Hseen g), decide_True by done. cbn.
  eexists. split; [done|]. intros g'.
  rewrite filter_app, filter_cons, filter_nil.
  destruct (decide (g = g')) as [<-|Hne].
  - rewrite lookup_set_eq, !decide_True by done. cbn.
    by rewrite decide_True
      by (unfold group_of; rewrite Ha; cbn; congruence).
  - rewrite lookup_set_ne by done. rewrite (Hseen g').
    destruct (decide (g' ∈ Dict.keys groups)); [|done].
    rewrite decide_False; [by rewrite app_nil_r|].
    unfold group_of. rewrite Ha. cbn. congruence.
Qed.

Lemma group_step_unknown seen by_group a g :
  grouped seen by_group →
  group_of assignments a = Some g → g ∉ Dict.keys groups →
  group_step assignments by_group a = Raise KeyError.
Proof.
  intros Hseen Hg Hin. unfold group_step, group_of in *.
  destruct (Dict.lookup a assignments) as [asg|] eqn:Ha; [|done].
  injection Hg as Hg. rewrite (proj2 (get_Ok _ _ _) Ha). cbn. rewrite Hg.
  unfold Dict.get. by rewrite (Hseen g), decide_False by done.
Qed.

Lemma group_of_key a :
  a ∈ Dict.keys assignments → is_Some (group_of assignments a).
Proof.
  intros [asg Ha]%lookup_keys. unfold group_of. rewrite Ha. by eexists.
Qed.

Lemma group_loop ids :
  ∀ seen by_group,
    grouped seen by_group →
    (∀ a, a ∈ ids → a ∈ Dict.keys assignments) →
    (Forall (λ a, ∃ g, group_of assignments a = Some g
                       ∧ g ∈ Dict.keys groups) ids
     ∧ ∃ by_group', for_each (group_step assignments) ids by_group
                    = Ok by_group'
                    ∧ grouped (seen ++ ids) by_group')
    ∨ (Exists (λ a, ∃ g, group_of assignments a = Some g
                         ∧ g ∉ Dict.keys groups) ids
       ∧ for_each (group_step assignments) ids by_group = Raise KeyError).
Proof.
  induction ids as [|a ids IH]; intros seen by_group Hseen Hkeys.
  - left. split; [done|]. exists by_group. by rewrite app_nil_r.
  - destruct (group_of_key a) as [g Hg]; [apply Hkeys; left|].
    destruct (decide (g ∈ Dict.keys groups)) as [Hin|Hin].
    + destruct (group_step_known _ _ _ _ Hseen Hg Hin)
        as (by_group' & Hstep & Hseen').
      cbn [for_each]. rewrite Hstep. cbn.
      destruct (IH _ _ Hseen') as [[Hall (bg & Hrun & Hbg)]|[Hex Hrun]].
      { intros ? ?. apply Hkeys. by right. }
      * left. split; [apply Forall_cons; by eauto|].
        exists bg. split; [done|]. by rewrite <-(assoc_L (++)) in Hbg.
      * right. split; [by apply Exists_cons_tl|done].
    + right. split; [apply Exists_cons_hd; by eauto|].
      cbn [for_each]. by rewrite (group_step_unknown _ _ _ _ Hseen Hg Hin).
Qed.
End Groups.

(** X11. The loop that sorts the assignments into their groups returns
    exactly when every assignment names a group of the listing, and then
    the list of a group is the ids of its assignments in the order of
    the dictionary; when some assignment names a group the listing has
    not, it raises KeyError. *)
Theorem assignments_by_group_id_outcome
    (groups : Dict.dict Z assignment_group)
    (assignments : Dict.dict Z assignment) :
  ((∀ a, a ∈ Dict.keys assignments →
      ∃ g, group_of assignments a = Some g ∧ g ∈ Dict.keys groups) →
   ∃ by_group,
     assignments_by_group_id groups assignments = Ok by_group
     ∧ (∀ g, g ∈ Dict.keys by_group ↔ g ∈ Dict.keys groups)
     ∧ (∀ g, g ∈ Dict.keys groups →
          Dict.get g by_group
          = Ok (filter (λ a, group_of assignments a = Some g)
                       (Dict.keys assignments))))
  ∧ ((∃ a g, a ∈ Dict.keys assignments ∧ group_of assignments a = Some g
             ∧ g ∉ Dict.keys groups) →
     assignments_by_group_id groups assignments = Raise KeyError).
Proof.
  unfold assignments_by_group_id.
  destruct (group_loop groups assignments (Dict.keys assignments) []
              (no_assignments groups) (grouped_no_assignments groups assignments))
    as [[Hall (by_group & Hrun & Hgrouped)]|[Hex Hrun]]; [done|..].
  - split.
    + intros _. exists by_group. split; [done|]. cbn in Hgrouped. split.
      * intros g. rewrite <-lookup_keys, (Hgrouped g).
        destruct (decide (g ∈ Dict.keys groups)); [by eauto|].
        split; [by intros [? ?]|done].
      * intros g Hg. unfold Dict.get.
        by rewrite (Hgrouped g), decide_True.
    + intros (a & g & Ha & Hg & Hin).
      rewrite Forall_forall in Hall. destruct (Hall a Ha) as (g' & Hg' & ?).
      congruence.
  - split; [|done].
    intros Hall. apply Exists_exists in Hex as (a & Ha & g & Hg & Hin).
    destruct (Hall a Ha) as (g' & Hg' & ?). congruence.
Qed.

Lemma assignments_by_group_id_outcome_witness :
  (∃ by_group,
     assignments_by_group_id (assignment_groups_dict one_group)
       three_assignments = Ok by_group
     ∧ (∀ g, g ∈ Dict.keys by_group
             ↔ g ∈ Dict.keys (assignment_groups_dict one_group))
     ∧ (∀ g, g ∈ Dict.keys (assignment_groups_dict one_group) →
          Dict.get g by_group
          = Ok (filter (λ a, group_of three_assignments a = Some g)
                       (Dict.keys three_assignments))))
  ∧ assignments_by_group_id (assignment_groups_dict one_group) stray_group
    = Raise KeyError.
Proof.
  split.
  - apply (assignments_by_group_id_outcome (assignment_groups_dict one_group)
             three_assignments).
    intros a Ha. exists 1. vm_compute in Ha.
    repeat (apply elem_of_cons in Ha as [->|Ha]; [by vm_compute; split; [|left]|]).
    by apply elem_of_nil in Ha.
  - apply (assignments_by_group_id_outcome (assignment_groups_dict one_group)
             stray_group).
    exists 13, 2. split; [vm_compute; right; left|]. split; [done|].
    vm_compute. by intros ?%list_elem_of_singleton.
Defined.

(** ** The loop that fills [all_submissions] *)

Lemma set_new {K V} `{EqDecision K} (k : K) (v : V) (d : Dict.dict K V) :
  k ∉ Dict.keys d → Dict.set k v d = d ++ [(k, v)].
Proof.
  induction d as [|[k' v'] d IH]; cbn; [done|].
  intros [Hne Hk]%not_elem_of_cons.
  rewrite decide_False by done. by rewrite IH.
Qed.

Section Fetch.
Context {V : Type}.
Variable fetch : Z → result V.

#[local] Abbreviation fetch_step :=
  (λ (all_submissions : Dict.dict Z V) (assignment_id : Z),
     submissions ← fetch assignment_id;
     Ok (Dict.set assignment_id submissions all_submissions)).

Lemma fetch_loop_all (subs_of : Z → V) ids :
  ∀ acc,
    NoDup (Dict.keys acc ++ ids) →
    (∀ a, a ∈ ids → fetch a = Ok (subs_of a)) →
    for_each fetch_step ids acc = Ok (acc ++ ((λ a, (a, subs_of a)) <$> ids)).
Proof.
  induction ids as [|a ids IH]; intros acc Hdup Hfetch; cbn.
  - by rewrite app_nil_r.
  - rewrite Hfetch by left. cbn.
    apply NoDup_app in Hdup as (Hacc & Hdisj & [Ha Hids]%NoDup_cons).
    rewrite set_new by (intros Hin; apply (Hdisj _ Hin); left).
    rewrite IH.
    + by rewrite <-(assoc_L (++)).
    + unfold Dict.keys in *. rewrite fmap_app. cbn.
      rewrite <-(assoc_L (++)). cbn. apply NoDup_app. split; [done|].
      split; [|by apply NoDup_cons].
      intros x Hx. by apply Hdisj.
    + intros b Hb. apply Hfetch. by right.
Qed.

Lemma fetch_loop_raises pre a post e acc :
  (∀ b, b ∈ pre → ∃ subs, fetch b = Ok subs) →
  fetch a = Raise e →
  for_each fetch_step (pre ++ a :: post) acc = Raise e.
Proof.
  intros Hpre Ha. rewrite for_each_app.
  destruct (for_each_invariant fetch_step (λ _, True) pre acc)
    as (acc' & -> & _); [|done|].
  - intros s b Hb _. destruct (Hpre b Hb) as [subs ->]. by eexists.
  - cbn. by rewrite Ha.
Qed.
End Fetch.

(** X12. The loop that fills [all_submissions] asks for the submissions
    of every assignment in the order of the dictionary. When every
    listing arrives, [all_submissions] has the assignments' ids as its
    keys, in the same order, each with what was listed for it. When the
    listing of an assignment fails, after those before it arrived, the
    loop raises that exception and what was listed so far is lost. *)
Theorem fetch_all_submissions_outcome
    (fetch : Z → result (list submission))
    (assignments : Dict.dict Z assignment) :
  NoDup (Dict.keys assignments) →
  (∀ subs_of,
     (∀ a, a ∈ Dict.keys assignments → fetch a = Ok (subs_of a)) →
     fetch_all_submissions fetch assignments
     = Ok ((λ a, (a, subs_of a)) <$> Dict.keys assignments))
  ∧ (∀ pre a post e,
       Dict.keys assignments = pre ++ a :: post →
       (∀ b, b ∈ pre → ∃ subs, fetch b = Ok subs) →
       fetch a = Raise e →
       fetch_all_submissions fetch assignments = Raise e).
Proof.
  intros Hdup. unfold fetch_all_submissions. split.
  - intros subs_of Hfetch. by rewrite (fetch_loop_all fetch subs_of).
  - intros pre a post e -> Hpre Ha. by apply fetch_loop_raises.
Qed.

Lemma fetch_all_submissions_outcome_witness :
  fetch_all_submissions submissions_of_course three_assignments
  = Ok (all_submissions course).
Proof.
  apply (proj1 (fetch_all_submissions_outcome submissions_of_course
                  three_assignments (NoDup_keys_of_list _ _))
           (λ a, match submissions_of_course a with
                 | Ok subs => subs
                 | Raise _ => []
                 end)).
  intros a Ha. vm_compute in Ha.
  repeat (apply elem_of_cons in Ha as [->|Ha]; [reflexivity|]).
  by apply elem_of_nil in Ha.
Defined.

(** ** The snapshot the scripts aggregate *)

Lemma keys_pairs {K V} (g : K → V) (l : list K) :
  Dict.keys ((λ k, (k, g k)) <$> l) = l.
Proof.
  unfold Dict.keys. rewrite <-list_fmap_compose. apply list_fmap_id.
Qed.

Lemma fetch_all_submissions_keys fetch assignments all :
  NoDup (Dict.keys assignments) →
  fetch_all_submissions fetch assignments = Ok all →
  Dict.keys all = Dict.keys assignments.
Proof.
  intros Hdup Hall. unfold fetch_all_submissions in Hall.
  pose proof (fetch_all_submissions_fetched _ _ _ _ Hall) as Hfetched.
  rewrite (fetch_loop_all fetch
             (λ a, match fetch a with Ok subs => subs | Raise _ => [] end))
    in Hall.
  - injection Hall as <-. apply keys_pairs.
  - done.
  - intros a Ha. by destruct (Hfetched a Ha) as [subs ->].
Qed.

Lemma load_parts (api : listings) (snap : snapshot) :
  load api = Ok snap →
  ∃ groups asgs studs all by_group,
    assignment_groups_listing api = Ok groups
    ∧ assignments_listing api = Ok asgs
    ∧ enrollments_listing api = Ok studs
    ∧ assignments_by_group_id (assignment_groups_dict groups)
        (assignments_dict asgs) = Ok by_group
    ∧ fetch_all_submissions (submissions_listing api) (assignments_dict asgs)
      = Ok all
    ∧ snap = Snapshot (assignments_dict asgs) (students_dict studs) all.
Proof.
  unfold load.
  destruct (assignment_groups_listing api) as [groups|]; cbn; [|done].
  destruct (assignments_listing api) as [asgs|]; cbn; [|done].
  destruct (assignments_by_group_id _ _) as [by_group|] eqn:Hgroups;
    cbn; [|done].
  destruct (enrollments_listing api) as [studs|]; cbn; [|done].
  destruct (fetch_all_submissions _ _) as [all|] eqn:Hall; cbn; [|done].
  intros [= <-]. by exists groups, asgs, studs, all, by_group.
Qed.

Lemma load_fetched (api : listings) (snap : snapshot) :
  load api = Ok snap → submissions_fetched snap.
Proof.
  intros (groups & asgs & studs & all & by_group
          & _ & _ & _ & _ & Hall & ->)%load_parts.
  by eapply CaseFacts.fetched_snapshot.
Qed.

(** X13. What the scripts hand to the aggregation, whenever they get that
    far: every assignment and every student is there once,
    [all_submissions] has exactly the assignments as its keys, in their
    order, each with what was listed for it, and every assignment names a
    group of the listing. *)
Theorem load_snapshot (api : listings) (snap : snapshot) :
  load api = Ok snap →
  NoDup (Dict.keys (assignments snap))
  ∧ NoDup (Dict.keys (students snap))
  ∧ Dict.keys (all_submissions snap) = Dict.keys (assignments snap)
  ∧ submissions_fetched snap
  ∧ (∀ a, a ∈ Dict.keys (assignments snap) →
       Dict.get a (all_submissions snap) = submissions_listing api a)
  ∧ (∃ groups, assignment_groups_listing api = Ok groups
       ∧ ∀ a, a ∈ Dict.keys (assignments snap) →
           ∃ g, group_of (assignments snap) a = Some g
                ∧ g ∈ group_id <$> groups).
Proof.
  intros Hload. pose proof (load_fetched _ _ Hload) as Hfetched.
  apply load_parts in Hload
    as (groups & asgs & studs & all & by_group
        & Hg & _ & _ & Hgroups & Hall & ->).
  cbn.
  split; [apply NoDup_keys_of_list|]. split; [apply NoDup_keys_of_list|].
  split; [by eapply fetch_all_submissions_keys, Hall;
          apply NoDup_keys_of_list|].
  split; [done|].
  split; [intros a Ha; by apply (fetch_all_submissions_get _ _ _ _ Hall)|].
  exists groups. split; [done|]. intros a Ha.
  unfold assignments_by_group_id in Hgroups.
  destruct (group_loop (assignment_groups_dict groups) (assignments_dict asgs)
              (Dict.keys (assignments_dict asgs)) []
              (no_assignments (assignment_groups_dict groups))
              (grouped_no_assignments _ _))
    as [[Hknown _]|[_ Hrun]]; [done|..|congruence].
  rewrite Forall_forall in Hknown. destruct (Hknown a Ha) as (g & Hg' & Hin).
  exists g. split; [done|]. by apply keys_of_list.
Qed.

Lemma load_snapshot_witness :
  NoDup (Dict.keys (assignments course))
  ∧ NoDup (Dict.keys (students course))
  ∧ Dict.keys (all_submissions course) = Dict.keys (assignments course)
  ∧ submissions_fetched course
  ∧ (∀ a, a ∈ Dict.keys (assignments course) →
       Dict.get a (all_submissions course)
       = submissions_listing api_of_course a)
  ∧ (∃ groups, assignment_groups_listing api_of_course = Ok groups
       ∧ ∀ a, a ∈ Dict.keys (assignments course) →
           ∃ g, group_of (assignments course) a = Some g
                ∧ g ∈ group_id <$> groups).
Proof.
  apply (load_snapshot api_of_course course). reflexivity.
Defined.

End LoaderFacts.

(** * The order of the assignments *)

Module SortingFacts.
Import Codec Canvas Aggregator AggregatorSpec AggregatorExamples.
Import OrderingSpec OrderingExamples.
Import OrderFacts LoopFacts DictFacts OrderingFacts.

(** ** Buckets of a list *)

Section Buckets.
Context {A B : Type} `{EqDecision B}.
Variable f : A → B.

Lemma filter_bucket (d d' : B) (l : list A) :
  filter (λ a, f a = d) (filter (λ a, f a = d') l)
  = if decide (d = d') then filter (λ a, f a = d) l else [].
Proof.
  rewrite list_filter_filter. destruct (decide (d = d')) as [->|Hne].
  - apply list_filter_iff. intros a. split; [by intros [? _]|done].
  - induction l as [|x l IH]; [done|].
    rewrite filter_cons, decide_False; [done|]. intros [? ?]. congruence.
Qed.

Lemma filter_none (d : B) (l : list A) :
  (∀ a, a ∈ l → f a ≠ d) → filter (λ a, f a = d) l = [].
Proof.
  induction l as [|a l IH]; intros Hl; [done|].
  rewrite filter_cons, decide_False by (apply Hl; left).
  apply IH. intros b Hb. apply Hl. by right.
Qed.

Lemma filter_buckets (d : B) (ds : list B) (l : list A) :
  NoDup ds →
  filter (λ a, f a = d) (ds ≫= λ d', filter (λ a, f a = d') l)
  = if decide (d ∈ ds) then filter (λ a, f a = d) l else [].
Proof.
  induction 1 as [|d' ds Hd' _ IH]; [done|].
  rewrite bind_cons, filter_app, filter_bucket, IH.
  destruct (decide (d = d')) as [->|Hne].
  - rewrite decide_False by done. rewrite app_nil_r.
    by rewrite decide_True by left.
  - destruct (decide (d ∈ ds)) as [Hin|Hin].
    + by rewrite decide_True by (by right).
    + rewrite decide_False; [done|]. by intros [?|?]%elem_of_cons.
Qed.

Lemma buckets_Permutation (ds : list B) :
  NoDup ds →
  ∀ l : list A,
    (∀ a, a ∈ l → f a ∈ ds) →
    ds ≫= (λ d, filter (λ a, f a = d) l) ≡ₚ l.
Proof.
  induction 1 as [|d ds Hd _ IH]; intros l Hl.
  - destruct l as [|a l]; [done|].
    destruct (proj1 (elem_of_nil (f a))). apply Hl. left.
  - rewrite bind_cons.
    etrans; [|apply (filter_app_complement (λ a, f a = d) l)].
    apply Permutation_app; [done|].
    assert (ds ≫= (λ d', filter (λ a, f a = d') l)
            = ds ≫= (λ d', filter (λ a, f a = d')
                             (filter (λ a, f a ≠ d) l))) as ->.
    { apply Forall_bind_ext, Forall_forall. intros d' Hd'.
      rewrite list_filter_filter. apply list_filter_iff.
      intros a. split; [|by intros [? _]].
      intros Ha. split; [done|]. congruence. }
    apply IH. intros a [Hne Ha]%list_elem_of_filter.
    apply Hl in Ha. by apply elem_of_cons in Ha as [?|?].
Qed.

Lemma bucket_sorted (R : relation B) (d : B) (l : list A) :
  R d d →
  StronglySorted (λ a b, R (f a) (f b)) (filter (λ a, f a = d) l).
Proof.
  intros Hdd. induction l as [|a l IHl]; [constructor|].
  rewrite filter_cons.
  destruct (decide (f a = d)) as [Ha|Ha]; [|exact IHl].
  constructor; [exact IHl|]. apply Forall_forall.
  intros b [Hb _]%list_elem_of_filter. by rewrite Ha, Hb.
Qed.

Lemma buckets_sorted (R : relation B) (ds : list B) (l : list A) :
  (∀ d, d ∈ ds → R d d) →
  StronglySorted R ds →
  StronglySorted (λ a b, R (f a) (f b))
    (ds ≫= λ d, filter (λ a, f a = d) l).
Proof.
  intros Hrefl Hsorted.
  induction Hsorted as [|d ds Hsorted IH Hd]; [constructor|].
  rewrite bind_cons. apply StronglySorted_app_2.
  - intros a b [<- _]%list_elem_of_filter
      (d' & [<- _]%list_elem_of_filter & Hd')%list_elem_of_bind.
    rewrite Forall_forall in Hd. by apply Hd.
  - apply bucket_sorted, Hrefl. left.
  - apply IH. intros d' Hd'. apply Hrefl. by right.
Qed.
End Buckets.

(** ** The sorted dates *)

Lemma date_le_refl d : date_le d d.
Proof. destruct d; [apply dt_le_refl|done]. Qed.

Lemma NoDup_sorted_due_dates due_dates :
  NoDup (sorted_due_dates due_dates).
Proof.
  unfold sorted_due_dates. apply NoDup_app. split.
  - apply (NoDup_fmap_2 Some). rewrite merge_sort_Permutation.
    apply NoDup_remove_dups.
  - split; [|apply NoDup_singleton].
    by intros ? (? & -> & _)%list_elem_of_fmap ?%list_elem_of_singleton.
Qed.

Lemma sorted_due_dates_sorted due_dates :
  StronglySorted date_le (sorted_due_dates due_dates).
Proof.
  unfold sorted_due_dates. apply StronglySorted_app_2.
  - intros d d' _ ->%list_elem_of_singleton. by destruct d.
  - apply (StronglySorted_fmap _ dt_le); [done|].
    apply (StronglySorted_merge_sort dt_le).
  - repeat constructor.
Qed.

Lemma elem_of_sorted_due_dates due_dates d :
  d ∈ due_dates → d ∈ sorted_due_dates due_dates.
Proof.
  intros Hd. unfold sorted_due_dates. apply elem_of_app.
  destruct d as [t|]; [left|right; left].
  apply list_elem_of_fmap. exists t. split; [done|].
  rewrite merge_sort_Permutation, elem_of_remove_dups, list_elem_of_omap.
  by exists (Some t).
Qed.

(** ** What the loops over the due dates raise *)

Lemma for_each_raises {X S} (body : S → X → result S) l s e :
  for_each body l s = Raise e → ∃ x s', x ∈ l ∧ body s' x = Raise e.
Proof.
  revert s. induction l as [|x l IH]; intros s; cbn; [done|].
  destruct (body s x) as [s'|e'] eqn:Hx; cbn.
  - intros (y & s'' & Hy & Hraise)%IH. exists y, s''. split; [by right|done].
  - intros [= ->]. exists x, s. split; [left|done].
Qed.

Lemma for_each_returns {X S} (body : S → X → result S) l s s' :
  for_each body l s = Ok s' → ∀ x, x ∈ l → ∃ s1 s2, body s1 x = Ok s2.
Proof.
  revert s. induction l as [|x l IH]; intros s; cbn;
    [by intros _ ? ?%elem_of_nil|].
  destruct (body s x) as [s1|] eqn:Hx; cbn; [|done].
  intros Hrest y [->|Hy]%elem_of_cons; [by eauto|]. by eapply IH.
Qed.

Lemma z_to_dt_raises z e : z_to_dt z = Raise e → e = ValueError.
Proof.
  destruct z as [s|]; cbn; [|done].
  destruct (strptime s) as [dt|e'] eqn:Hs; cbn; [done|]. intros [= <-].
  unfold strptime, make_datetime in Hs.
  destruct (format_regex s) as [|[[[[[[y m] d] H] M] sec] [|c rest]] l];
    try by injection Hs as <-.
  destruct (valid_fields y m d H M sec); [done|by injection Hs as <-].
Qed.

Lemma due_date_raises snap a e :
  a ∈ Dict.keys (assignments snap) →
  due_date snap a = Raise e → e = ValueError.
Proof.
  intros [asg Ha]%lookup_keys. unfold due_date, Dict.get. rewrite Ha. cbn.
  apply z_to_dt_raises.
Qed.

Lemma all_due_dates_parse snap due_dates :
  all_due_dates snap = Ok due_dates → due_dates_parse snap.
Proof.
  intros Hall a Ha.
  destruct (for_each_returns _ _ _ _ Hall a Ha) as (s1 & s2 & Hbody).
  destruct (due_date snap a) as [d|]; [by eauto|done].
Qed.

Lemma assignment_ids_by_due_date_unreadable snap e :
  assignment_ids_by_due_date snap = Raise e →
  e = ValueError
  ∧ ∃ a, a ∈ Dict.keys (assignments snap)
         ∧ due_date snap a = Raise ValueError.
Proof.
  intros Hraise.
  destruct (all_due_dates snap) as [due_dates|e'] eqn:Hall.
  - apply all_due_dates_parse in Hall.
    by rewrite (assignment_ids_by_due_date_ok snap Hall) in Hraise.
  - unfold assignment_ids_by_due_date in Hraise. rewrite Hall in Hraise.
    injection Hraise as ->.
    apply for_each_raises in Hall as (a & s' & Ha & Hbody).
    destruct (due_date snap a) as [d|e'] eqn:Hd; [done|].
    injection Hbody as ->.
    pose proof (due_date_raises _ _ _ Ha Hd) as ->. by eauto.
Qed.

Lemma chronological_Permutation snap :
  chronological snap ≡ₚ Dict.keys (assignments snap).
Proof.
  unfold chronological.
  apply (buckets_Permutation (due_or_none snap));
    [apply NoDup_sorted_due_dates|].
  intros a Ha. apply elem_of_sorted_due_dates, list_elem_of_fmap. by eauto.
Qed.

(** X14. When every due date can be read, the ordering of the assignments
    is a rearrangement of the assignments of the course, every one once;
    it is sorted by due date, the assignments without one last; and the
    assignments with the same due date, or with none, keep the order they
    have in the dictionary. *)
Theorem assignment_ids_by_due_date_sorted (snap : snapshot) :
  due_dates_parse snap →
  ∃ ordering,
    assignment_ids_by_due_date snap = Ok ordering
    ∧ ordering ≡ₚ Dict.keys (assignments snap)
    ∧ StronglySorted (due_before snap) ordering
    ∧ ∀ date, filter (λ a, due_or_none snap a = date) ordering
              = filter (λ a, due_or_none snap a = date)
                       (Dict.keys (assignments snap)).
Proof.
  intros Hparse. exists (chronological snap).
  split; [by apply assignment_ids_by_due_date_ok|].
  split; [apply chronological_Permutation|]. split.
  - apply (buckets_sorted (due_or_none snap) date_le);
      [intros; apply date_le_refl|apply sorted_due_dates_sorted].
  - intros date. unfold chronological.
    rewrite filter_buckets by apply NoDup_sorted_due_dates.
    destruct (decide _) as [Hin|Hin]; [done|].
    symmetry. apply filter_none. intros a Ha <-.
    apply Hin, elem_of_sorted_due_dates, list_elem_of_fmap. by eauto.
Qed.

Lemma assignment_ids_by_due_date_sorted_witness :
  ∃ ordering,
    assignment_ids_by_due_date course = Ok ordering
    ∧ ordering ≡ₚ Dict.keys (assignments course)
    ∧ StronglySorted (due_before course) ordering
    ∧ ∀ date, filter (λ a, due_or_none course a = date) ordering
              = filter (λ a, due_or_none course a = date)
                       (Dict.keys (assignments course)).
Proof.
  apply (assignment_ids_by_due_date_sorted course).
  intros a Ha. vm_compute in Ha.
  repeat (apply elem_of_cons in Ha as [->|Ha]; [by eexists|]).
  by apply elem_of_nil in Ha.
Defined.

(** X15. The ordering of the assignments raises nothing but ValueError,
    and raises it exactly when the due date of some assignment cannot be
    read; both scripts then stop before any student has a value. *)
Theorem assignment_ids_by_due_date_raises (snap : snapshot) (guarded : bool)
    (e : exn) :
  (assignment_ids_by_due_date snap = Raise e →
     e = ValueError
     ∧ ∃ a, a ∈ Dict.keys (assignments snap)
            ∧ due_date snap a = Raise ValueError)
  ∧ ((∃ a, a ∈ Dict.keys (assignments snap)
           ∧ due_date snap a = Raise e) →
     e = ValueError
     ∧ assignment_ids_by_due_date snap = Raise ValueError
     ∧ last_non_zero_score snap guarded = Raise ValueError).
Proof.
  split; [apply assignment_ids_by_due_date_unreadable|].
  intros (a & Ha & Hd).
  pose proof (due_date_raises _ _ _ Ha Hd) as ->. split; [done|].
  assert (assignment_ids_by_due_date snap = Raise ValueError) as Hraise.
  { destruct (assignment_ids_by_due_date snap) as [ordering|e] eqn:Hord.
    - unfold assignment_ids_by_due_date in Hord.
      destruct (all_due_dates snap) as [due_dates|] eqn:Hall; [|done].
      destruct (all_due_dates_parse _ _ Hall a Ha) as [d Hd'].
      congruence.
    - by destruct (assignment_ids_by_due_date_unreadable _ _ Hord) as [-> _]. }
  split; [done|]. unfold last_non_zero_score. by rewrite Hraise.
Qed.

Lemma assignment_ids_by_due_date_raises_witness :
  assignment_ids_by_due_date course_with_unreadable_due_date
    = Raise ValueError
  ∧ last_non_zero_score course_with_unreadable_due_date true
    = Raise ValueError.
Proof.
  apply (assignment_ids_by_due_date_raises course_with_unreadable_due_date
           true ValueError).
  exists 11. split; [|reflexivity]. vm_compute. right. left.
Defined.

End SortingFacts.

(** * What the walks return and what they raise *)

Module OutcomeFacts.
Import Codec Canvas Aggregator AggregatorSpec AggregatorExamples.
Import OrderingSpec OrderingExamples WalkSpec.
Import OrderFacts LoopFacts DictFacts OrderingFacts NonzeroFacts SortingFacts.

#[local] Arguments nonzero_walk : simpl never.

(** ** Loops that may raise *)

Lemma for_each_ext {X S} (body1 body2 : S → X → result S) l s :
  (∀ s x, x ∈ l → body1 s x = body2 s x) →
  for_each body1 l s = for_each body2 l s.
Proof.
  revert s. induction l as [|x l IH]; intros s Hbody; cbn; [done|].
  rewrite <-Hbody by left. destruct (body1 s x); cbn; [|done].
  apply IH. intros s' y Hy. apply Hbody. by right.
Qed.

Lemma for_each_outcome {X S} (body : S → X → result S)
    (I : S → Prop) (E : exn → Prop) l s :
  (∀ s x, x ∈ l → I s →
     match body s x with Ok s' => I s' | Raise e => E e end) →
  I s →
  match for_each body l s with Ok s' => I s' | Raise e => E e end.
Proof.
  revert s. induction l as [|x l IH]; intros s Hbody Hs; cbn; [done|].
  pose proof (Hbody s x (list_elem_of_here _ _) Hs) as Hx.
  destruct (body s x) as [s'|e]; cbn; [|done].
  apply IH; [|done]. intros s'' y Hy. apply Hbody. by right.
Qed.

Lemma for_each_must_raise {X S} (body : S → X → result S)
    (I : S → Prop) (E : exn → Prop) l s :
  (∀ s x, x ∈ l → I s →
     match body s x with Ok s' => I s' | Raise e => E e end) →
  I s →
  (∃ x, x ∈ l ∧ ∀ s, I s → ∃ e, body s x = Raise e) →
  ∃ e, for_each body l s = Raise e ∧ E e.
Proof.
  revert s. induction l as [|x l IH]; intros s Hbody Hs (y & Hy & Hraise);
    [by apply elem_of_nil in Hy|].
  cbn. pose proof (Hbody s x (list_elem_of_here _ _) Hs) as Hx.
  destruct (body s x) as [s'|e] eqn:Hsx; cbn; [|by eauto].
  apply IH; [|done|].
  - intros s'' z Hz. apply Hbody. by right.
  - apply elem_of_cons in Hy as [->|Hy]; [|by eauto].
    destruct (Hraise s Hs) as [e He]. congruence.
Qed.

Lemma for_each_agree {X S} (body1 body2 : S → X → result S)
    (I : S → Prop) l s s' :
  (∀ s x s', x ∈ l → I s → body1 s x = Ok s' → body2 s x = Ok s' ∧ I s') →
  I s → for_each body1 l s = Ok s' → for_each body2 l s = Ok s' ∧ I s'.
Proof.
  revert s. induction l as [|x l IH]; intros s Hbody Hs; cbn.
  - by intros [= ->].
  - destruct (body1 s x) as [s1|] eqn:Hx; cbn; [|done].
    destruct (Hbody s x s1) as [-> Hs1]; [left|done..|]. cbn.
    apply IH; [|done]. intros s2 y s3 Hy. apply Hbody. by right.
Qed.

Lemma for_each_preserves {X S Y} (body : S → X → result S) (f : S → Y)
    l s s' :
  (∀ s x s', body s x = Ok s' → f s' = f s) →
  for_each body l s = Ok s' → f s' = f s.
Proof.
  intros Hbody. revert s. induction l as [|x l IH]; intros s; cbn.
  - by intros [= ->].
  - destruct (body s x) as [s1|] eqn:Hx; cbn; [|done].
    intros Hrest. rewrite (IH _ Hrest). by eapply Hbody.
Qed.

(** ** The keys of the two mappings *)

Lemma dom_seed snap {V} (v : V) : dom (seed snap v) = student_ids snap.
Proof.
  unfold seed, student_ids. rewrite dom_list_to_map_L.
  by rewrite <-list_fmap_compose, list_fmap_id.
Qed.

Lemma dom_insert_present {V} (m : gmap string V) s v v' :
  m !! s = Some v → dom (<[s := v']> m) = dom m.
Proof. intros Hs. apply dom_insert_lookup_L. by eexists. Qed.

Lemma getitem_Ok {V} (m : gmap string V) s v :
  getitem s m = Ok v → m !! s = Some v.
Proof. unfold getitem. destruct (m !! s); congruence. Qed.

Lemma nonzero_step_dom snap guarded a m sub m' :
  nonzero_step snap guarded a m sub = Ok m' → dom m' = dom m.
Proof.
  unfold nonzero_step.
  destruct (negb (is_float (score sub))); [by intros [= ->]|].
  destruct (due_date snap a) as [[date|]|]; cbn; [| |done];
    [|by intros [= ->]].
  destruct (guarded && negb (Dict.mem (str (user_id sub)) (students snap)));
    [by intros [= ->]|].
  destruct (positive (score sub)) as [[]|]; cbn; [| |done];
    [|by intros [= ->]].
  destruct (getitem _ m) as [cur|] eqn:Hcur; cbn; [|done].
  apply getitem_Ok in Hcur.
  destruct (gt_value date cur) as [[]|]; cbn; [| |done];
    intros [= <-]; [by eapply dom_insert_present|done].
Qed.

Lemma submission_step_dom snap m sub m' :
  submission_step snap m sub = Ok m' → dom m' = dom m.
Proof.
  unfold submission_step.
  destruct (z_to_dt (submitted_at sub)) as [[t|]|]; cbn; [| |done];
    [|by intros [= ->]].
  destruct (negb (Dict.mem (str (user_id sub)) (students snap)));
    [by intros [= ->]|].
  destruct (getitem _ m) as [cur|] eqn:Hcur; cbn; [|done].
  apply getitem_Ok in Hcur.
  destruct cur as [c|]; [destruct (dt_gt t c)|];
    intros [= <-]; by (done || eapply dom_insert_present).
Qed.

Lemma nonzero_walk_dom snap guarded ids m m' :
  nonzero_walk snap guarded ids m = Ok m' → dom m' = dom m.
Proof.
  apply (for_each_preserves _ dom). clear. intros m a m'.
  destruct (Dict.get a (all_submissions snap)) as [subs|]; cbn; [|done].
  apply (for_each_preserves _ dom). intros ? ? ?. apply nonzero_step_dom.
Qed.

Lemma submission_walk_dom snap ids m m' :
  submission_walk snap ids m = Ok m' → dom m' = dom m.
Proof.
  apply (for_each_preserves _ dom). clear. intros m a m'.
  destruct (Dict.get a (all_submissions snap)) as [subs|]; cbn; [|done].
  apply (for_each_preserves _ dom). intros ? ? ?. apply submission_step_dom.
Qed.

Lemma last_non_zero_score_dom snap guarded m :
  last_non_zero_score snap guarded = Ok m → dom m = student_ids snap.
Proof.
  unfold last_non_zero_score.
  destruct (assignment_ids_by_due_date snap) as [ordering|]; cbn; [|done].
  destruct (first_due_date snap ordering) as [first|]; cbn; [|done].
  intros ->%nonzero_walk_dom. apply dom_seed.
Qed.

Lemma last_submission_dom snap m :
  last_submission snap = Ok m → dom m = student_ids snap.
Proof.
  unfold last_submission. intros ->%submission_walk_dom. apply dom_seed.
Qed.

(** X16. The mappings the walks return have exactly the students of the
    course as their keys: no walk adds a key or drops one, in either
    script. *)
Theorem walks_keep_students (snap : snapshot) (guarded : bool)
    (m : gmap string (option datetime)) :
  (last_non_zero_score snap guarded = Ok m → dom m = student_ids snap)
  ∧ (last_submission snap = Ok m → dom m = student_ids snap).
Proof.
  split; [apply last_non_zero_score_dom|apply last_submission_dom].
Qed.

Lemma walks_keep_students_witness :
  dom ({[ "1" := Some feb_01 ]} : gmap string (option datetime))
    = student_ids course
  ∧ dom ({[ "1" := Some mar_01 ]} : gmap string (option datetime))
    = student_ids course.
Proof.
  split.
  - apply (proj1 (walks_keep_students course true _)). by vm_compute.
  - apply (proj2 (walks_keep_students course true _)). by vm_compute.
Defined.

(** ** The nonzero-score walk of last_participation.py *)

Lemma assignment_ids_by_due_date_parse snap ordering :
  assignment_ids_by_due_date snap = Ok ordering →
  due_dates_parse snap ∧ ordering = chronological snap.
Proof.
  intros Hord. assert (due_dates_parse snap) as Hparse.
  { unfold assignment_ids_by_due_date in Hord.
    destruct (all_due_dates snap) eqn:Hall; [|done].
    by eapply all_due_dates_parse. }
  split; [done|].
  rewrite (assignment_ids_by_due_date_ok snap Hparse) in Hord. congruence.
Qed.

Lemma dated_or_undated snap :
  due_dates_parse snap →
  (∃ a d, due_on snap a d) ∨ (∀ a d, ¬ due_on snap a d).
Proof.
  intros Hparse.
  destruct (decide (Exists (λ a, is_Some (due_or_none snap a))
                      (Dict.keys (assignments snap)))) as [Hex|Hno].
  - left. apply Exists_exists in Hex as (a & Ha & d & Hd).
    exists a, d. by apply (due_on_or_none snap Hparse).
  - right. intros a d [Ha Hd]%(due_on_or_none snap Hparse).
    apply Hno, Exists_exists. exists a. split; [done|]. by exists d.
Qed.

Lemma chronological_nil snap :
  chronological snap = [] ↔ assignments snap = [].
Proof.
  split.
  - intros Hnil. pose proof (chronological_Permutation snap) as Hperm.
    rewrite Hnil in Hperm. apply Permutation_nil_l in Hperm.
    symmetry in Hperm. by apply fmap_nil_inv in Hperm.
  - intros Hnil. apply Permutation_nil_r.
    rewrite (chronological_Permutation snap). by rewrite Hnil.
Qed.

Lemma last_non_zero_score_returns snap :
  due_dates_parse snap → submissions_fetched snap →
  assignments snap ≠ [] →
  ∃ m, last_non_zero_score snap true = Ok m.
Proof.
  intros Hparse Hfetched Hne. unfold last_non_zero_score.
  rewrite (assignment_ids_by_due_date_ok snap Hparse). cbn.
  destruct (dated_or_undated snap Hparse) as [Hdated|Hundated].
  - destruct (chronological_head snap Hparse Hdated)
      as (first & rest & d0 & Hchron & Hfirst & _).
    assert (first_due_date snap (chronological snap) = Ok (Some d0)) as ->
      by (by rewrite Hchron).
    cbn.
    destruct (nonzero_walk_moved snap Hparse Hfetched (chronological snap)
                (seed snap (Some d0))) as (m & Hm & _).
    + intros a Ha. by apply (elem_of_chronological snap Hparse).
    + intros s Hs. exists (Some d0). split; [by apply seed_lookup|by eexists].
    + by exists m.
  - destruct (chronological snap) as [|first rest] eqn:Hchron.
    { by apply chronological_nil in Hchron. }
    assert (∀ a, a ∈ first :: rest → a ∈ Dict.keys (assignments snap))
      as Hkeys.
    { rewrite <-Hchron. intros a.
      apply (elem_of_chronological snap Hparse). }
    cbn.
    rewrite (CaseFacts.undated_due_date snap Hparse Hundated first)
      by (apply Hkeys; left).
    cbn.
    rewrite (CaseFacts.undated_walk snap Hparse Hfetched Hundated) by done.
    by eexists.
Qed.

Lemma last_non_zero_score_parse snap guarded m :
  last_non_zero_score snap guarded = Ok m →
  due_dates_parse snap ∧ assignments snap ≠ [].
Proof.
  intros Hm. unfold last_non_zero_score in Hm.
  destruct (assignment_ids_by_due_date snap) as [ordering|] eqn:Hord;
    [|done].
  apply assignment_ids_by_due_date_parse in Hord as [Hparse ->].
  split; [done|]. intros Hnil%chronological_nil.
  by rewrite Hnil in Hm.
Qed.

Lemma last_non_zero_score_guarded_raises snap e :
  submissions_fetched snap →
  last_non_zero_score snap true = Raise e →
  (e = ValueError
   ∧ ∃ a, a ∈ Dict.keys (assignments snap)
          ∧ due_date snap a = Raise ValueError)
  ∨ (e = IndexError ∧ assignments snap = []).
Proof.
  intros Hfetched He.
  destruct (assignment_ids_by_due_date snap) as [ordering|e'] eqn:Hord.
  - right. pose proof Hord as [Hparse ->]%assignment_ids_by_due_date_parse.
    destruct (decide (assignments snap = [])) as [Hnil|Hne].
    + split; [|done]. unfold last_non_zero_score in He.
      rewrite Hord in He. cbn in He.
      rewrite (proj2 (chronological_nil snap) Hnil) in He. cbn in He.
      congruence.
    + destruct (last_non_zero_score_returns snap Hparse Hfetched Hne)
        as [m Hm]. congruence.
  - left. unfold last_non_zero_score in He. rewrite Hord in He.
    injection He as ->.
    by apply assignment_ids_by_due_date_unreadable.
Qed.

(** X17. The nonzero-score walk of last_participation.py, on a course
    whose submissions were listed for every assignment, returns exactly
    when every due date can be read and the course has an assignment. It
    raises nothing but ValueError, for a due date it cannot read, and
    IndexError, for a course without assignments. *)
Theorem last_non_zero_score_guarded_outcome (snap : snapshot) :
  submissions_fetched snap →
  ((∃ m, last_non_zero_score snap true = Ok m)
   ↔ due_dates_parse snap ∧ assignments snap ≠ [])
  ∧ (∀ e, last_non_zero_score snap true = Raise e →
       (e = ValueError
        ∧ ∃ a, a ∈ Dict.keys (assignments snap)
               ∧ due_date snap a = Raise ValueError)
       ∨ (e = IndexError ∧ assignments snap = [])).
Proof.
  intros Hfetched. split; [split|].
  - intros [m Hm]. by eapply last_non_zero_score_parse.
  - intros [Hparse Hne]. by apply last_non_zero_score_returns.
  - intros e. by apply last_non_zero_score_guarded_raises.
Qed.

Lemma last_non_zero_score_guarded_outcome_witness :
  ((∃ m, last_non_zero_score course true = Ok m)
   ↔ due_dates_parse course ∧ assignments course ≠ [])
  ∧ (∀ e, last_non_zero_score course true = Raise e →
       (e = ValueError
        ∧ ∃ a, a ∈ Dict.keys (assignments course)
               ∧ due_date course a = Raise ValueError)
       ∨ (e = IndexError ∧ assignments course = [])).
Proof.
  apply (last_non_zero_score_guarded_outcome course).
  exact CaseFacts.course_submissions_fetched.
Defined.

(** ** The nonzero-score walk of last_nonzero_score.py *)

Lemma get_raises {K V} `{EqDecision K} (k : K) (d : Dict.dict K V) e :
  Dict.get k d = Raise e → e = KeyError.
Proof. unfold Dict.get. destruct (Dict.lookup k d); congruence. Qed.

Lemma seed_lookup_inv snap {V} (v v' : V) s :
  seed snap v !! s = Some v' → v' = v.
Proof.
  unfold seed. intros Hs. apply elem_of_list_to_map_2 in Hs.
  by apply list_elem_of_fmap in Hs as (s' & [= _ ->] & _).
Qed.

Lemma dated_students_seed snap d : dated_students snap (seed snap (Some d)).
Proof.
  split; [apply dom_seed|].
  intros s v ->%seed_lookup_inv. by eexists.
Qed.

Lemma dated_students_insert snap m s v d :
  dated_students snap m → m !! s = Some v →
  dated_students snap (<[s := Some d]> m).
Proof.
  intros [Hdom Hdated] Hs. split.
  - by rewrite (dom_insert_present _ _ _ _ Hs).
  - intros s' v'. destruct (decide (s' = s)) as [->|Hne].
    + rewrite lookup_insert_eq. intros [= <-]. by eexists.
    + rewrite lookup_insert_ne by done. apply Hdated.
Qed.

Lemma dated_students_absent snap m s :
  dated_students snap m → s ∉ Dict.keys (students snap) → m !! s = None.
Proof.
  intros [Hdom _] Hs. apply not_elem_of_dom. rewrite Hdom.
  unfold student_ids. by rewrite elem_of_list_to_set.
Qed.

Lemma nonzero_step_unguarded_outcome snap a m sub :
  due_dates_parse snap →
  a ∈ Dict.keys (assignments snap) →
  dated_students snap m →
  match nonzero_step snap false a m sub with
  | Ok m' => dated_students snap m'
  | Raise e => e = KeyError
  end.
Proof.
  intros Hparse Ha Hm. unfold nonzero_step.
  destruct (is_float (score sub)) eqn:Hfloat; cbn; [|done].
  rewrite (due_date_or_none snap Hparse a Ha). cbn.
  destruct (due_or_none snap a) as [date|]; [|done].
  rewrite (positive_float _ Hfloat). cbn.
  destruct (float_above_zero (score sub)); [|done].
  unfold getitem.
  destruct (m !! str (user_id sub)) as [cur|] eqn:Hcur; cbn; [|done].
  destruct (proj2 Hm _ _ Hcur) as [c ->]. cbn.
  destruct (dt_gt date c); [|done]. by eapply dated_students_insert.
Qed.

Lemma nonzero_walk_unguarded_outcome snap ids m :
  due_dates_parse snap →
  (∀ a, a ∈ ids → a ∈ Dict.keys (assignments snap)) →
  dated_students snap m →
  match nonzero_walk snap false ids m with
  | Ok m' => dated_students snap m'
  | Raise e => e = KeyError
  end.
Proof.
  intros Hparse Hids Hm. unfold nonzero_walk.
  apply (for_each_outcome _ (dated_students snap) (λ e, e = KeyError));
    [|done].
  intros m' a Ha Hm'.
  destruct (Dict.get a (all_submissions snap)) as [subs|e] eqn:Hget; cbn;
    [|by eapply get_raises].
  apply (for_each_outcome _ (dated_students snap) (λ e, e = KeyError));
    [|done].
  intros m'' sub _ Hm''. apply nonzero_step_unguarded_outcome; auto.
Qed.

Lemma nonzero_step_without_stray snap a subs sub m :
  ¬ stray_score snap →
  Dict.get a (all_submissions snap) = Ok subs → sub ∈ subs →
  nonzero_step snap false a m sub = nonzero_step snap true a m sub.
Proof.
  intros Hstray Hget Hsub. unfold nonzero_step.
  destruct (is_float (score sub)) eqn:Hfloat; cbn; [|done].
  destruct (due_date snap a) as [[date|]|] eqn:Hdate; cbn; try done.
  destruct (Dict.mem (str (user_id sub)) (students snap)) eqn:Hmem; cbn;
    [done|].
  rewrite (positive_float _ Hfloat). cbn.
  destruct (float_above_zero (score sub)) eqn:Hscore; [|done].
  destruct Hstray. exists (str (user_id sub)), date. split.
  - rewrite <-mem_true. congruence.
  - exists a, sub. split; [by exists subs|done].
Qed.

Lemma nonzero_step_guarded_of_unguarded snap a m sub m' :
  dom m = student_ids snap →
  nonzero_step snap false a m sub = Ok m' →
  nonzero_step snap true a m sub = Ok m' ∧ dom m' = student_ids snap.
Proof.
  intros Hdom Hstep.
  split; [|by rewrite (nonzero_step_dom _ _ _ _ _ _ Hstep)].
  revert Hstep. unfold nonzero_step.
  destruct (is_float (score sub)); cbn; [|done].
  destruct (due_date snap a) as [[date|]|]; cbn; try done.
  destruct (Dict.mem (str (user_id sub)) (students snap)) eqn:Hmem; cbn;
    [done|].
  destruct (positive (score sub)) as [[]|]; cbn; try done.
  assert (m !! str (user_id sub) = None) as Hnone.
  { apply not_elem_of_dom. rewrite Hdom. unfold student_ids.
    rewrite elem_of_list_to_set, <-mem_true. congruence. }
  unfold getitem. by rewrite Hnone.
Qed.

Lemma last_non_zero_score_without_stray snap :
  ¬ stray_score snap →
  last_non_zero_score snap false = last_non_zero_score snap true.
Proof.
  intros Hstray. unfold last_non_zero_score.
  destruct (assignment_ids_by_due_date snap) as [ordering|]; cbn; [|done].
  destruct (first_due_date snap ordering) as [first|]; cbn; [|done].
  unfold nonzero_walk. apply for_each_ext. intros m a _.
  destruct (Dict.get a (all_submissions snap)) as [subs|] eqn:Hget; cbn;
    [|done].
  apply for_each_ext. intros m' sub Hsub.
  by eapply nonzero_step_without_stray.
Qed.

Lemma last_non_zero_score_stray snap :
  due_dates_parse snap → stray_score snap →
  last_non_zero_score snap false = Raise KeyError.
Proof.
  intros Hparse
    (s & d & Hs & a & sub & (subs & Hget & Hsub & Hstr) & Hscore & Hdue).
  unfold last_non_zero_score.
  rewrite (assignment_ids_by_due_date_ok snap Hparse). cbn.
  destruct (chronological_head snap Hparse)
    as (first & rest & d0 & Hchron & Hfirst & _); [by eauto|].
  assert (first_due_date snap (chronological snap) = Ok (Some d0)) as ->
    by (by rewrite Hchron).
  cbn.
  assert (∀ a, a ∈ chronological snap → a ∈ Dict.keys (assignments snap))
    as Hkeys by (intros a'; apply (elem_of_chronological snap Hparse)).
  unfold nonzero_walk.
  destruct (for_each_must_raise
    (λ acc assignment_id,
       submissions ← Dict.get assignment_id (all_submissions snap);
       for_each (nonzero_step snap false assignment_id) submissions acc)
    (dated_students snap) (λ e, e = KeyError) (chronological snap)
    (seed snap (Some d0))) as (e & -> & ->); [| | |done].
  - intros m a' Ha' Hm.
    apply (nonzero_walk_unguarded_outcome snap [a'] m Hparse) in Hm.
    + unfold nonzero_walk in Hm. cbn in Hm.
      by destruct (Dict.get a' (all_submissions snap) ≫= _).
    + intros ? ->%list_elem_of_singleton. by apply Hkeys.
  - apply dated_students_seed.
  - exists a. split.
    { apply (elem_of_chronological snap Hparse).
      by eapply (due_on_keys snap). }
    intros m Hm. rewrite Hget. cbn.
    destruct (for_each_must_raise (nonzero_step snap false a)
                (dated_students snap) (λ e, e = KeyError) subs m)
      as (e & -> & _); [| | |by eauto].
    + intros m' sub' _ Hm'. apply nonzero_step_unguarded_outcome; auto.
      by eapply (due_on_keys snap).
    + done.
    + exists sub. split; [done|]. intros m' Hm'. exists KeyError.
      apply (CaseFacts.nonzero_step_unguarded_inactive _ _ _ _ d);
        [by apply float_above_zero_is_float
        |by apply float_above_zero_positive|done|].
      apply (dated_students_absent snap); [done|]. by rewrite Hstr.
Qed.

Lemma last_non_zero_score_guarded_of_unguarded snap m :
  last_non_zero_score snap false = Ok m →
  last_non_zero_score snap true = Ok m.
Proof.
  unfold last_non_zero_score.
  destruct (assignment_ids_by_due_date snap) as [ordering|]; cbn; [|done].
  destruct (first_due_date snap ordering) as [first|]; cbn; [|done].
  unfold nonzero_walk. intros Hrun.
  eapply (for_each_agree _ _ (λ m, dom m = student_ids snap)),
    Hrun; [|apply dom_seed].
  intros m1 a m2 _ Hdom. cbv beta.
  destruct (Dict.get a (all_submissions snap)) as [subs|]; cbn; [|done].
  apply (for_each_agree _ _ (λ m, dom m = student_ids snap)); [|done].
  intros m3 sub m4 _. apply nonzero_step_guarded_of_unguarded.
Qed.

(** X18. last_nonzero_score.py has no test for the student of a
    submission. When nobody outside the course has a float score above
    zero on an assignment with a due date, its walk does what the walk of
    last_participation.py does, whatever that is. When somebody has, and
    the due dates can be read, its walk raises KeyError and the script
    writes nothing. So whenever its walk returns, the walk of
    last_participation.py returns the same mapping. *)
Theorem last_non_zero_score_unguarded (snap : snapshot) :
  (¬ stray_score snap →
     last_non_zero_score snap false = last_non_zero_score snap true)
  ∧ (due_dates_parse snap → stray_score snap →
     last_non_zero_score snap false = Raise KeyError)
  ∧ (∀ m, last_non_zero_score snap false = Ok m →
       last_non_zero_score snap true = Ok m).
Proof.
  split; [apply last_non_zero_score_without_stray|].
  split; [apply last_non_zero_score_stray|].
  apply last_non_zero_score_guarded_of_unguarded.
Qed.

Lemma course_stray_score : stray_score course.
Proof.
  exists "2", jan_10. split.
  - vm_compute. by intros ?%list_elem_of_singleton.
  - exists 10,
      (Submission 2 (JFloat 3) (Some false) (Some "2024-01-09T08:00:00Z")).
    split; [|by vm_compute]. eexists. split; [reflexivity|].
    split; [right; left|reflexivity].
Qed.

Lemma course_of_active_only_no_stray_score :
  ¬ stray_score course_of_active_only.
Proof.
  intros (s & d & Hs & a & sub & (subs & Hget & Hsub & Hstr) & _ & Hdue).
  apply Hs. rewrite <-Hstr. clear Hs Hstr.
  assert (a ∈ Dict.keys (all_submissions course_of_active_only)) as Ha
    by (by eapply get_keys).
  vm_compute in Ha.
  repeat (apply elem_of_cons in Ha as [->|Ha];
          [vm_compute in Hget; injection Hget as <-;
           repeat (apply elem_of_cons in Hsub as [->|Hsub]; [by left|]);
           by apply elem_of_nil in Hsub|]).
  by apply elem_of_nil in Ha.
Qed.

Lemma last_non_zero_score_unguarded_witness :
  last_non_zero_score course_of_active_only false
    = last_non_zero_score course_of_active_only true
  ∧ last_non_zero_score course false = Raise KeyError
  ∧ last_non_zero_score course_of_active_only true
    = Ok {[ "1" := Some feb_01 ]}.
Proof.
  split; [|split].
  - apply (proj1 (last_non_zero_score_unguarded course_of_active_only)).
    exact course_of_active_only_no_stray_score.
  - apply (proj1 (proj2 (last_non_zero_score_unguarded course))).
    + exact CaseFacts.course_due_dates_parse.
    + exact course_stray_score.
  - apply (proj2 (proj2 (last_non_zero_score_unguarded
                           course_of_active_only))).
    by vm_compute.
Defined.

(** ** The last-submission walk *)

Lemma submission_step_outcome snap m sub :
  dom m = student_ids snap →
  match submission_step snap m sub with
  | Ok m' => dom m' = student_ids snap
             ∧ ∃ t, z_to_dt (submitted_at sub) = Ok t
  | Raise e => e = ValueError
  end.
Proof.
  intros Hdom.
  destruct (submission_step snap m sub) as [m'|e] eqn:Hstep.
  - split; [by rewrite (submission_step_dom _ _ _ _ Hstep)|].
    unfold submission_step in Hstep.
    destruct (z_to_dt (submitted_at sub)); [by eauto|done].
  - unfold submission_step in Hstep.
    destruct (z_to_dt (submitted_at sub)) as [[t|]|e'] eqn:Ht; cbn in Hstep;
      [|done|injection Hstep as <-; by eapply z_to_dt_raises].
    destruct (Dict.mem (str (user_id sub)) (students snap)) eqn:Hmem;
      cbn in Hstep; [|done].
    apply mem_true in Hmem.
    assert (is_Some (m !! str (user_id sub))) as [cur Hcur].
    { apply elem_of_dom. rewrite Hdom. unfold student_ids.
      by rewrite elem_of_list_to_set. }
    unfold getitem in Hstep. rewrite Hcur in Hstep. cbn in Hstep.
    by destruct cur.
Qed.

Lemma submission_walk_outcome snap m :
  dom m = student_ids snap →
  match submission_walk snap (Dict.keys (all_submissions snap)) m with
  | Ok m' => dom m' = student_ids snap
  | Raise e => e = ValueError
  end.
Proof.
  intros Hdom. unfold submission_walk.
  apply (for_each_outcome _ (λ m, dom m = student_ids snap)
           (λ e, e = ValueError)); [|done].
  intros m' a [subs Ha]%lookup_keys Hm'.
  unfold Dict.get. rewrite Ha. cbn.
  apply (for_each_outcome _ (λ m, dom m = student_ids snap)
           (λ e, e = ValueError)); [|done].
  intros m'' sub _ Hm''.
  pose proof (submission_step_outcome snap m'' sub Hm'') as Hstep.
  destruct (submission_step snap m'' sub); [by destruct Hstep|done].
Qed.

Lemma last_submission_parse snap m :
  last_submission snap = Ok m → submitted_parse snap.
Proof.
  intros Hm a subs sub Hget Hsub. unfold last_submission in Hm.
  destruct (for_each_returns _ _ _ _ Hm a) as (m1 & m2 & Hbody);
    [by eapply get_keys|].
  rewrite Hget in Hbody. cbn in Hbody.
  destruct (for_each_returns _ _ _ _ Hbody sub Hsub) as (m3 & m4 & Hstep).
  unfold submission_step in Hstep.
  destruct (z_to_dt (submitted_at sub)); [by eauto|done].
Qed.

Lemma last_submission_returns snap :
  submitted_parse snap → ∃ m, last_submission snap = Ok m.
Proof.
  intros Hparse. unfold last_submission, submission_walk.
  destruct (for_each_invariant
    (λ acc submission_id,
       submissions ← Dict.get submission_id (all_submissions snap);
       for_each (submission_step snap) submissions acc)
    (λ m, dom m = student_ids snap)
    (Dict.keys (all_submissions snap)) (seed snap None))
    as (m & Hm & _); [|apply dom_seed|by eauto].
  intros m a [subs Ha]%lookup_keys Hdom.
  assert (Dict.get a (all_submissions snap) = Ok subs) as Hget
    by (unfold Dict.get; by rewrite Ha).
  rewrite Hget. cbn.
  apply for_each_invariant; [|done].
  intros m' sub Hsub Hdom'.
  pose proof (submission_step_outcome snap m' sub Hdom') as Hstep.
  destruct (submission_step snap m' sub) as [m''|e] eqn:Hrun;
    [exists m''; by destruct Hstep|].
  subst e. destruct (Hparse a subs sub Hget Hsub) as [t Ht].
  unfold submission_step in Hrun. rewrite Ht in Hrun. cbn in Hrun.
  exfalso. destruct t as [t|]; [|done].
  destruct (Dict.mem (str (user_id sub)) (students snap)) eqn:Hmem;
    cbn in Hrun; [|done].
  apply mem_true in Hmem.
  assert (is_Some (m' !! str (user_id sub))) as [cur Hcur].
  { apply elem_of_dom. rewrite Hdom'. unfold student_ids.
    by rewrite elem_of_list_to_set. }
  unfold getitem in Hrun. rewrite Hcur in Hrun. cbn in Hrun.
  by destruct cur.
Qed.

Lemma last_submission_raises snap e :
  last_submission snap = Raise e → e = ValueError.
Proof.
  intros He. unfold last_submission in He.
  pose proof (submission_walk_outcome snap (seed snap None) (dom_seed _ _))
    as Hwalk.
  by rewrite He in Hwalk.
Qed.

(** X19. The last-submission walk returns exactly when every
    [submitted_at] of the listed submissions is null or can be read, and
    raises nothing but ValueError: it looks up no assignment and no
    student that is not there. *)
Theorem last_submission_outcome (snap : snapshot) :
  ((∃ m, last_submission snap = Ok m) ↔ submitted_parse snap)
  ∧ (∀ e, last_submission snap = Raise e → e = ValueError).
Proof.
  split; [split|].
  - intros [m Hm]. by eapply last_submission_parse.
  - apply last_submission_returns.
  - intros e. apply last_submission_raises.
Qed.

Lemma last_submission_outcome_witness :
  (∃ m, last_submission course = Ok m)
  ∧ submitted_parse course.
Proof.
  assert (∃ m, last_submission course = Ok m) as Hm
    by (eexists; by vm_compute).
  split; [done|].
  exact (proj1 (proj1 (last_submission_outcome course)) Hm).
Defined.

End OutcomeFacts.

(** * The gradebook of last_nonzero_score.py *)

Module GradebookFacts.
Import Codec Canvas Aggregator AggregatorSpec AggregatorExamples GradebookSpec.
Import LoopFacts DictFacts.

Lemma gradebook_step_cell snap a g sub :
  gradebook_step snap a g sub
  = if Dict.mem (str (user_id sub)) (students snap)
    then <[(str (user_id sub), a) := cell_of sub]> g
    else g.
Proof.
  unfold gradebook_step, cell_of.
  destruct (Dict.mem _ _); [|done].
  destruct (score sub); try done; by destruct (decide _).
Qed.

Lemma gradebook_steps snap a subs :
  ∀ g s' a',
    foldl (gradebook_step snap a) g subs !! (s', a')
    = if decide (a' = a ∧ s' ∈ Dict.keys (students snap))
      then match last (filter (λ sub, str (user_id sub) = s') subs) with
           | Some sub => Some (cell_of sub)
           | None => g !! (s', a')
           end
      else g !! (s', a').
Proof.
  induction subs as [|sub subs IH] using rev_ind; intros g s' a'.
  - cbn. by destruct (decide _).
  - rewrite foldl_app. cbn [foldl]. rewrite gradebook_step_cell.
    rewrite filter_app, filter_cons, filter_nil.
    destruct (Dict.mem (str (user_id sub)) (students snap)) eqn:Hmem.
    + apply mem_true in Hmem.
      destruct (decide ((str (user_id sub), a) = (s', a'))) as [[= <- <-]|Hne].
      * rewrite lookup_insert_eq, decide_True by done.
        by rewrite decide_True, last_snoc by done.
      * rewrite lookup_insert_ne by done. rewrite IH.
        destruct (decide (a' = a ∧ s' ∈ Dict.keys (students snap)))
          as [[-> Hs']|Hno]; [|done].
        rewrite decide_False by congruence. by rewrite app_nil_r.
    + rewrite IH.
      destruct (decide (a' = a ∧ s' ∈ Dict.keys (students snap)))
        as [[-> Hs']|Hno]; [|done].
      rewrite decide_False; [by rewrite app_nil_r|].
      intros <-. apply mem_true in Hs'. congruence.
Qed.

Lemma gradebook_blank snap s a :
  (list_to_map
     (student ← Dict.keys (students snap);
      assignment ← Dict.keys (assignments snap);
      [((student, assignment), NADA)]) : gmap (string * Z) cell) !! (s, a)
  = if decide (s ∈ Dict.keys (students snap)
               ∧ a ∈ Dict.keys (assignments snap))
    then Some NADA else None.
Proof.
  destruct (decide _) as [[Hs Ha]|Hno].
  - apply elem_of_list_to_map_1'.
    + intros c (s' & (a' & Hc & _)%list_elem_of_bind & _)%list_elem_of_bind.
      by apply list_elem_of_singleton in Hc as [= _ _ <-].
    + apply list_elem_of_bind. exists s. split; [|done].
      apply list_elem_of_bind. exists a. split; [left|done].
  - apply not_elem_of_list_to_map_1.
    intros ([[s' a'] c] & [= <- <-] &
            (s'' & (a'' & Hc & Ha)%list_elem_of_bind & Hs)%list_elem_of_bind
           )%list_elem_of_fmap.
    apply list_elem_of_singleton in Hc as [= <- <- _]. by apply Hno.
Qed.

Lemma gradebook_rows snap seen :
  (∀ a, a ∈ seen → a ∈ Dict.keys (assignments snap)) →
  ∀ s a,
    foldl (λ g a, foldl (gradebook_step snap a) g (listed snap a))
      (list_to_map
         (student ← Dict.keys (students snap);
          assignment ← Dict.keys (assignments snap);
          [((student, assignment), NADA)])) seen !! (s, a)
    = if decide (s ∈ Dict.keys (students snap)
                 ∧ a ∈ Dict.keys (assignments snap))
      then Some (if decide (a ∈ seen) then cell_for snap s a else NADA)
      else None.
Proof.
  induction seen as [|a0 seen IH] using rev_ind; intros Hseen s a.
  - cbn [foldl]. rewrite gradebook_blank.
    destruct (decide _); [|done]. rewrite decide_False; [done|].
    apply not_elem_of_nil.
  - rewrite foldl_app. cbn [foldl]. rewrite gradebook_steps.
    rewrite IH by (intros ? ?; apply Hseen, elem_of_app; by left).
    assert (a0 ∈ Dict.keys (assignments snap)) as Ha0
      by (apply Hseen, elem_of_app; right; left).
    destruct (decide (a = a0 ∧ s ∈ Dict.keys (students snap)))
      as [[-> Hs]|Hno].
    + rewrite (decide_True (P := s ∈ Dict.keys (students snap)
                                  ∧ a0 ∈ Dict.keys (assignments snap)))
        by done.
      rewrite (decide_True (P := a0 ∈ seen ++ [a0]))
        by (apply elem_of_app; right; left).
      unfold cell_for.
      destruct (decide (_ ∧ _)) as [_|[]]; [|done].
      destruct (last (filter _ (listed snap a0))) eqn:Hlast; [done|].
      by destruct (decide (a0 ∈ seen)).
    + destruct (decide (s ∈ Dict.keys (students snap)
                        ∧ a ∈ Dict.keys (assignments snap)))
        as [[Hs Ha]|Hno2]; [|done].
      f_equal. apply decide_ext. rewrite elem_of_app, list_elem_of_singleton.
      split; [by left|]. intros [?| ->]; [done|]. by destruct Hno.
Qed.

Lemma gradebook_returns snap :
  submissions_fetched snap →
  gradebook snap
  = Ok (foldl (λ g a, foldl (gradebook_step snap a) g (listed snap a))
          (list_to_map
             (student ← Dict.keys (students snap);
              assignment ← Dict.keys (assignments snap);
              [((student, assignment), NADA)]))
          (Dict.keys (assignments snap))).
Proof.
  intros Hfetched. unfold gradebook. apply for_each_pure.
  intros g a Ha. destruct (Hfetched a Ha) as [subs Hget].
  rewrite Hget. cbn. unfold listed. unfold Dict.get in Hget.
  destruct (Dict.lookup a (all_submissions snap)); [|done].
  by injection Hget as ->.
Qed.

(** X20. The gradebook has a cell for every student and every assignment
    of the course, and no other. The cell is 'NADA' when no submission of
    the student to the assignment is listed; otherwise the last one
    listed decides: its score when that is a float, 'EX' when it is
    excused, and the empty text in every other case. *)
Theorem gradebook_cells (snap : snapshot) :
  submissions_fetched snap →
  ∃ g, gradebook snap = Ok g
       ∧ ∀ s a, g !! (s, a)
                = if decide (s ∈ Dict.keys (students snap)
                             ∧ a ∈ Dict.keys (assignments snap))
                  then Some (cell_for snap s a) else None.
Proof.
  intros Hfetched. eexists. split; [by apply gradebook_returns|].
  intros s a. rewrite gradebook_rows by done.
  destruct (decide _) as [[Hs Ha]|Hno2]; [|done]. by rewrite decide_True.
Qed.

Lemma gradebook_cells_witness :
  ∃ g, gradebook course = Ok g
       ∧ ∀ s a, g !! (s, a)
                = if decide (s ∈ Dict.keys (students course)
                             ∧ a ∈ Dict.keys (assignments course))
                  then Some (cell_for course s a) else None.
Proof.
  apply (gradebook_cells course).
  exact CaseFacts.course_submissions_fetched.
Defined.

Lemma last_nonzero_score_ignores_gradebook_eq snap :
  submissions_fetched snap →
  last_nonzero_score snap = last_non_zero_score snap false.
Proof.
  intros Hfetched. unfold last_nonzero_score.
  by rewrite (gradebook_returns snap Hfetched).
Qed.

(** X21. The gradebook is filled and not read: on a course whose
    submissions were listed for every assignment, last_nonzero_score.py
    from the gradebook on is its nonzero-score walk, whatever the
    gradebook holds. *)
Theorem last_nonzero_score_ignores_gradebook (snap : snapshot) :
  submissions_fetched snap →
  last_nonzero_score snap = last_non_zero_score snap false.
Proof.
  intros Hfetched. unfold last_nonzero_score.
  by rewrite (gradebook_returns snap Hfetched).
Qed.

Lemma last_nonzero_score_ignores_gradebook_witness :
  last_nonzero_score course = last_non_zero_score course false.
Proof.
  apply (last_nonzero_score_ignores_gradebook course).
  exact CaseFacts.course_submissions_fetched.
Defined.

End GradebookFacts.

(** * The report and the scripts from end to end *)

Module ReportFacts.
Import Codec Canvas Aggregator AggregatorSpec AggregatorExamples.
Import Loader LoaderExamples WalkSpec Report ReportExamples.
Import LoopFacts DictFacts LoaderFacts SortingFacts OutcomeFacts GradebookFacts.

(** ** The rows *)

Lemma lookup_student_ids snap {V} (m : gmap string V) s :
  dom m = student_ids snap → s ∈ Dict.keys (students snap) →
  is_Some (m !! s).
Proof.
  intros Hdom Hs. apply elem_of_dom. rewrite Hdom. unfold student_ids.
  by rewrite elem_of_list_to_set.
Qed.

Lemma getitem_Some {V} (m : gmap string V) s v :
  m !! s = Some v → getitem s m = Ok v.
Proof. intros Hs. unfold getitem. by rewrite Hs. Qed.

Lemma export_last_participation_rows snap m1 m2 ids :
  dom m1 = student_ids snap → dom m2 = student_ids snap →
  (∀ s, s ∈ ids → s ∈ Dict.keys (students snap)) →
  ∀ written,
    ∃ rows,
      for_each (λ written student_id,
                  student ← Dict.get student_id (students snap);
                  nonzero ← getitem student_id m1;
                  submitted ← getitem student_id m2;
                  Ok (written
                        ++ [participation_row student nonzero submitted]))
               ids written = Ok (written ++ rows)
      ∧ Forall2 (participation_row_of snap m1 m2) ids rows.
Proof.
  intros Hm1 Hm2. induction ids as [|s ids IH]; intros Hids written.
  - exists []. split; [by rewrite app_nil_r|constructor].
  - assert (s ∈ Dict.keys (students snap)) as Hs by (apply Hids; left).
    destruct (proj2 (lookup_keys s (students snap)) Hs) as [student Hst].
    destruct (lookup_student_ids snap m1 s Hm1 Hs) as [v1 Hv1].
    destruct (lookup_student_ids snap m2 s Hm2 Hs) as [v2 Hv2].
    cbn [for_each]. rewrite (proj2 (get_Ok _ _ _) Hst). cbn.
    rewrite (getitem_Some _ _ _ Hv1). cbn.
    rewrite (getitem_Some _ _ _ Hv2). cbn.
    destruct (IH (λ s' Hs', Hids s' (list_elem_of_further _ _ _ Hs'))
                (written ++ [participation_row student v1 v2]))
      as (rows & -> & Hrows).
    exists (participation_row student v1 v2 :: rows).
    split; [by rewrite <-(assoc_L (++))|].
    constructor; [|done]. by exists student, v1, v2.
Qed.

Lemma export_last_nonzero_rows snap m ids :
  dom m = student_ids snap →
  (∀ s, s ∈ ids → s ∈ Dict.keys (students snap)) →
  ∀ written,
    ∃ rows,
      for_each (λ written student,
                  record ← Dict.get student (students snap);
                  nonzero ← getitem student m;
                  Ok (written ++ [nonzero_row record nonzero]))
               ids written = Ok (written ++ rows)
      ∧ Forall2 (nonzero_row_of snap m) ids rows.
Proof.
  intros Hm. induction ids as [|s ids IH]; intros Hids written.
  - exists []. split; [by rewrite app_nil_r|constructor].
  - assert (s ∈ Dict.keys (students snap)) as Hs by (apply Hids; left).
    destruct (proj2 (lookup_keys s (students snap)) Hs) as [student Hst].
    destruct (lookup_student_ids snap m s Hm Hs) as [v Hv].
    cbn [for_each]. rewrite (proj2 (get_Ok _ _ _) Hst). cbn.
    rewrite (getitem_Some _ _ _ Hv). cbn.
    destruct (IH (λ s' Hs', Hids s' (list_elem_of_further _ _ _ Hs'))
                (written ++ [nonzero_row student v]))
      as (rows & -> & Hrows).
    exists (nonzero_row student v :: rows).
    split; [by rewrite <-(assoc_L (++))|].
    constructor; [|done]. by exists student, v.
Qed.

Lemma export_last_participation_returns snap m1 m2 :
  dom m1 = student_ids snap → dom m2 = student_ids snap →
  ∃ rows,
    export_last_participation snap m1 m2 = Ok (participation_header :: rows)
    ∧ Forall2 (participation_row_of snap m1 m2)
        (Dict.keys (students snap)) rows.
Proof.
  intros Hm1 Hm2. unfold export_last_participation.
  by apply (export_last_participation_rows snap m1 m2 _ Hm1 Hm2).
Qed.

Lemma export_last_nonzero_returns snap m :
  dom m = student_ids snap →
  ∃ rows,
    export_last_nonzero snap m = Ok rows
    ∧ Forall2 (nonzero_row_of snap m) (Dict.keys (students snap)) rows.
Proof.
  intros Hm. unfold export_last_nonzero.
  by apply (export_last_nonzero_rows snap m _ Hm).
Qed.

Lemma last_participation_dom snap m1 m2 :
  last_participation snap = Ok (m1, m2) →
  dom m1 = student_ids snap ∧ dom m2 = student_ids snap.
Proof.
  unfold last_participation.
  destruct (last_non_zero_score snap true) as [m1'|] eqn:H1; cbn; [|done].
  destruct (last_submission snap) as [m2'|] eqn:H2; cbn; [|done].
  intros [= <- <-].
  split; [by eapply last_non_zero_score_dom|by eapply last_submission_dom].
Qed.

(** X22. Once the two walks of last_participation.py have returned, the
    export raises nothing: it writes the header and then one row for
    every student of the course, in the order of the dictionary, with
    the student's name and id and the two values of the student. *)
Theorem export_last_participation_after_walks (snap : snapshot)
    (m1 m2 : gmap string (option datetime)) :
  last_participation snap = Ok (m1, m2) →
  ∃ rows,
    export_last_participation snap m1 m2 = Ok (participation_header :: rows)
    ∧ Forall2 (participation_row_of snap m1 m2)
        (Dict.keys (students snap)) rows.
Proof.
  intros [Hm1 Hm2]%last_participation_dom.
  by apply export_last_participation_returns.
Qed.

Lemma export_last_participation_after_walks_witness :
  ∃ rows,
    export_last_participation course
      {[ "1" := Some feb_01 ]} {[ "1" := Some mar_01 ]}
    = Ok (participation_header :: rows)
    ∧ Forall2 (participation_row_of course
                 {[ "1" := Some feb_01 ]} {[ "1" := Some mar_01 ]})
        (Dict.keys (students course)) rows.
Proof.
  apply (export_last_participation_after_walks course).
  exact CaseFacts.last_participation_course.
Defined.

(** X23. Once the walk of last_nonzero_score.py has returned, its export
    raises nothing: it writes one row for every student of the course,
    in the order of the dictionary, and no header. *)
Theorem export_last_nonzero_after_walk (snap : snapshot)
    (m : gmap string (option datetime)) :
  last_nonzero_score snap = Ok m →
  ∃ rows,
    export_last_nonzero snap m = Ok rows
    ∧ Forall2 (nonzero_row_of snap m) (Dict.keys (students snap)) rows.
Proof.
  unfold last_nonzero_score.
  destruct (gradebook snap) as [g|]; cbn; [|done].
  intros Hm%last_non_zero_score_dom.
  by apply export_last_nonzero_returns.
Qed.

Lemma export_last_nonzero_after_walk_witness :
  ∃ rows,
    export_last_nonzero course_of_active_only {[ "1" := Some feb_01 ]}
    = Ok rows
    ∧ Forall2 (nonzero_row_of course_of_active_only {[ "1" := Some feb_01 ]})
        (Dict.keys (students course_of_active_only)) rows.
Proof.
  apply (export_last_nonzero_after_walk course_of_active_only).
  by vm_compute.
Defined.

(** ** The scripts from end to end *)

Lemma last_participation_returns snap :
  submissions_fetched snap → due_dates_parse snap →
  assignments snap ≠ [] → submitted_parse snap →
  ∃ m1 m2, last_participation snap = Ok (m1, m2).
Proof.
  intros Hfetched Hparse Hne Hsubmitted. unfold last_participation.
  destruct (last_non_zero_score_returns snap Hparse Hfetched Hne)
    as [m1 ->].
  destruct (last_submission_returns snap Hsubmitted) as [m2 ->].
  by exists m1, m2.
Qed.

Lemma last_participation_parse snap mappings :
  last_participation snap = Ok mappings →
  due_dates_parse snap ∧ assignments snap ≠ [] ∧ submitted_parse snap.
Proof.
  unfold last_participation.
  destruct (last_non_zero_score snap true) as [m1|] eqn:H1; cbn; [|done].
  destruct (last_submission snap) as [m2|] eqn:H2; cbn; [|done].
  intros _. destruct (last_non_zero_score_parse _ _ _ H1) as [? ?].
  repeat split; try done. by eapply last_submission_parse.
Qed.

Lemma last_participation_raises snap e :
  submissions_fetched snap →
  last_participation snap = Raise e → e = ValueError ∨ e = IndexError.
Proof.
  intros Hfetched. unfold last_participation.
  destruct (last_non_zero_score snap true) as [m1|e1] eqn:H1; cbn.
  - destruct (last_submission snap) as [m2|e2] eqn:H2; cbn; [done|].
    intros [= <-]. left. by eapply last_submission_raises.
  - intros [= <-].
    destruct (last_non_zero_score_guarded_raises _ _ Hfetched H1)
      as [[-> _]|[-> _]]; by eauto.
Qed.

Lemma length_keys {K V} (d : Dict.dict K V) : length (Dict.keys d) = length d.
Proof. unfold Dict.keys. apply length_fmap. Qed.

(** X24. last_participation.py from end to end. Given the listings, it
    writes its report exactly when the dictionaries can be built, every
    due date and every submission time can be read, and the course has an
    assignment. The report then is the header and one row for each
    student. When the dictionaries are built and it still raises, it
    raises ValueError or IndexError, before anything is written. *)
Theorem last_participation_py_outcome (api : listings) :
  ((∃ lines, last_participation_py api = Ok lines)
   ↔ ∃ snap, load api = Ok snap ∧ due_dates_parse snap
             ∧ assignments snap ≠ [] ∧ submitted_parse snap)
  ∧ (∀ lines, last_participation_py api = Ok lines →
       ∃ snap rows, load api = Ok snap
                    ∧ lines = participation_header :: rows
                    ∧ length rows = length (students snap))
  ∧ (∀ e, last_participation_py api = Raise e →
       load api = Raise e ∨ e = ValueError ∨ e = IndexError).
Proof.
  unfold last_participation_py.
  destruct (load api) as [snap|e0] eqn:Hload; cbn.
  2:{ split; [split|split].
      - by intros [? ?].
      - by intros (? & ? & _).
      - done.
      - intros e [= <-]. by left. }
  pose proof (load_fetched _ _ Hload) as Hfetched.
  split; [split|split].
  - intros [lines Hlines]. exists snap. split; [done|].
    destruct (last_participation snap) as [mappings|] eqn:Hwalks; [|done].
    by eapply last_participation_parse.
  - intros (snap' & [= <-] & Hparse & Hne & Hsubmitted).
    destruct (last_participation_returns snap Hfetched Hparse Hne Hsubmitted)
      as (m1 & m2 & Hwalks).
    rewrite Hwalks. cbn.
    destruct (last_participation_dom _ _ _ Hwalks) as [Hm1 Hm2].
    destruct (export_last_participation_returns snap m1 m2 Hm1 Hm2)
      as (rows & -> & _). by eauto.
  - intros lines.
    destruct (last_participation snap) as [[m1 m2]|] eqn:Hwalks; cbn;
      [|done].
    destruct (last_participation_dom _ _ _ Hwalks) as [Hm1 Hm2].
    destruct (export_last_participation_returns snap m1 m2 Hm1 Hm2)
      as (rows & -> & Hrows).
    intros [= <-]. exists snap, rows. split; [done|]. split; [done|].
    by rewrite <-(Forall2_length _ _ _ Hrows), length_keys.
  - intros e He. right.
    destruct (last_participation snap) as [[m1 m2]|e1] eqn:Hwalks;
      cbn in He.
    + destruct (last_participation_dom _ _ _ Hwalks) as [Hm1 Hm2].
      destruct (export_last_participation_returns snap m1 m2 Hm1 Hm2)
        as (rows & Hrows & _). congruence.
    + injection He as <-. by eapply last_participation_raises.
Qed.

Lemma last_participation_py_outcome_witness :
  ∃ lines, last_participation_py api_of_course = Ok lines.
Proof.
  apply (proj2 (proj1 (last_participation_py_outcome api_of_course))).
  exists course. split; [reflexivity|].
  split; [exact CaseFacts.course_due_dates_parse|].
  split; [done|exact CaseFacts.course_submitted_parse].
Defined.

(** X25. last_nonzero_score.py from end to end. Given the listings, it
    writes its report exactly when the dictionaries can be built, every
    due date can be read, the course has an assignment, and nobody
    outside the course has a float score above zero on an assignment with
    a due date. The report then is one row for each student. *)
Theorem last_nonzero_score_py_outcome (api : listings) :
  ((∃ lines, last_nonzero_score_py api = Ok lines)
   ↔ ∃ snap, load api = Ok snap ∧ due_dates_parse snap
             ∧ assignments snap ≠ [] ∧ ¬ stray_score snap)
  ∧ (∀ lines, last_nonzero_score_py api = Ok lines →
       ∃ snap, load api = Ok snap
               ∧ length lines = length (students snap)).
Proof.
  unfold last_nonzero_score_py.
  destruct (load api) as [snap|e0] eqn:Hload; cbn.
  2:{ split; [split|].
      - by intros [? ?].
      - by intros (? & ? & _).
      - done. }
  pose proof (load_fetched _ _ Hload) as Hfetched.
  rewrite (last_nonzero_score_ignores_gradebook_eq snap Hfetched).
  split; [split|].
  - intros [lines Hlines]. exists snap. split; [done|].
    destruct (last_non_zero_score snap false) as [m|] eqn:Hwalk; [|done].
    destruct (last_non_zero_score_parse _ _ _ Hwalk) as [Hparse Hne].
    repeat split; try done. intros Hstray.
    by rewrite (last_non_zero_score_stray snap Hparse Hstray) in Hwalk.
  - intros (snap' & [= <-] & Hparse & Hne & Hstray).
    rewrite (last_non_zero_score_without_stray snap Hstray).
    destruct (last_non_zero_score_returns snap Hparse Hfetched Hne)
      as [m Hm].
    rewrite Hm. cbn.
    destruct (export_last_nonzero_returns snap m) as (rows & -> & _);
      [by eapply last_non_zero_score_dom|by eauto].
  - intros lines.
    destruct (last_non_zero_score snap false) as [m|] eqn:Hwalk; cbn;
      [|done].
    destruct (export_last_nonzero_returns snap m) as (rows & -> & Hrows);
      [by eapply last_non_zero_score_dom|].
    intros [= <-]. exists snap. split; [done|].
    by rewrite <-(Forall2_length _ _ _ Hrows), length_keys.
Qed.

Lemma last_nonzero_score_py_outcome_witness :
  ∃ lines, last_nonzero_score_py api_of_active_only = Ok lines.
Proof.
  apply (proj2 (proj1 (last_nonzero_score_py_outcome api_of_active_only))).
  exists course_of_active_only. split; [reflexivity|].
  split; [|split; [done|exact course_of_active_only_no_stray_score]].
  intros a Ha. vm_compute in Ha.
  repeat (apply elem_of_cons in Ha as [->|Ha]; [by eexists|]).
  by apply elem_of_nil in Ha.
Defined.

End ReportFacts.
